(** * MultiAgent Financial Analyst backend: subprocess output pipeline

    A shallow embedding of [dist/services/pythonService.js] (the job that
    runs the Python analysis, demultiplexes its output and resolves a
    result) and of the routes of [src/routes/analysis.ts] (the checks on
    the request, the plain reply and the server-sent-event session),
    followed by the properties of both.

    Conventions of the embedding.
    - A JavaScript string is a [string]: a sequence of code units below 256
      (the Latin-1 part of UTF-16).  Indices and lengths are [nat];
      [indexOf] returns [None] where JavaScript returns [-1].
    - A JavaScript number is an exact rational, or [NaN]; rounding to
      binary64 and overflow to infinity are not represented.
    - Objects are association lists in insertion order.
    - Node's [path] module follows its POSIX flavour ([path.sep = "/"]).
    - [Date.now()] is an oracle [now : nat -> Z]: the k-th reading of the
      clock made by the job.
    - [console.log] and [console.error] have no counterpart.
    - [spawn] starts the process or reports its failure through the
      [error] event; the exceptions it throws at once on arguments it
      refuses (a NUL code unit in the ticker) are not represented.
    - The messages of the engine's own exceptions ([JSON.parse], an
      assignment to a primitive) follow V8's wording in outline, without
      positions and renderings of values; where a theorem quotes one, it
      quotes what [JSON.messageOf] and [JSON.set] give. *)

From Stdlib Require Import List Bool Arith ZArith QArith Lia.
From Stdlib Require Import Ascii String.
From Stdlib Require Import DecimalString.
Import ListNotations.

Close Scope Q_scope.
Open Scope list_scope.
Open Scope string_scope.
Open Scope nat_scope.

(* ================================================================== *)
(** * Built-ins of the JavaScript runtime used by the two files *)
(* ================================================================== *)

Module Js.

(** ** Characters *)

Definition code (c : ascii) : nat := nat_of_ascii c.

Definition LF : ascii := ascii_of_nat 10.

(** WhiteSpace and LineTerminator code units below 256: what [trim] strips
    and what the class [\s] accepts. *)
Definition isWhiteSpace (c : ascii) : bool :=
  let n := code c in
  ((9 <=? n) && (n <=? 13)) || (n =? 32) || (n =? 160).

Definition isDigit (c : ascii) : bool :=
  let n := code c in (48 <=? n) && (n <=? 57).

Definition isUpper (c : ascii) : bool :=
  let n := code c in (65 <=? n) && (n <=? 90).

Definition isLower (c : ascii) : bool :=
  let n := code c in (97 <=? n) && (n <=? 122).

(** The class [\w]. *)
Definition isWord (c : ascii) : bool :=
  isUpper c || isLower c || isDigit c || (code c =? 95).

(** [toLowerCase] on one code unit: A-Z, and the Latin-1 capitals
    U+00C0..U+00DE except the multiplication sign U+00D7. *)
Definition lowerChar (c : ascii) : ascii :=
  let n := code c in
  if isUpper c then ascii_of_nat (n + 32)
  else if (192 <=? n) && (n <=? 222) && negb (n =? 215) then ascii_of_nat (n + 32)
  else c.

(** A code unit that no other code unit equals when case is ignored. *)
Definition caseless (x : ascii) : Prop :=
  forall y, Ascii.eqb (lowerChar y) (lowerChar x) = true -> y = x.

(** ** Strings *)

Fixpoint toLowerCase (s : string) : string :=
  match s with
  | EmptyString => EmptyString
  | String c r => String (lowerChar c) (toLowerCase r)
  end.

Definition isEmpty (s : string) : bool :=
  match s with EmptyString => true | _ => false end.

(** Truthiness of a string: non-empty. *)
Definition truthy (s : string) : bool := negb (isEmpty s).

Fixpoint trimStart (s : string) : string :=
  match s with
  | EmptyString => EmptyString
  | String c r => if isWhiteSpace c then trimStart r else s
  end.

Fixpoint trimEnd (s : string) : string :=
  match s with
  | EmptyString => EmptyString
  | String c r =>
      let r' := trimEnd r in
      if isWhiteSpace c && isEmpty r' then EmptyString else String c r'
  end.

Definition trim (s : string) : string := trimEnd (trimStart s).

(** A string of white space only. *)
Fixpoint blank (s : string) : bool :=
  match s with
  | EmptyString => true
  | String c r => isWhiteSpace c && blank r
  end.

(** [s.split('\n')] *)
Fixpoint split_newline (s : string) : list string :=
  match s with
  | EmptyString => [EmptyString]
  | String c r =>
      if Ascii.eqb c LF then EmptyString :: split_newline r
      else match split_newline r with
           | h :: t => String c h :: t
           | [] => [String c EmptyString]
           end
  end.

(** [s.indexOf(needle)]; [None] stands for [-1]. *)
Fixpoint indexOf (needle s : string) : option nat :=
  if String.prefix needle s then Some 0
  else match s with
       | EmptyString => None
       | String _ r => option_map S (indexOf needle r)
       end.

Definition includes (needle s : string) : bool :=
  match indexOf needle s with Some _ => true | None => false end.

(** [s.substring(a, b)]: both indices are clamped to the length and swapped
    when they come in the wrong order. *)
Definition substring (a b : nat) (s : string) : string :=
  let n := String.length s in
  let a' := Nat.min a n in
  let b' := Nat.min b n in
  let lo := Nat.min a' b' in
  let hi := Nat.max a' b' in
  String.substring lo (hi - lo) s.

(** [l[l.length - 1]]; [None] is [undefined]. *)
Fixpoint lastItem {A : Type} (l : list A) : option A :=
  match l with
  | [] => None
  | [x] => Some x
  | _ :: r => lastItem r
  end.

(** A chunk that stops at a line break: it is empty, or its last code unit
    is a line feed. *)
Fixpoint endsAtLineBreak (s : string) : bool :=
  match s with
  | EmptyString => true
  | String c EmptyString => Ascii.eqb c LF
  | String _ r => endsAtLineBreak r
  end.

(** No code unit of [s] is [c]. *)
Fixpoint lacks (c : ascii) (s : string) : bool :=
  match s with
  | EmptyString => true
  | String x r => negb (Ascii.eqb c x) && lacks c r
  end.

(** [lines.join(sep)] *)
Definition join (sep : string) (l : list string) : string := String.concat sep l.

(** Lines of a buffer that are not blank:
    [s.split('\n').filter(line => line.trim())]. *)
Definition nonBlankLines (s : string) : list string :=
  filter (fun line => truthy (trim line)) (split_newline s).

(** Template rendering of an integer. *)
Definition showZ (z : Z) : string := NilZero.string_of_int (Z.to_int z).

(** ** Numbers *)

Inductive number : Type :=
| NaN : number
| Num (q : Q) : number.

Definition divNum (x : number) (d : Q) : number :=
  match x with
  | NaN => NaN
  | Num q => Num (q / d)
  end.

(** [x || 0] on numbers: [NaN] and zero are falsy. *)
Definition orZero (x : number) : number :=
  match x with
  | NaN => Num 0
  | Num q => if Qeq_bool q 0 then Num 0 else Num q
  end.

Definition digitVal (c : ascii) : Z := Z.of_nat (code c - 48).

(** Reads a maximal run of decimal digits: its value, how many digits were
    read, and the rest. *)
Fixpoint readDigits (acc : Z) (n : nat) (s : list ascii) : Z * nat * list ascii :=
  match s with
  | c :: r => if isDigit c then readDigits (10 * acc + digitVal c)%Z (S n) r
              else (acc, n, s)
  | [] => (acc, n, s)
  end.

Definition pow10 (n : nat) : Q := inject_Z (10 ^ Z.of_nat n).

(** [parseFloat] on the texts the service hands to it: an optional sign,
    digits, an optional fraction; the longest prefix that is a decimal
    literal is read and the rest ignored; no digit at all gives [NaN].
    (Exponents and [Infinity] cannot occur in the texts matched by the
    patterns of the service, which contain signs, digits and dots only.) *)
Definition parseFloat (s : string) : number :=
  let l := list_ascii_of_string (trimStart s) in
  let '(neg, l1) :=
    match l with
    | c :: r => if Ascii.eqb c "-" then (true, r)
                else if Ascii.eqb c "+" then (false, r) else (false, l)
    | [] => (false, l)
    end in
  let '(ip, ni, l2) := readDigits 0 0 l1 in
  let '(fp, nf) :=
    match l2 with
    | c :: r => if Ascii.eqb c "." then
                  let '(v, k, _) := readDigits 0 0 r in (v, k)
                else (0%Z, 0)
    | [] => (0%Z, 0)
    end in
  if (ni + nf =? 0)%nat then NaN
  else
    let q := (inject_Z ip + inject_Z fp / pow10 nf)%Q in
    Num (if neg then (- q)%Q else q).

End Js.

(* ================================================================== *)
(** * Regular expressions with JavaScript's backtracking semantics *)
(* ================================================================== *)

Module Regex.

(** The fragment of the pattern language that the service uses:
    character classes, sequence, alternation, greedy and lazy repetition,
    capture groups, positive lookahead and the end-of-input assertion. *)
Inductive re : Type :=
| Eps : re
| Chr (p : ascii -> bool) : re
| Seq (a b : re) : re
| Alt (a b : re) : re
| Star (greedy : bool) (a : re) : re
| Group (i : nat) (a : re) : re
| Look (a : re) : re
| Eos : re.

(** Captures: group number to captured text. *)
Definition caps : Type := list (nat * string).

Fixpoint getCap (i : nat) (c : caps) : option string :=
  match c with
  | [] => None
  | (j, s) :: r => if Nat.eqb i j then Some s else getCap i r
  end.

Definition setCap (i : nat) (s : string) (c : caps) : caps := (i, s) :: c.

(** Backtracking matcher in continuation-passing style.  [k] is what has to
    match after [r]; the first success in priority order wins.  A
    repetition gives up an iteration that consumes nothing. *)
Fixpoint rmatch (A : Type) (r : re) (s : list ascii) (c : caps)
  (k : list ascii -> caps -> option A) {struct r} : option A :=
  match r with
  | Eps => k s c
  | Chr p =>
      match s with
      | x :: s' => if p x then k s' c else None
      | [] => None
      end
  | Seq a b => rmatch A a s c (fun s' c' => rmatch A b s' c' k)
  | Alt a b =>
      match rmatch A a s c k with
      | Some x => Some x
      | None => rmatch A b s c k
      end
  | Star greedy a =>
      (fix loop (n : nat) (s : list ascii) (c : caps) {struct n} : option A :=
         let more (_ : unit) :=
           match n with
           | 0 => None
           | S n' =>
               rmatch A a s c
                 (fun s' c' =>
                    if List.length s' <? List.length s then loop n' s' c' else None)
           end in
         if greedy then
           match more tt with
           | Some x => Some x
           | None => k s c
           end
         else
           match k s c with
           | Some x => Some x
           | None => more tt
           end) (S (List.length s)) s c
  | Group i a =>
      rmatch A a s c
        (fun s' c' =>
           k s' (setCap i
                   (string_of_list_ascii
                      (firstn (List.length s - List.length s') s)) c'))
  | Look a =>
      match rmatch caps a s c (fun _ c' => Some c') with
      | Some c' => k s c'
      | None => None
      end
  | Eos =>
      match s with
      | [] => k s c
      | _ :: _ => None
      end
  end.

(** The loop of a repetition on its own, as [rmatch] runs it: [n] bounds
    the iterations left. *)
Definition starLoop (A : Type) (greedy : bool) (a : re)
  (k : list ascii -> caps -> option A) : nat -> list ascii -> caps -> option A :=
  fix loop (n : nat) (s : list ascii) (c : caps) {struct n} : option A :=
    let more (_ : unit) :=
      match n with
      | 0 => None
      | S n' =>
          rmatch A a s c
            (fun s' c' =>
               if List.length s' <? List.length s then loop n' s' c' else None)
      end in
    if greedy then
      match more tt with
      | Some x => Some x
      | None => k s c
      end
    else
      match k s c with
      | Some x => Some x
      | None => more tt
      end.

(** A continuation that needs a code unit of the class [p] at the head
    of the text: it fails on the empty text and on a text that starts
    outside [p]. *)
Definition needs (A : Type) (p : ascii -> bool)
  (k : list ascii -> caps -> option A) : Prop :=
  forall t c, match t with [] => True | y :: _ => p y = false end -> k t c = None.

(** A match anchored at the start of [s]. *)
Definition matchHere (r : re) (s : list ascii) : option caps :=
  rmatch caps (Group 0 r) s [] (fun _ c => Some c).

(** Leftmost match: every start position is tried in turn, the position
    after the last character included. *)
Fixpoint searchFrom (r : re) (s : list ascii) : option caps :=
  match matchHere r s with
  | Some c => Some c
  | None =>
      match s with
      | [] => None
      | _ :: s' => searchFrom r s'
      end
  end.

(** [text.match(regex)] for a regular expression without the [g] flag. *)
Definition exec (r : re) (text : string) : option caps :=
  searchFrom r (list_ascii_of_string text).

(** The text of the whole match, [match[0]]. *)
Definition matched (c : caps) : string :=
  match getCap 0 c with
  | Some s => s
  | None => EmptyString
  end.

(** ** Pattern builders *)

Definition plus (a : re) : re := Seq a (Star true a).
Definition opt (a : re) : re := Alt a Eps.

Definition chr (x : ascii) : re := Chr (Ascii.eqb x).
Definition notChr (x : ascii) : re := Chr (fun c => negb (Ascii.eqb x c)).

(** One character under the [i] flag. *)
Definition chri (x : ascii) : re :=
  Chr (fun c => Ascii.eqb (Js.lowerChar c) (Js.lowerChar x)).

Fixpoint lit (s : string) : re :=
  match s with
  | EmptyString => Eps
  | String x r => Seq (chr x) (lit r)
  end.

Fixpoint liti (s : string) : re :=
  match s with
  | EmptyString => Eps
  | String x r => Seq (chri x) (liti r)
  end.

Arguments chr x%_char.
Arguments notChr x%_char.
Arguments chri x%_char.

Definition any : re := Chr (fun _ => true).           (* [\s\S] *)
Definition space : re := Chr Js.isWhiteSpace.          (* \s *)
Definition digit : re := Chr Js.isDigit.               (* \d *)
Definition word : re := Chr Js.isWord.                 (* \w *)

End Regex.

(* ================================================================== *)
(** * JavaScript values and [JSON.parse] *)
(* ================================================================== *)

Module JSON.

(** Values as the service sees them.  An array is an object too: besides
    its elements it carries the named properties assigned to it. *)
#[warnings="-register-all"]
Inductive value : Type :=
| Null : value
| Bool (b : bool) : value
| Number (n : Js.number) : value
| Str (s : string) : value
| Array (elems : list value) (props : list (string * value)) : value
| Object (props : list (string * value)) : value.

Definition properties : Type := list (string * value).

Fixpoint lookup (k : string) (l : properties) : option value :=
  match l with
  | [] => None
  | (k', v) :: r => if String.eqb k k' then Some v else lookup k r
  end.

(** Assignment keeps the position of a property that exists and appends a
    new one. *)
Fixpoint assign (k : string) (v : value) (l : properties) : properties :=
  match l with
  | [] => [(k, v)]
  | (k', v') :: r =>
      if String.eqb k k' then (k', v) :: r else (k', v') :: assign k v r
  end.

(** [o.k]: [None] is [undefined]. *)
Definition get (k : string) (o : value) : option value :=
  match o with
  | Object p => lookup k p
  | Array _ p => lookup k p
  | _ => None
  end.

(** [o.k = v] in strict code (an ES module): a [TypeError] on [null] and on
    primitives.  The messages follow V8's wording, without the rendering
    of the offending value. *)
Definition set (k : string) (v : value) (o : value) : value + string :=
  match o with
  | Object p => inl (Object (assign k v p))
  | Array e p => inl (Array e (assign k v p))
  | Null => inr ("Cannot set properties of null (setting '" ++ k ++ "')")
  | Bool _ => inr ("Cannot create property '" ++ k ++ "' on boolean")
  | Number _ => inr ("Cannot create property '" ++ k ++ "' on number")
  | Str _ => inr ("Cannot create property '" ++ k ++ "' on string")
  end.

(** ** The parser *)

(** What [JSON.parse] throws.  The engine's messages vary with its version;
    two of V8's are kept: input exhausted, and an offending character. *)
Inductive SyntaxError : Type :=
| UnexpectedEnd : SyntaxError
| UnexpectedToken (c : ascii) : SyntaxError.

Definition messageOf (e : SyntaxError) : string :=
  match e with
  | UnexpectedEnd => "Unexpected end of JSON input"
  | UnexpectedToken c => "Unexpected token " ++ String c EmptyString ++ " in JSON"
  end.

Definition unexpected {A : Type} (s : list ascii) : A + SyntaxError :=
  match s with
  | [] => inr UnexpectedEnd
  | c :: _ => inr (UnexpectedToken c)
  end.

(** JSON white space: tab, line feed, carriage return, space. *)
Definition isJsonSpace (c : ascii) : bool :=
  let n := Js.code c in (n =? 9) || (n =? 10) || (n =? 13) || (n =? 32).

Fixpoint skipSpace (s : list ascii) : list ascii :=
  match s with
  | c :: r => if isJsonSpace c then skipSpace r else s
  | [] => []
  end.

Definition hexVal (c : ascii) : option nat :=
  let n := Js.code c in
  if Js.isDigit c then Some (n - 48)
  else if (97 <=? n) && (n <=? 102) then Some (n - 87)
  else if (65 <=? n) && (n <=? 70) then Some (n - 55)
  else None.

(** The code unit of [\uXXXX]; a code unit above 255 has no counterpart in
    the 8-bit strings of this development and is stored as ["?"]. *)
Definition unicodeEscape (a b c d : ascii) : option ascii :=
  match hexVal a, hexVal b, hexVal c, hexVal d with
  | Some x, Some y, Some z, Some w =>
      let n := ((x * 16 + y) * 16 + z) * 16 + w in
      Some (if n <? 256 then ascii_of_nat n else "?"%char)
  | _, _, _, _ => None
  end.

Definition simpleEscape (e : ascii) : option ascii :=
  let n := Js.code e in
  if (n =? 34) || (n =? 92) || (n =? 47) then Some e      (* quote, backslash, slash *)
  else if n =? 98 then Some (ascii_of_nat 8)              (* b *)
  else if n =? 102 then Some (ascii_of_nat 12)            (* f *)
  else if n =? 110 then Some (ascii_of_nat 10)            (* n *)
  else if n =? 114 then Some (ascii_of_nat 13)            (* r *)
  else if n =? 116 then Some (ascii_of_nat 9)             (* t *)
  else None.

(** The body of a string literal, after its opening quote. *)
Fixpoint parseString (s : list ascii) : (string * list ascii) + SyntaxError :=
  match s with
  | [] => inr UnexpectedEnd
  | c :: r =>
      if Js.code c =? 34 then inl (EmptyString, r)
      else if Js.code c =? 92 then
        match r with
        | [] => inr UnexpectedEnd
        | e :: r1 =>
            if Js.code e =? 117 then
              match r1 with
              | h1 :: h2 :: h3 :: h4 :: r2 =>
                  match unicodeEscape h1 h2 h3 h4 with
                  | Some x =>
                      match parseString r2 with
                      | inl (str, rest) => inl (String x str, rest)
                      | inr m => inr m
                      end
                  | None => inr (UnexpectedToken e)
                  end
              | _ => inr UnexpectedEnd
              end
            else
              match simpleEscape e with
              | Some x =>
                  match parseString r1 with
                  | inl (str, rest) => inl (String x str, rest)
                  | inr m => inr m
                  end
              | None => inr (UnexpectedToken e)
              end
        end
      else if Js.code c <? 32 then inr (UnexpectedToken c)
      else
        match parseString r with
        | inl (str, rest) => inl (String c str, rest)
        | inr m => inr m
        end
  end.

Definition isChar (n : nat) (c : ascii) : bool := Js.code c =? n.

(** A number literal: an optional minus sign; an integer part that is a
    single zero or starts with a non-zero digit; an optional fraction of a
    dot and at least one digit; an optional exponent of [e] or [E], an
    optional sign and at least one digit. *)
Definition parseSign (s : list ascii) : bool * list ascii :=
  match s with
  | c :: r => if isChar 45 c then (true, r) else (false, s)
  | [] => (false, s)
  end.

Definition parseInteger (s : list ascii) : (Z * list ascii) + SyntaxError :=
  match s with
  | [] => inr UnexpectedEnd
  | c :: r =>
      if negb (Js.isDigit c) then inr (UnexpectedToken c)
      else if isChar 48 c then inl (0%Z, r)
      else let '(v, _, rest) := Js.readDigits 0 0 s in inl (v, rest)
  end.

(** The digits after the dot and how many they are. *)
Definition parseFraction (s : list ascii) : (Z * nat * list ascii) + SyntaxError :=
  match s with
  | d :: r =>
      if isChar 46 d then
        let '(fv, nf, rest) := Js.readDigits 0 0 r in
        if nf =? 0 then unexpected rest else inl (fv, nf, rest)
      else inl (0%Z, 0, s)
  | [] => inl (0%Z, 0, s)
  end.

(** The power of ten of the exponent part, 1 without one. *)
Definition parseExponent (s : list ascii) : (Q * list ascii) + SyntaxError :=
  match s with
  | e :: r =>
      if isChar 101 e || isChar 69 e then
        let '(eneg, r1) :=
          match r with
          | g :: r' => if isChar 45 g then (true, r')
                       else if isChar 43 g then (false, r')
                       else (false, r)
          | [] => (false, r)
          end in
        let '(ev, ne, rest) := Js.readDigits 0 0 r1 in
        if ne =? 0 then unexpected rest
        else
          let p := inject_Z (10 ^ ev) in
          inl (if eneg then (1 / p)%Q else p, rest)
      else inl (1%Q, s)
  | [] => inl (1%Q, s)
  end.

Definition parseNumber (s : list ascii) : (Q * list ascii) + SyntaxError :=
  let '(neg, s1) := parseSign s in
  match parseInteger s1 with
  | inr e => inr e
  | inl (ip, s2) =>
      match parseFraction s2 with
      | inr e => inr e
      | inl (fv, nf, s3) =>
          match parseExponent s3 with
          | inr e => inr e
          | inl (scale, rest) =>
              let mant := (inject_Z ip + inject_Z fv / Js.pow10 nf)%Q in
              inl ((if neg then (- mant)%Q else mant) * scale, rest)%Q
          end
      end
  end.

Fixpoint dropPrefix (p : string) (s : list ascii) : option (list ascii) :=
  match p with
  | EmptyString => Some s
  | String x p' =>
      match s with
      | c :: r => if Ascii.eqb x c then dropPrefix p' r else None
      | [] => None
      end
  end.

(** Values, array elements and object members, by recursive descent.  The
    fuel bounds the chain of nested calls; [parse] provides twice the
    length of the text and two, beyond which more fuel changes nothing
    (lemma [parseValue_enough_fuel]). *)
Fixpoint parseValue (fuel : nat) (s : list ascii) {struct fuel}
  : (value * list ascii) + SyntaxError :=
  match fuel with
  | 0 => inr UnexpectedEnd
  | S fuel' =>
      match skipSpace s with
      | [] => inr UnexpectedEnd
      | c :: r =>
          if isChar 123 c then                                   (* { *)
            match skipSpace r with
            | d :: r' =>
                if isChar 125 d then inl (Object [], r')
                else parseMembers fuel' [] (d :: r')
            | [] => inr UnexpectedEnd
            end
          else if isChar 91 c then                               (* [ *)
            match skipSpace r with
            | d :: r' =>
                if isChar 93 d then inl (Array [] [], r')
                else parseElements fuel' [] (d :: r')
            | [] => inr UnexpectedEnd
            end
          else if isChar 34 c then
            match parseString r with
            | inl (str, rest) => inl (Str str, rest)
            | inr m => inr m
            end
          else if isChar 45 c || Js.isDigit c then
            match parseNumber (c :: r) with
            | inl (q, rest) => inl (Number (Js.Num q), rest)
            | inr m => inr m
            end
          else
            match dropPrefix "true" (c :: r) with
            | Some rest => inl (Bool true, rest)
            | None =>
                match dropPrefix "false" (c :: r) with
                | Some rest => inl (Bool false, rest)
                | None =>
                    match dropPrefix "null" (c :: r) with
                    | Some rest => inl (Null, rest)
                    | None => inr (UnexpectedToken c)
                    end
                end
            end
      end
  end

with parseElements (fuel : nat) (acc : list value) (s : list ascii) {struct fuel}
  : (value * list ascii) + SyntaxError :=
  match fuel with
  | 0 => inr UnexpectedEnd
  | S fuel' =>
      match parseValue fuel' s with
      | inr m => inr m
      | inl (v, rest) =>
          match skipSpace rest with
          | c :: r =>
              if isChar 44 c then parseElements fuel' (acc ++ [v])%list r
              else if isChar 93 c then inl (Array (acc ++ [v])%list [], r)
              else inr (UnexpectedToken c)
          | [] => inr UnexpectedEnd
          end
      end
  end

with parseMembers (fuel : nat) (acc : properties) (s : list ascii) {struct fuel}
  : (value * list ascii) + SyntaxError :=
  match fuel with
  | 0 => inr UnexpectedEnd
  | S fuel' =>
      match skipSpace s with
      | [] => inr UnexpectedEnd
      | q :: r0 =>
          if negb (isChar 34 q) then inr (UnexpectedToken q)
          else
            match parseString r0 with
            | inr m => inr m
            | inl (key, r1) =>
                match skipSpace r1 with
                | [] => inr UnexpectedEnd
                | c :: r2 =>
                    if negb (isChar 58 c) then inr (UnexpectedToken c)
                    else
                      match parseValue fuel' r2 with
                      | inr m => inr m
                      | inl (v, rest) =>
                          match skipSpace rest with
                          | d :: r3 =>
                              if isChar 44 d then parseMembers fuel' (assign key v acc) r3
                              else if isChar 125 d then inl (Object (assign key v acc), r3)
                              else inr (UnexpectedToken d)
                          | [] => inr UnexpectedEnd
                          end
                      end
                end
          end
      end
  end.

(** With fuel [n], what is left after a value is no longer than the text. *)
Definition restBound (n : nat) : Prop :=
  (forall s v r, parseValue n s = inl (v, r) -> List.length r <= List.length s) /\
  (forall acc s v r, parseElements n acc s = inl (v, r) -> List.length r <= List.length s) /\
  (forall acc s v r, parseMembers n acc s = inl (v, r) -> List.length r <= List.length s).

(** Fuel [n] is so much that one more unit changes no outcome. *)
Definition fuelStable (n : nat) : Prop :=
  (forall s, 2 * List.length s + 1 <= n -> parseValue (S n) s = parseValue n s) /\
  (forall acc s, 2 * List.length s + 2 <= n ->
                 parseElements (S n) acc s = parseElements n acc s) /\
  (forall acc s, 2 * List.length s + 2 <= n ->
                 parseMembers (S n) acc s = parseMembers n acc s).

(** [JSON.parse(text)]: a value, or the [SyntaxError] thrown. *)
Definition parse (text : string) : value + SyntaxError :=
  let s := list_ascii_of_string text in
  match parseValue (2 * List.length s + 2) s with
  | inr m => inr m
  | inl (v, rest) =>
      match skipSpace rest with
      | [] => inl v
      | c :: _ => inr (UnexpectedToken c)
      end
  end.

End JSON.

(* ================================================================== *)
(** * Node's [path] and [fs] modules *)
(* ================================================================== *)

Module Path.

Definition slash : ascii := "/"%char.

Fixpoint segments (s : string) : list string :=
  match s with
  | EmptyString => [EmptyString]
  | String c r =>
      if Ascii.eqb c slash then EmptyString :: segments r
      else match segments r with
           | h :: t => String c h :: t
           | [] => [String c EmptyString]
           end
  end.

Definition isAbsolute (p : string) : bool :=
  match p with
  | String c _ => Ascii.eqb c slash
  | EmptyString => false
  end.

Fixpoint endsWithSlash (p : string) : bool :=
  match p with
  | EmptyString => false
  | String c EmptyString => Ascii.eqb c slash
  | String _ r => endsWithSlash r
  end.

(** [normalizeString]: the stack of segments kept so far is held in
    reverse.  Empty segments and ["."] vanish, [".."] drops the segment
    before it, or stays when there is none and the path is relative. *)
Fixpoint normalizeSegments (allowAboveRoot : bool) (stack : list string)
  (l : list string) : list string :=
  match l with
  | [] => rev stack
  | seg :: r =>
      if String.eqb seg EmptyString || String.eqb seg "." then
        normalizeSegments allowAboveRoot stack r
      else if String.eqb seg ".." then
        match stack with
        | top :: below =>
            if String.eqb top ".." then
              normalizeSegments allowAboveRoot (seg :: stack) r
            else normalizeSegments allowAboveRoot below r
        | [] =>
            if allowAboveRoot then normalizeSegments allowAboveRoot [seg] r
            else normalizeSegments allowAboveRoot [] r
        end
      else normalizeSegments allowAboveRoot (seg :: stack) r
  end.

Definition normalize (p : string) : string :=
  let abs := isAbsolute p in
  let body := String.concat "/" (normalizeSegments (negb abs) [] (segments p)) in
  if Js.isEmpty body then
    (if abs then "/" else if endsWithSlash p then "./" else ".")
  else
    let body := if endsWithSlash p then body ++ "/" else body in
    if abs then "/" ++ body else body.

(** [path.join(a, b)] *)
Definition join (a b : string) : string :=
  if Js.isEmpty a then (if Js.isEmpty b then "." else normalize b)
  else if Js.isEmpty b then normalize a
  else normalize (a ++ "/" ++ b).

(** [path.resolve(base, rel)] for an absolute [base], as [__dirname] is. *)
Definition resolve (base rel : string) : string :=
  let p := if isAbsolute rel then rel
           else if Js.isEmpty rel then base
           else base ++ "/" ++ rel in
  "/" ++ String.concat "/" (normalizeSegments false [] (segments p)).

End Path.

Module Fs.

(** The part of the file system the service looks at: which paths exist,
    and what reading one gives ([None]: [readFileSync] throws). *)
Record FileSystem : Type := mkFileSystem {
  existsSync : string -> bool;
  readFileSync : string -> option string
}.

End Fs.

(* ================================================================== *)
(** * [dist/services/pythonService.js] *)
(* ================================================================== *)

Module PythonService.

Import Regex.

(** ** Data *)

Record ProgressData : Type := mkProgressData {
  step : string;
  message : string;
  timestamp : Z
}.

(** The exit code handed to the [close] listener: a number, or [null] when
    a signal ended the process. *)
Inductive ExitCode : Type :=
| Exit (n : Z) : ExitCode
| Signalled : ExitCode.

(** The [Error] objects the promise is rejected with; [code], [stdout] and
    [stderr] are set on the error of a failed exit only. *)
Record AnalysisError : Type := mkAnalysisError {
  errMessage : string;
  errCode : option ExitCode;
  errStdout : option string;
  errStderr : option string
}.

Definition plainError (m : string) : AnalysisError :=
  mkAnalysisError m None None None.

(** How the promise of [runAnalysis] is settled. *)
Inductive Settlement : Type :=
| Resolved (result : JSON.value) : Settlement
| Rejected (error : AnalysisError) : Settlement.

Definition encodeProgress (p : ProgressData) : JSON.value :=
  JSON.Object [("step", JSON.Str (step p));
               ("message", JSON.Str (message p));
               ("timestamp", JSON.Number (Js.Num (inject_Z (timestamp p))))].

Definition encodeMessages (l : list ProgressData) : JSON.value :=
  JSON.Array (map encodeProgress l) [].

(** ** Patterns *)

Definition JSON_OUTPUT_START : string := "===JSON_OUTPUT_START===".
Definition JSON_OUTPUT_END : string := "===JSON_OUTPUT_END===".

(** [/\[([^\]]+)\]/] *)
Definition stepPattern : re :=
  Seq (chr "[") (Seq (Group 1 (plus (notChr "]"))) (chr "]")).

(** [/Recommendation:\s*(\w+)/i] *)
Definition recommendationPattern : re :=
  Seq (liti "Recommendation:") (Seq (Star true space) (Group 1 (plus word))).

(** The class [[\d.]]. *)
Definition digitOrDot : re := Chr (fun c => Js.isDigit c || Ascii.eqb c ".").

(** [/Confidence Score:\s*([\d.]+)/i] *)
Definition confidencePattern : re :=
  Seq (liti "Confidence Score:") (Seq (Star true space) (Group 1 (plus digitOrDot))).

(** [/Scenarios:([\s\S]*?)(?=\nInvestment memo|$)/i] *)
Definition scenariosPattern : re :=
  Seq (liti "Scenarios:")
    (Seq (Group 1 (Star false any))
         (Look (Alt (Seq (chr Js.LF) (liti "Investment memo")) Eos))).

(** [new RegExp(`${scenario}[^:]*:\\s*([+-]?[\\d.]+)%[^,]*,\\s*(\\d+)%`, 'i')] *)
Definition scenarioPattern (scenario : string) : re :=
  Seq (liti scenario)
    (Seq (Star true (notChr ":"))
    (Seq (chr ":")
    (Seq (Star true space)
    (Seq (Group 1 (Seq (opt (Chr (fun c => Ascii.eqb c "+" || Ascii.eqb c "-")))
                       (plus digitOrDot)))
    (Seq (chr "%")
    (Seq (Star true (notChr ","))
    (Seq (chr ",")
    (Seq (Star true space)
    (Seq (Group 2 (plus digit))
         (chr "%")))))))))).

(** [/Investment memo saved to:\s*(outputs[\/\\][^\s\n]+)/i] *)
Definition memoPattern : re :=
  Seq (liti "Investment memo saved to:")
    (Seq (Star true space)
         (Group 1
            (Seq (liti "outputs")
            (Seq (Chr (fun c => Ascii.eqb c "/" || Ascii.eqb c "\"))
                 (plus (Chr (fun c => negb (Js.isWhiteSpace c)))))))).

(** [/\{[\s\S]*\}/] *)
Definition jsonObjectPattern : re :=
  Seq (chr "{") (Seq (Star true any) (chr "}")).

(** ** Text scraping *)

(** [extractValue]: the first capture, trimmed; [None] is [null]. *)
Definition extractValue (text : string) (regex : re) : option string :=
  match exec regex text with
  | Some c =>
      match getCap 1 c with
      | Some s => Some (Js.trim s)
      | None => None
      end
  | None => None
  end.

(** [extractValue(...) || fallback] *)
Definition orElse (v : option string) (fallback : string) : string :=
  match v with
  | Some s => if Js.truthy s then s else fallback
  | None => fallback
  end.

Definition scenarioNames : list string := ["bull"; "base"; "bear"].

(** The body of the [forEach] over the scenario names. *)
Definition addScenario (scenariosText : string) (scenarios : JSON.properties)
  (scenario : string) : JSON.properties :=
  match exec (scenarioPattern scenario) scenariosText with
  | Some c =>
      match getCap 1 c, getCap 2 c with
      | Some m1, Some m2 =>
          JSON.assign scenario
            (JSON.Object
               [("return", JSON.Number (Js.divNum (Js.parseFloat m1) (100 # 1)));
                ("prob", JSON.Number (Js.divNum (Js.parseFloat m2) (100 # 1)))])
            scenarios
      | _, _ => scenarios
      end
  | None => scenarios
  end.

Definition extractScenarios (output : string) : JSON.properties :=
  match exec scenariosPattern output with
  | Some c =>
      match getCap 1 c with
      | Some scenariosText => fold_left (addScenario scenariosText) scenarioNames []
      | None => []
      end
  | None => []
  end.

Definition parseTextOutput (output : string) : JSON.value :=
  JSON.Object
    [("recommendation", JSON.Str (orElse (extractValue output recommendationPattern) EmptyString));
     ("confidence_score",
        JSON.Number
          (Js.orZero (Js.parseFloat (orElse (extractValue output confidencePattern) "0"))));
     ("scenarios", JSON.Object (extractScenarios output));
     ("memo", JSON.Str EmptyString);
     ("progressMessages", JSON.Array [] [])].

(** ** Locations *)

(** [projectRoot] of [runAnalysis]: the working directory of the
    subprocess. *)
Definition projectRoot (dirname : string) : string := Path.resolve dirname "../..".

Definition pythonScript (dirname : string) : string :=
  Path.resolve (projectRoot dirname) "main.py".

(** [projectRoot] of [extractMemoPath]. *)
Definition memoRoot (dirname : string) : string := Path.resolve dirname "../../../..".

Definition extractMemoPath (dirname output : string) : option string :=
  match exec memoPattern output with
  | Some c =>
      match getCap 1 c with
      | Some relativePath => Some (Path.join (memoRoot dirname) relativePath)
      | None => None
      end
  | None => None
  end.

(** ** Launching *)

Record SpawnOptions : Type := mkSpawnOptions {
  command : string;
  args : list string;
  cwd : string
}.

(** The interpreter: the one of [venv] next to the project root when it is
    there, else the system's. *)
Definition pythonExecutable (fs : Fs.FileSystem) (dirname : string) : string :=
  let analystRoot := Path.resolve (projectRoot dirname) ".." in
  if negb (Fs.existsSync fs (Path.join analystRoot "venv")) then "python3"
  else
    let venvPython := Path.join (Path.join (Path.join analystRoot "venv") "bin") "python" in
    if Fs.existsSync fs venvPython then venvPython else "python3".

(** What [runAnalysis] does before any output: an immediate rejection when
    the script is missing, else the process it spawns. *)
Definition launch (fs : Fs.FileSystem) (dirname ticker horizon riskProfile : string)
  : SpawnOptions + AnalysisError :=
  if negb (Fs.existsSync fs (pythonScript dirname)) then
    inr (plainError ("Python script not found at: " ++ pythonScript dirname))
  else
    inl (mkSpawnOptions (pythonExecutable fs dirname)
           ["-u"; pythonScript dirname; ticker; horizon; riskProfile]
           (projectRoot dirname)).

(** ** The job: buffers, transcript and the promise *)

(** The mutable variables of one [runAnalysis] call.  [clock] counts the
    readings of [Date.now()] made so far; [promise] is [None] while the
    promise is pending; [killed] records a call of [pythonProcess.kill()];
    [watchdog] tells whether the 60-minute timer is still armed. *)
Record Job : Type := mkJob {
  stdout : string;
  stderr : string;
  progressMessages : list ProgressData;
  processStarted : bool;
  clock : nat;
  promise : option Settlement;
  killed : bool;
  watchdog : bool
}.

Definition newJob : Job :=
  mkJob EmptyString EmptyString [] false 0 None false true.

Definition withStdout (s : string) (j : Job) : Job :=
  mkJob s (stderr j) (progressMessages j) (processStarted j) (clock j)
        (promise j) (killed j) (watchdog j).

Definition withStderr (s : string) (j : Job) : Job :=
  mkJob (stdout j) s (progressMessages j) (processStarted j) (clock j)
        (promise j) (killed j) (watchdog j).

Definition pushMessage (p : ProgressData) (j : Job) : Job :=
  mkJob (stdout j) (stderr j) (progressMessages j ++ [p])%list (processStarted j)
        (clock j) (promise j) (killed j) (watchdog j).

Definition markStarted (j : Job) : Job :=
  mkJob (stdout j) (stderr j) (progressMessages j) true (clock j)
        (promise j) (killed j) (watchdog j).

Definition tick (j : Job) : Job :=
  mkJob (stdout j) (stderr j) (progressMessages j) (processStarted j)
        (S (clock j)) (promise j) (killed j) (watchdog j).

(** [resolve] and [reject] act on a pending promise only. *)
Definition settle (s : Settlement) (j : Job) : Job :=
  match promise j with
  | Some _ => j
  | None =>
      mkJob (stdout j) (stderr j) (progressMessages j) (processStarted j)
            (clock j) (Some s) (killed j) (watchdog j)
  end.

Definition kill (j : Job) : Job :=
  mkJob (stdout j) (stderr j) (progressMessages j) (processStarted j)
        (clock j) (promise j) true (watchdog j).

Definition clearTimeout (j : Job) : Job :=
  mkJob (stdout j) (stderr j) (progressMessages j) (processStarted j)
        (clock j) (promise j) (killed j) false.

Section Handlers.

(** The clock, the directory of the module, the file system, and the
    progress sink: [onProgress] is [None] for [null], else a callback that
    acts on the state [Sink] of its owner. *)
Variable now : nat -> Z.
Variable dirname : string.
Variable fs : Fs.FileSystem.
Variable Sink : Type.
Variable onProgress : option (ProgressData -> Sink -> Sink).

Definition World : Type := (Job * Sink)%type.

(** A [system] event for the sink, when there is one; it is not pushed to
    the transcript. *)
Definition announce (text : string) (w : World) : World :=
  match onProgress with
  | Some f =>
      let j := fst w in
      (tick j, f (mkProgressData "system" text (now (clock j))) (snd w))
  | None => w
  end.

(** The state at the end of the synchronous part of [runAnalysis]. *)
Definition spawned (sink : Sink) : World :=
  announce "Python process started, initializing..." (newJob, sink).

Definition stepOf (line : string) : string :=
  match exec stepPattern line with
  | Some c =>
      match getCap 1 c with
      | Some s => s
      | None => "system"
      end
  | None => "system"
  end.

(** The body of the loop over the lines of a chunk of standard output:
    both branches build the same event and push it to the transcript, the
    first one also hands it to the sink. *)
Definition processLine (w : World) (line : string) : World :=
  let j := fst w in
  let progressData := mkProgressData (stepOf line) (Js.trim line) (now (clock j)) in
  let w1 := (tick j, snd w) in
  match onProgress with
  | Some f => (pushMessage progressData (fst w1), f progressData (snd w1))
  | None => (pushMessage progressData (fst w1), snd w1)
  end.

(** The first chunk of standard output marks the process as started and
    tells the sink. *)
Definition primed (w : World) : World :=
  if processStarted (fst w) then w
  else announce "Python process is running and producing output..."
         (markStarted (fst w), snd w).

(** [pythonProcess.stdout.on('data', ...)] *)
Definition onStdoutData (chunk : string) (w : World) : World :=
  let w1 := primed w in
  let w2 := (withStdout (stdout (fst w1) ++ chunk) (fst w1), snd w1) in
  fold_left processLine (Js.nonBlankLines chunk) w2.

(** [pythonProcess.stderr.on('data', ...)] *)
Definition onStderrData (chunk : string) (w : World) : World :=
  let w1 := (withStderr (stderr (fst w) ++ chunk) (fst w), snd w) in
  let trimmedChunk := Js.trim chunk in
  if Js.truthy trimmedChunk then
    match onProgress with
    | Some f =>
        let j := fst w1 in
        let progressData :=
          mkProgressData "error" ("Error: " ++ trimmedChunk) (now (clock j)) in
        (pushMessage progressData (tick j), f progressData (snd w1))
    | None => w1
    end
  else w1.

(** ** Settling on exit *)

Definition showCode (code : ExitCode) : string :=
  match code with
  | Exit n => Js.showZ n
  | Signalled => "null"
  end.

Definition isErrorLine (line : string) : bool :=
  Js.truthy (Js.trim line) &&
  (Js.includes "error" (Js.toLowerCase line) ||
   Js.includes "exception" (Js.toLowerCase line) ||
   Js.includes "failed" (Js.toLowerCase line)).

(** [errorMessage] of the branch [code !== 0]. *)
Definition exitMessage (code : ExitCode) (out err : string) : string :=
  let generic := "Python process exited with code " ++ showCode code in
  if Js.truthy err then
    let stderrLines := Js.nonBlankLines err in
    match Js.lastItem stderrLines with
    | Some lastErrorLine =>
        if Js.truthy lastErrorLine && negb (Js.includes "Traceback" lastErrorLine)
        then lastErrorLine
        else Js.join "; " stderrLines
    | None => generic
    end
  else if Js.truthy out then
    let stdoutLines := filter isErrorLine (Js.split_newline out) in
    match Js.lastItem stdoutLines with
    | Some l => l
    | None => generic
    end
  else generic.

(** The memo file named in the output, read when it exists.  A failed read
    and a failed assignment are both swallowed by the inner [try]. *)
Definition attachMemo (out : string) (result : JSON.value) : JSON.value :=
  match extractMemoPath dirname out with
  | Some memoPath =>
      if Js.truthy memoPath && Fs.existsSync fs memoPath then
        match Fs.readFileSync fs memoPath with
        | Some content =>
            match JSON.set "memo" (JSON.Str content) result with
            | inl r => r
            | inr _ => result
            end
        | None => result
        end
      else result
  | None => result
  end.

(** The common tail of the three branches of the [try] block; [inr] is an
    exception thrown on the way. *)
Definition finish (out : string) (transcript : list ProgressData)
  (result : JSON.value) : JSON.value + string :=
  JSON.set "progressMessages" (encodeMessages transcript) (attachMemo out result).

(** The text handed to [JSON.parse] when both markers are found. *)
Definition jsonStr (out : string) (jsonStart jsonEnd : nat) : string :=
  Js.trim (Js.substring (jsonStart + 24) jsonEnd out).

(** The [try] block: [inl] is the value passed to [resolve], [inr] the
    message of the exception that reaches [catch (parseError)]. *)
Definition tryStructured (out : string) (transcript : list ProgressData)
  : JSON.value + string :=
  match Js.indexOf JSON_OUTPUT_START out, Js.indexOf JSON_OUTPUT_END out with
  | Some jsonStart, Some jsonEnd =>
      match JSON.parse (jsonStr out jsonStart jsonEnd) with
      | inl result => finish out transcript result
      | inr e => inr (JSON.messageOf e)
      end
  | _, _ =>
      match exec jsonObjectPattern out with
      | Some jsonMatch =>
          match JSON.parse (matched jsonMatch) with
          | inl result => finish out transcript result
          | inr e => inr (JSON.messageOf e)
          end
      | None => finish out transcript (parseTextOutput out)
      end
  end.

(** The text the [try] block hands to [JSON.parse], if any: the span cut
    out between the markers, else the first brace-to-brace span. *)
Definition structuredText (out : string) : option string :=
  match Js.indexOf JSON_OUTPUT_START out, Js.indexOf JSON_OUTPUT_END out with
  | Some jsonStart, Some jsonEnd => Some (jsonStr out jsonStart jsonEnd)
  | _, _ =>
      match exec jsonObjectPattern out with
      | Some jsonMatch => Some (matched jsonMatch)
      | None => None
      end
  end.

(** The [catch (parseError)] block; an exception thrown inside it would
    leave the listener and is reported as [inr]. *)
Definition fallback (out : string) (transcript : list ProgressData)
  (parseErrorMessage : string) : JSON.value + string :=
  match finish out transcript (parseTextOutput out) with
  | inl result => JSON.set "parseError" (JSON.Str parseErrorMessage) result
  | inr m => inr m
  end.

(** The outcome of the first [close] listener: a settlement, or the
    message of an exception that escapes the listener. *)
Definition closeOutcome (code : ExitCode) (out err : string)
  (transcript : list ProgressData) : Settlement + string :=
  match code with
  | Exit 0 =>
      match tryStructured out transcript with
      | inl result => inl (Resolved result)
      | inr m =>
          match fallback out transcript m with
          | inl result => inl (Resolved result)
          | inr m' => inr m'
          end
      end
  | _ =>
      inl (Rejected (mkAnalysisError (exitMessage code out err)
                       (Some code) (Some out) (Some err)))
  end.

(** Both [close] listeners: settle, then disarm the watchdog. *)
Definition onClose (code : ExitCode) (j : Job) : Job :=
  match closeOutcome code (stdout j) (stderr j) (progressMessages j) with
  | inl s => clearTimeout (settle s j)
  | inr _ => j
  end.

(** [pythonProcess.on('error', ...)] *)
Definition onError (errorMessage : string) (j : Job) : Job :=
  settle (Rejected (plainError
            ("Failed to start Python process: " ++ errorMessage ++
             ". Make sure Python is installed and accessible."))) j.

(** The callback of the 60-minute timer; it runs only while armed, and a
    timer fires once. *)
Definition onTimeout (j : Job) : Job :=
  if watchdog j then
    clearTimeout
      (settle (Rejected (plainError
                 "Analysis timeout: Process took longer than 60 minutes"))
              (kill j))
  else j.

(** What the process and the timer can make happen to a job. *)
Inductive ProcessEvent : Type :=
| StdoutData (chunk : string) : ProcessEvent
| StderrData (chunk : string) : ProcessEvent
| Close (code : ExitCode) : ProcessEvent
| SpawnError (errorMessage : string) : ProcessEvent
| Timeout : ProcessEvent.

Definition handle (e : ProcessEvent) (w : World) : World :=
  match e with
  | StdoutData chunk => onStdoutData chunk w
  | StderrData chunk => onStderrData chunk w
  | Close code => (onClose code (fst w), snd w)
  | SpawnError m => (onError m (fst w), snd w)
  | Timeout => (onTimeout (fst w), snd w)
  end.

Definition run (events : list ProcessEvent) (w : World) : World :=
  fold_left (fun w e => handle e w) events w.

End Handlers.

(** ** What a run of events has put on the two streams *)

Fixpoint stdoutText (events : list ProcessEvent) : string :=
  match events with
  | [] => EmptyString
  | StdoutData chunk :: r => chunk ++ stdoutText r
  | _ :: r => stdoutText r
  end.

Fixpoint stderrText (events : list ProcessEvent) : string :=
  match events with
  | [] => EmptyString
  | StderrData chunk :: r => chunk ++ stderrText r
  | _ :: r => stderrText r
  end.

(** An event without its timestamp. *)
Definition outline (p : ProgressData) : string * string := (step p, message p).

(** The events of the lines of a chunk of standard output, the clock at
    [k] when the first line is processed. *)
Fixpoint lineEvents (now : nat -> Z) (k : nat) (lines : list string)
  : list ProgressData :=
  match lines with
  | [] => []
  | line :: r =>
      mkProgressData (stepOf line) (Js.trim line) (now k) :: lineEvents now (S k) r
  end.

(** What a sink holds after the events given were handed to the callback
    in order; without a callback it is left alone. *)
Definition deliver (Sink : Type) (onProgress : option (ProgressData -> Sink -> Sink))
  (events : list ProgressData) (sink : Sink) : Sink :=
  match onProgress with
  | Some f => fold_left (fun s p => f p s) events sink
  | None => sink
  end.

(** The two announcements a sink gets besides the events of the lines. *)
Definition startedEvent (now : nat -> Z) : ProgressData :=
  mkProgressData "system" "Python process started, initializing..." (now 0).

Definition runningEvent (now : nat -> Z) : ProgressData :=
  mkProgressData "system" "Python process is running and producing output..." (now 1).

(** The reading of the clock that stamps the first line of standard
    output: with a sink, each of the two announcements has taken one. *)
Definition firstReading (Sink : Type)
  (onProgress : option (ProgressData -> Sink -> Sink)) : nat :=
  match onProgress with Some _ => 2 | None => 0 end.

(** Timestamps in the order of the list never go down. *)
Fixpoint ascending (l : list Z) : Prop :=
  match l with
  | [] => True
  | x :: r => match r with
              | [] => True
              | y :: _ => (x <= y)%Z
              end /\ ascending r
  end.

(** The error the watchdog rejects with. *)
Definition timeoutError : AnalysisError :=
  plainError "Analysis timeout: Process took longer than 60 minutes".

(** What an event of the process adds to the transcript, timestamps
    apart: a line of standard output adds its event with or without a
    sink, a chunk of standard error only with one. *)
Definition entries (hasSink : bool) (e : ProcessEvent) : list (string * string) :=
  match e with
  | StdoutData chunk => map (fun l => (stepOf l, Js.trim l)) (Js.nonBlankLines chunk)
  | StderrData chunk =>
      if hasSink && Js.truthy (Js.trim chunk)
      then [("error", "Error: " ++ Js.trim chunk)]
      else []
  | _ => []
  end.

Definition hasSink (Sink : Type) (onProgress : option (ProgressData -> Sink -> Sink))
  : bool :=
  match onProgress with Some _ => true | None => false end.

(** No event of the transcript has an empty message. *)
Definition spoken (j : Job) : Prop :=
  Forall (fun p => Js.truthy (message p) = true) (progressMessages j).

(** A clock that never goes back. *)
Definition monotone (now : nat -> Z) : Prop :=
  forall a b, a <= b -> (now a <= now b)%Z.

(** Timestamps ascend and none lies beyond the next reading of the clock. *)
Definition timed (now : nat -> Z) (j : Job) : Prop :=
  ascending (map timestamp (progressMessages j)) /\
  Forall (fun t => (t <= now (clock j))%Z) (map timestamp (progressMessages j)).

(** A rejection with a message that is not empty; any other settlement. *)
Definition outspoken (o : option Settlement) : Prop :=
  match o with
  | Some (Rejected error) => Js.truthy (errMessage error) = true
  | _ => True
  end.

(** Two lists of properties with the same keys in the same order, and the
    same value under every key other than [k]. *)
Definition sameProps (k : string) (p1 p2 : JSON.properties) : Prop :=
  Forall2 (fun a b => fst a = fst b /\ (fst a <> k -> snd a = snd b)) p1 p2.

(** Two values that differ by the value of the property [k] at most:
    objects with such properties, arrays with the same elements and such
    properties, or equal values. *)
Definition sameBut (k : string) (r1 r2 : JSON.value) : Prop :=
  match r1, r2 with
  | JSON.Object p1, JSON.Object p2 => sameProps k p1 p2
  | JSON.Array e1 p1, JSON.Array e2 p2 => e1 = e2 /\ sameProps k p1 p2
  | _, _ => r1 = r2
  end.

(** Two settlements that differ by the transcript at most: both pending,
    both resolved with results that differ by the value of
    [progressMessages] at most, or both rejected with the same error. *)
Definition alike (o1 o2 : option Settlement) : Prop :=
  match o1, o2 with
  | None, None => True
  | Some (Resolved r1), Some (Resolved r2) => sameBut "progressMessages" r1 r2
  | Some (Rejected e1), Some (Rejected e2) => e1 = e2
  | _, _ => False
  end.

(** What two jobs fed the same events share, whatever their sinks. *)
Definition twins (j1 j2 : Job) : Prop :=
  stdout j1 = stdout j2 /\ stderr j1 = stderr j2 /\ killed j1 = killed j2 /\
  watchdog j1 = watchdog j2 /\ alike (promise j1) (promise j2).

(** A file system without any file. *)
Definition noFiles : Fs.FileSystem := Fs.mkFileSystem (fun _ => false) (fun _ => None).

End PythonService.

(* ================================================================== *)
(** * The routes of [src/routes/analysis.ts] *)
(* ================================================================== *)

Module AnalysisRoute.

Import PythonService.

(** ** The response *)

(** One server-sent event: the pair of [res.write] calls that emits it (a
    single call for the keep-alive comment). *)
Inductive Frame : Type :=
| ProgressFrame (data : ProgressData) : Frame
| KeepAliveFrame (timestamp : Z) : Frame
| CompleteFrame (data timing : JSON.value) : Frame
| ErrorFrame (message : string) : Frame.

Definition isTerminal (f : Frame) : bool :=
  match f with
  | CompleteFrame _ _ => true
  | ErrorFrame _ => true
  | _ => false
  end.

(** The response object.  [written] lists every frame handed to
    [res.write], in order; [sent] lists those the transport took: a write
    to a response that is ended, destroyed or closed is dropped by the
    runtime, which reports it through the callback or the [error] event
    and does not throw.  (So the [catch] blocks around [res.write] in the
    route cannot be entered; they have no counterpart here.) *)
Record Response : Type := mkResponse {
  writableEnded : bool;
  destroyed : bool;
  closed : bool;
  written : list Frame;
  sent : list Frame
}.

Definition unwritable (r : Response) : bool :=
  destroyed r || closed r || writableEnded r.

Definition write (f : Frame) (r : Response) : Response :=
  mkResponse (writableEnded r) (destroyed r) (closed r)
    (written r ++ [f])%list
    (if unwritable r then sent r else (sent r ++ [f])%list).

(** [res.end()] *)
Definition endResponse (r : Response) : Response :=
  mkResponse true (destroyed r) (closed r) (written r) (sent r).

Definition destroy (r : Response) : Response :=
  mkResponse (writableEnded r) true (closed r) (written r) (sent r).

Definition close (r : Response) : Response :=
  mkResponse (writableEnded r) true true (written r) (sent r).

(** ** The session *)

(** The variables the closures of the route share; [keepAliveInterval]
    tells whether the interval timer is still set. *)
Record Session : Type := mkSession {
  connectionAlive : bool;
  responseEnded : bool;
  keepAliveInterval : bool;
  res : Response
}.

Definition withRes (r : Response) (s : Session) : Session :=
  mkSession (connectionAlive s) (responseEnded s) (keepAliveInterval s) r.

Definition clearInterval (s : Session) : Session :=
  mkSession (connectionAlive s) (responseEnded s) false (res s).

(** [connectionAlive = false; responseEnded = true; clearInterval(...)] *)
Definition markClosed (s : Session) : Session :=
  mkSession false true false (res s).

(** The callback of [setInterval]. *)
Definition keepAlive (timestamp : Z) (s : Session) : Session :=
  if negb (connectionAlive s) || responseEnded s then clearInterval s
  else if unwritable (res s) then markClosed s
  else withRes (write (KeepAliveFrame timestamp) (res s)) s.

(** [req.on('close', ...)] *)
Definition onReqClose (s : Session) : Session :=
  if connectionAlive s && (writableEnded (res s) || destroyed (res s) || closed (res s))
  then markClosed s
  else s.

(** [res.on('close', ...)] *)
Definition onResClose (s : Session) : Session :=
  if connectionAlive s then markClosed s else s.

(** [res.on('finish', ...)] and [res.on('error', ...)] *)
Definition onResFinish (s : Session) : Session := markClosed s.
Definition onResError (s : Session) : Session := markClosed s.

(** The progress callback handed to [runAnalysis]. *)
Definition sendProgress (progressData : ProgressData) (s : Session) : Session :=
  if responseEnded s then s
  else if unwritable (res s) then
    (if connectionAlive s then markClosed s else s)
  else
    let s1 :=
      if negb (connectionAlive s) && negb (responseEnded s)
      then mkSession true (responseEnded s) (keepAliveInterval s) (res s)
      else s in
    withRes (write (ProgressFrame progressData) (res s1)) s1.

(** Truthiness of a value, for [result.timing || {}]. *)
Definition truthyValue (v : JSON.value) : bool :=
  match v with
  | JSON.Null => false
  | JSON.Bool b => b
  | JSON.Number Js.NaN => false
  | JSON.Number (Js.Num q) => negb (Qeq_bool q 0)
  | JSON.Str t => Js.truthy t
  | JSON.Array _ _ => true
  | JSON.Object _ => true
  end.

(** [result.timing || {}] *)
Definition timingOf (result : JSON.value) : JSON.value :=
  match JSON.get "timing" result with
  | Some t => if truthyValue t then t else JSON.Object []
  | None => JSON.Object []
  end.

(** The [.then] reaction. *)
Definition onFulfilled (result : JSON.value) (s : Session) : Session :=
  let s1 := clearInterval s in
  withRes (endResponse (write (CompleteFrame result (timingOf result)) (res s1))) s1.

(** The [.catch] reaction. *)
Definition onRejected (error : AnalysisError) (s : Session) : Session :=
  let s1 := clearInterval s in
  let m := if Js.truthy (errMessage error) then errMessage error else "Analysis failed" in
  withRes (endResponse (write (ErrorFrame m) (res s1))) s1.

Definition react (o : Settlement) (s : Session) : Session :=
  match o with
  | Resolved result => onFulfilled result s
  | Rejected error => onRejected error s
  end.

(** ** Shapes of the log of frames *)

Definition terminalCount (l : list Frame) : nat :=
  List.length (filter isTerminal l).

Definition noTerminal (l : list Frame) : Prop :=
  Forall (fun f => isTerminal f = false) l.

(** A session that has written its terminal event: the response is ended,
    the interval is cleared, and the terminal event is the last frame and
    the only terminal one. *)
Definition sealed (s : Session) : Prop :=
  writableEnded (res s) = true /\
  keepAliveInterval s = false /\
  exists pre f,
    written (res s) = (pre ++ [f])%list /\ isTerminal f = true /\ noTerminal pre.

(** A session whose response cannot be written to, with the frames its
    transport has taken so far. *)
Definition deaf (sentSoFar : list Frame) (s : Session) : Prop :=
  unwritable (res s) = true /\ sent (res s) = sentSoFar.

(** ** The session and its job together *)

Inductive Event : Type :=
| Process (e : ProcessEvent) : Event
| KeepAliveTick (timestamp : Z) : Event
| ReqClose : Event
| ResDestroyed : Event
| ResClose : Event
| ResFinish : Event
| ResError : Event.

Section Stream.

Variable now : nat -> Z.
Variable dirname : string.
Variable fs : Fs.FileSystem.

Definition System : Type := World Session.

(** The reaction to the promise runs once, right after the listener that
    settled it. *)
Definition afterSettling (before : Job) (w : System) : System :=
  match promise before, promise (fst w) with
  | None, Some o => (fst w, react o (snd w))
  | _, _ => w
  end.

Definition step (e : Event) (w : System) : System :=
  match e with
  | Process pe =>
      afterSettling (fst w) (handle now dirname fs Session (Some sendProgress) pe w)
  | KeepAliveTick t =>
      (fst w, if keepAliveInterval (snd w) then keepAlive t (snd w) else snd w)
  | ReqClose => (fst w, onReqClose (snd w))
  | ResDestroyed => (fst w, withRes (destroy (res (snd w))) (snd w))
  | ResClose => (fst w, onResClose (withRes (close (res (snd w))) (snd w)))
  | ResFinish => (fst w, onResFinish (snd w))
  | ResError => (fst w, onResError (snd w))
  end.

Definition run (events : list Event) (w : System) : System :=
  fold_left (fun w e => step e w) events w.

(** What links the promise and the log: no terminal event while the
    promise is pending, a sealed session once it is settled. *)
Definition consistent (w : System) : Prop :=
  match promise (fst w) with
  | None => noTerminal (written (res (snd w)))
  | Some _ => sealed (snd w)
  end.

(** The same link for the frames the transport took: once the promise is
    settled the response is unwritable, and the terminal event, if the
    transport took it, is the last frame taken and the only terminal
    one. *)
Definition sentShape (s : Session) : Prop :=
  unwritable (res s) = true /\
  (noTerminal (sent (res s)) \/
   exists pre f,
     sent (res s) = (pre ++ [f])%list /\ isTerminal f = true /\ noTerminal pre).

Definition consistentSent (w : System) : Prop :=
  match promise (fst w) with
  | None => noTerminal (sent (res (snd w)))
  | Some _ => sentShape (snd w)
  end.

(** The events of the process among the events of a session. *)
Definition processEvents (events : list Event) : list ProcessEvent :=
  flat_map (fun e => match e with Process pe => [pe] | _ => [] end) events.

Definition isTimeout (e : Event) : bool :=
  match e with
  | Process Timeout => true
  | _ => false
  end.

(** The session once the headers are set and the first [progress] event is
    written; [TICKER] is the upper-cased ticker and [t0] the clock reading
    of the route. *)
Definition opened (TICKER : string) (t0 : Z) : Session :=
  mkSession true false true
    (write (ProgressFrame
              (mkProgressData "system" ("Starting analysis for " ++ TICKER ++ "...") t0))
           (mkResponse false false false [] [])).

(** The [catch] block of the route handler.  It is entered when setting
    the stream up throws, which can only happen before [runAnalysis] is
    called: no job, listener or timer exists then, and the response gets
    one [error] event. *)
Definition setupFailed (message : string) : Response :=
  endResponse
    (write (ErrorFrame (if Js.truthy message then message
                        else "Failed to start analysis"))
           (mkResponse false false false [] [])).

(** The system when the route handler returns: the job spawned, or the
    promise already rejected because the script is missing. *)
Definition started (TICKER horizon riskProfile : string) (t0 : Z) : System :=
  match launch fs dirname TICKER horizon riskProfile with
  | inl _ => spawned now Session (Some sendProgress) (opened TICKER t0)
  | inr error =>
      afterSettling newJob (settle (Rejected error) newJob, opened TICKER t0)
  end.

End Stream.

(** ** The flags and the frames of a session *)

(** The two flags say the same thing, and a session marked as ended has
    no interval left. *)
Definition coherent (s : Session) : Prop :=
  connectionAlive s = negb (responseEnded s) /\
  (responseEnded s = true -> keepAliveInterval s = false).

(** The [progress] events among frames. *)
Definition progressOf (l : list Frame) : list ProgressData :=
  flat_map (fun f => match f with ProgressFrame d => [d] | _ => [] end) l.

(** What the response itself makes happen, as opposed to the process, the
    interval and the request. *)
Definition disturbs (e : Event) : bool :=
  match e with
  | ResDestroyed | ResClose | ResFinish | ResError => true
  | _ => false
  end.

(** The terminal event that reports a settlement: the result with its
    timing, or the message of the error. *)
Definition terminalFrame (o : Settlement) : Frame :=
  match o with
  | Resolved result => CompleteFrame result (timingOf result)
  | Rejected error => ErrorFrame (errMessage error)
  end.

(** A session that writes no more, with the frames it has written: the
    response is ended and the interval is cleared. *)
Definition finished (log : list Frame) (s : Session) : Prop :=
  writableEnded (res s) = true /\ keepAliveInterval s = false /\
  written (res s) = log.

(** A session on a writable response that has relayed, after the event
    [first] of the route, the events [l] of the job. *)
Definition relays (first : ProgressData) (l : list ProgressData) (s : Session) : Prop :=
  connectionAlive s = true /\ responseEnded s = false /\
  unwritable (res s) = false /\
  sent (res s) = written (res s) /\
  progressOf (written (res s)) = first :: l.

(** A session on an ended response that has relayed [first] and the
    events of the job up to some point of [l]. *)
Definition relayed (first : ProgressData) (l : list ProgressData) (s : Session) : Prop :=
  writableEnded (res s) = true /\ keepAliveInterval s = false /\
  sent (res s) = written (res s) /\
  exists rest, first :: l = (progressOf (written (res s)) ++ rest)%list.

(** What links the promise of the job and the last frame written. *)
Definition reported (w : World Session) : Prop :=
  outspoken (promise (fst w)) /\
  match promise (fst w) with
  | None => True
  | Some o => exists pre, finished (pre ++ [terminalFrame o])%list (snd w)
  end.

(** What links the promise of the job, the session and the events [l] the
    job has emitted, while the response is left alone. *)
Definition relaying (first : ProgressData) (l : list ProgressData)
  (w : World Session) : Prop :=
  match promise (fst w) with
  | None => relays first l (snd w)
  | Some _ => relayed first l (snd w)
  end.

(** ** The request and the two routes *)

(** [req.body] as the body parsers leave it: each field is absent or holds
    a value. *)
Record AnalyzeRequest : Type := mkAnalyzeRequest {
  ticker : option JSON.value;
  horizon : option JSON.value;
  risk_profile : option JSON.value
}.

(** [!field] *)
Definition missing (field : option JSON.value) : bool :=
  match field with
  | Some v => negb (truthyValue v)
  | None => true
  end.

Definition validHorizons : list string := ["short"; "medium"; "long"].
Definition validRiskProfiles : list string := ["conservative"; "moderate"; "aggressive"].

(** [list.includes(x)] for strings. *)
Definition arrayIncludes (x : string) (l : list string) : bool :=
  existsb (String.eqb x) l.

(** [error.message || fallback] *)
Definition messageOr (m fallback : string) : string :=
  if Js.truthy m then m else fallback.

(** How the checks at the head of both handlers end: with a reply of
    status 400, with a [TypeError] because a field that is no string has
    no [toLowerCase] or [toUpperCase], or with the arguments of
    [runAnalysis]. *)
Inductive Verdict : Type :=
| BadRequest (message : string) : Verdict
| Thrown (message : string) : Verdict
| Accepted (TICKER horizon riskProfile : string) : Verdict.

(** The reply of [POST /analyze], without the [error] property that holds
    the stack in development mode. *)
Inductive Reply : Type :=
| Success (data timing : JSON.value) : Reply
| Failure (status : nat) (message : string) : Reply.

(** The reply of [POST /analyze/stream]: a JSON reply of status 400, or
    the event stream. *)
Inductive StreamReply : Type :=
| Refused (message : string) : StreamReply
| Streamed (response : Response) : StreamReply.

Section Routes.

Variable now : nat -> Z.
Variable dirname : string.
Variable fs : Fs.FileSystem.

(** [String.prototype.toUpperCase], and the message of the [TypeError]
    that the engine raises when the expression given is called and is no
    function. *)
Variable toUpperCase : string -> string.
Variable notAFunction : string -> string.

(** The validation both handlers start with, up to the first use of the
    upper-cased ticker. *)
Definition validate (body : AnalyzeRequest) : Verdict :=
  if missing (ticker body) || missing (horizon body) || missing (risk_profile body) then
    BadRequest "Missing required fields: ticker, horizon, risk_profile"
  else
    match horizon body with
    | Some (JSON.Str h) =>
        if negb (arrayIncludes (Js.toLowerCase h) validHorizons) then
          BadRequest ("Invalid horizon. Must be one of: " ++ Js.join ", " validHorizons)
        else
          match risk_profile body with
          | Some (JSON.Str r) =>
              if negb (arrayIncludes (Js.toLowerCase r) validRiskProfiles) then
                BadRequest ("Invalid risk_profile. Must be one of: "
                            ++ Js.join ", " validRiskProfiles)
              else
                match ticker body with
                | Some (JSON.Str t) =>
                    Accepted (toUpperCase t) (Js.toLowerCase h) (Js.toLowerCase r)
                | _ => Thrown (notAFunction "ticker.toUpperCase")
                end
          | _ => Thrown (notAFunction "risk_profile.toLowerCase")
          end
    | _ => Thrown (notAFunction "horizon.toLowerCase")
    end.

(** The job of [POST /analyze]: [runAnalysis] without a sink. *)
Definition awaited (events : list ProcessEvent) : World unit :=
  PythonService.run now dirname fs unit None events (spawned now unit None tt).

(** [POST /analyze]: the reply once the events given have happened,
    [None] while the handler still awaits the promise. *)
Definition analyze (body : AnalyzeRequest) (events : list ProcessEvent) : option Reply :=
  match validate body with
  | BadRequest m => Some (Failure 400 m)
  | Thrown m => Some (Failure 500 (messageOr m "Analysis failed"))
  | Accepted TICKER h r =>
      match launch fs dirname TICKER h r with
      | inr error => Some (Failure 500 (messageOr (errMessage error) "Analysis failed"))
      | inl _ =>
          match promise (fst (awaited events)) with
          | Some (Resolved result) => Some (Success result (timingOf result))
          | Some (Rejected error) =>
              Some (Failure 500 (messageOr (errMessage error) "Analysis failed"))
          | None => None
          end
      end
  end.

(** [POST /analyze/stream]: what the response holds once the events given
    have happened. *)
Definition analyzeStream (body : AnalyzeRequest) (t0 : Z) (events : list Event)
  : StreamReply :=
  match validate body with
  | BadRequest m => Refused m
  | Thrown m => Streamed (setupFailed m)
  | Accepted TICKER h r =>
      Streamed (res (snd (run now dirname fs events
                            (started now dirname fs TICKER h r t0))))
  end.

End Routes.

End AnalysisRoute.

(* ================================================================== *)
(** * Derivations in the words of the specification *)
(* ================================================================== *)

Module Claimed.

Import PythonService.

(** The message of a failed exit as the specification words it: the last
    non-blank line of standard error that does not contain the traceback
    marker; else all non-blank lines of standard error joined; else the
    last line of standard output that mentions an error; else the generic
    message. *)
Definition exitMessage (code : ExitCode) (out err : string) : string :=
  match Js.lastItem
          (filter (fun l => negb (Js.includes "Traceback" l)) (Js.nonBlankLines err)) with
  | Some l => l
  | None =>
      match Js.nonBlankLines err with
      | _ :: _ => Js.join "; " (Js.nonBlankLines err)
      | [] =>
          match Js.lastItem (filter isErrorLine (Js.split_newline out)) with
          | Some l => l
          | None => "Python process exited with code " ++ showCode code
          end
      end
  end.

End Claimed.

(* ================================================================== *)
(** * Properties *)
(* ================================================================== *)

Import Js PythonService.

(** Characters that string literals cannot hold. *)
Definition nl : string := String LF EmptyString.
Definition dq : string := String (ascii_of_nat 34) EmptyString.

(** ** Sample environments for the concrete runs *)

(** A clock that advances by one millisecond at every reading. *)
Definition sampleClock : nat -> Z := fun k => (1700000000000 + Z.of_nat k)%Z.

(** Where the compiled service lives in the samples. *)
Definition sampleDirname : string := "/srv/app/analyst/dist/services".

(** A file system with the script and nothing else. *)
Definition scriptOnly : Fs.FileSystem :=
  Fs.mkFileSystem (fun p => String.eqb p "/srv/app/analyst/main.py") (fun _ => None).

(** A file system where the analysis has written its memo below its
    working directory. *)
Definition withMemo : Fs.FileSystem :=
  Fs.mkFileSystem
    (fun p => String.eqb p "/srv/app/analyst/main.py" ||
              String.eqb p "/srv/app/analyst/outputs/AAPL_memo.md")
    (fun p => if String.eqb p "/srv/app/analyst/outputs/AAPL_memo.md"
              then Some "# AAPL memo" else None).

(** The output of the example of the specification: the payload on a
    line of its own between the markers. *)
Definition examplePayload : string :=
  "{" ++ dq ++ "recommendation" ++ dq ++ ":" ++ dq ++ "BUY" ++ dq ++ ","
      ++ dq ++ "confidence_score" ++ dq ++ ":0.8,"
      ++ dq ++ "scenarios" ++ dq ++ ":{}}".

Definition exampleOutput : string :=
  JSON_OUTPUT_START ++ nl ++ examplePayload ++ nl ++ JSON_OUTPUT_END.


(** An output whose payload follows the start marker at once. *)
Definition gluedPayload : string :=
  "{" ++ dq ++ "recommendation" ++ dq ++ ":" ++ dq ++ "BUY" ++ dq ++ "}".

Definition gluedOutput : string :=
  JSON_OUTPUT_START ++ gluedPayload ++ JSON_OUTPUT_END.

(** Free-form output that announces the memo the analysis has written
    below its working directory. *)
Definition memoOutput : string :=
  "Recommendation: BUY" ++ nl ++
  "Investment memo saved to: outputs/AAPL_memo.md" ++ nl.

(** Free-form output with a scenarios section. *)
Definition scenarioOutput : string :=
  "Recommendation: HOLD" ++ nl ++
  "Confidence Score: 0.75" ++ nl ++
  "Scenarios:" ++ nl ++
  "  Bull case: +25.5% return, 30% probability" ++ nl ++
  "  Base case: 8% return, 50% probability" ++ nl ++
  "  Bear case: -12% return, 20% probability" ++ nl.

(** An output whose payload has a [parseError] property of its own. *)
Definition parseErrorOutput : string :=
  JSON_OUTPUT_START ++ nl ++
  "{" ++ dq ++ "parseError" ++ dq ++ ":" ++ dq ++ "none" ++ dq ++ "}" ++ nl ++
  JSON_OUTPUT_END.

(** A session whose client has gone away right after the stream was
    opened, and what its process does afterwards. *)
Definition abandonedSession : AnalysisRoute.System :=
  AnalysisRoute.step sampleClock sampleDirname scriptOnly AnalysisRoute.ResClose
    (AnalysisRoute.started sampleClock sampleDirname scriptOnly
       "AAPL" "short" "moderate" 1700000000000%Z).

Definition lateEvents : list AnalysisRoute.Event :=
  [AnalysisRoute.Process (StdoutData ("[Market Data Agent] fetching" ++ nl));
   AnalysisRoute.Process (StdoutData exampleOutput);
   AnalysisRoute.KeepAliveTick 1700000015000%Z;
   AnalysisRoute.Process (Close (Exit 0))].

(** Chunks of standard output that stop at line breaks. *)
Definition alignedChunks : list string :=
  ["[Market Data Agent] fetching" ++ nl; "done" ++ nl].

(** A sink that records what it is given. *)
Definition recorder : option (ProgressData -> list ProgressData -> list ProgressData) :=
  Some (fun p l => (l ++ [p])%list).

(** A file system where the memo lies where the service looks for it. *)
Definition memoAtRoot : Fs.FileSystem :=
  Fs.mkFileSystem
    (fun p => String.eqb p "/srv/app/analyst/main.py" ||
              String.eqb p "/srv/outputs/AAPL_memo.md")
    (fun p => if String.eqb p "/srv/outputs/AAPL_memo.md"
              then Some "# AAPL memo" else None).

(** A run that prints a line, fails on standard error and exits with 1. *)
Definition failingRun : list ProcessEvent :=
  [StdoutData ("[Market Data Agent] fetching" ++ nl);
   StderrData ("ValueError: bad ticker" ++ nl);
   Close (Exit 1)].

(** The events of a session around that run: a tick of the interval and
    a premature [close] of the request in between. *)
Definition failingSession : list AnalysisRoute.Event :=
  [AnalysisRoute.Process (StdoutData ("[Market Data Agent] fetching" ++ nl));
   AnalysisRoute.KeepAliveTick 1700000015000%Z;
   AnalysisRoute.ReqClose;
   AnalysisRoute.Process (StderrData ("ValueError: bad ticker" ++ nl));
   AnalysisRoute.Process (Close (Exit 1))].

(** A session whose job is still running. *)
Definition pendingSession : list AnalysisRoute.Event :=
  [AnalysisRoute.Process (StdoutData ("[Market Data Agent] fetching" ++ nl));
   AnalysisRoute.KeepAliveTick 1700000015000%Z;
   AnalysisRoute.ReqClose;
   AnalysisRoute.Process (StderrData ("warning: slow network" ++ nl))].

(** [toUpperCase] on ASCII letters, and V8's wording of the [TypeError]. *)
Fixpoint asciiUpper (s : string) : string :=
  match s with
  | EmptyString => EmptyString
  | String c r =>
      String (if isLower c then ascii_of_nat (Js.code c - 32) else c) (asciiUpper r)
  end.

Definition v8NotAFunction (callee : string) : string :=
  callee ++ " is not a function".

(** A request in mixed case. *)
Definition sampleRequest : AnalysisRoute.AnalyzeRequest :=
  AnalysisRoute.mkAnalyzeRequest
    (Some (JSON.Str "aapl")) (Some (JSON.Str "Short")) (Some (JSON.Str "MODERATE")).

(** ** The fuel of the JSON parser *)

Module JsonFuel.

Import JSON.

Lemma skipSpace_length (s : list ascii) : List.length (skipSpace s) <= List.length s.
Proof.
  induction s as [|c r IH]; simpl; [lia|].
  destruct (isJsonSpace c); simpl; lia.
Qed.

Lemma skipSpace_cons (s r : list ascii) (c : ascii) :
  skipSpace s = c :: r -> List.length r < List.length s.
Proof.
  intros H. pose proof (skipSpace_length s) as L. rewrite H in L. simpl in L. lia.
Qed.

Lemma readDigits_rest (s : list ascii) : forall acc n v k r,
  readDigits acc n s = (v, k, r) -> List.length r <= List.length s.
Proof.
  induction s as [|c s IH]; intros acc n v k r H; simpl in H.
  - injection H as _ _ <-. simpl. lia.
  - destruct (isDigit c).
    + apply IH in H. simpl. lia.
    + injection H as _ _ <-. simpl. lia.
Qed.

Lemma parseString_rest (n : nat) : forall s str rest,
  List.length s <= n ->
  parseString s = inl (str, rest) -> List.length rest < List.length s.
Proof.
  induction n as [|n IH]; intros s str rest Hn H.
  - destruct s; [discriminate H | simpl in Hn; lia].
  - destruct s as [|c r]; [discriminate H|].
    cbn [parseString] in H. simpl in Hn.
    destruct (code c =? 34); [injection H as _ <-; simpl; lia|].
    destruct (code c =? 92).
    + destruct r as [|e r1]; [discriminate H|]. simpl in Hn.
      destruct (code e =? 117).
      * destruct r1 as [|h1 [|h2 [|h3 [|h4 r2]]]]; try discriminate H.
        destruct (unicodeEscape h1 h2 h3 h4); [|discriminate H].
        destruct (parseString r2) as [[str' rest']|] eqn:E; [|discriminate H].
        injection H as _ <-. apply IH in E; simpl in *; lia.
      * destruct (simpleEscape e); [|discriminate H].
        destruct (parseString r1) as [[str' rest']|] eqn:E; [|discriminate H].
        injection H as _ <-. apply IH in E; simpl in *; lia.
    + destruct (code c <? 32); [discriminate H|].
      destruct (parseString r) as [[str' rest']|] eqn:E; [|discriminate H].
      injection H as _ <-. apply IH in E; simpl in *; lia.
Qed.

Lemma dropPrefix_rest (p : string) : forall s r,
  dropPrefix p s = Some r -> List.length r <= List.length s.
Proof.
  induction p as [|x p IH]; intros s r H; simpl in H.
  - injection H as <-. lia.
  - destruct s as [|c s]; [discriminate H|].
    destruct (Ascii.eqb x c); [|discriminate H].
    apply IH in H. simpl. lia.
Qed.

Lemma parseSign_rest (s r : list ascii) (b : bool) :
  parseSign s = (b, r) -> List.length r <= List.length s.
Proof.
  unfold parseSign. destruct s as [|c s]; [intros H; injection H as _ <-; lia|].
  destruct (isChar 45 c); intros H; injection H as _ <-; simpl; lia.
Qed.

Lemma parseInteger_rest (s r : list ascii) (v : Z) :
  parseInteger s = inl (v, r) -> List.length r <= List.length s.
Proof.
  unfold parseInteger. destruct s as [|c s]; [discriminate|].
  destruct (negb (isDigit c)); [discriminate|].
  destruct (isChar 48 c); [intros H; injection H as _ <-; simpl; lia|].
  destruct (readDigits 0 0 (c :: s)) as [[v' k] r'] eqn:E.
  intros H; injection H as _ <-. now apply readDigits_rest in E.
Qed.

Lemma unexpected_inr {A : Type} (s : list ascii) (x : A) : @unexpected A s <> inl x.
Proof. destruct s; discriminate. Qed.

Lemma parseFraction_rest (s r : list ascii) (v : Z) (k : nat) :
  parseFraction s = inl (v, k, r) -> List.length r <= List.length s.
Proof.
  unfold parseFraction. destruct s as [|d s]; [intros H; injection H as _ _ <-; lia|].
  destruct (isChar 46 d); [|intros H; injection H as _ _ <-; lia].
  destruct (readDigits 0 0 s) as [[v' k'] r'] eqn:E.
  destruct (k' =? 0); intros H; [now apply unexpected_inr in H|].
  injection H as _ _ <-. apply readDigits_rest in E. simpl. lia.
Qed.

Lemma parseExponent_rest (s r : list ascii) (q : Q) :
  parseExponent s = inl (q, r) -> List.length r <= List.length s.
Proof.
  unfold parseExponent. destruct s as [|e s]; [intros H; injection H as _ <-; lia|].
  destruct (isChar 101 e || isChar 69 e); [|intros H; injection H as _ <-; lia].
  destruct (match s with
            | [] => (false, s)
            | g :: r' => if isChar 45 g then (true, r')
                         else if isChar 43 g then (false, r') else (false, s)
            end) as [eneg r1] eqn:E1.
  assert (L1 : List.length r1 <= List.length s).
  { destruct s as [|g s']; [injection E1 as _ <-; lia|].
    destruct (isChar 45 g); [injection E1 as _ <-; simpl; lia|].
    destruct (isChar 43 g); injection E1 as _ <-; simpl; lia. }
  destruct (readDigits 0 0 r1) as [[ev ne] rest] eqn:E2.
  destruct (ne =? 0); intros H; [now apply unexpected_inr in H|].
  injection H as _ <-. apply readDigits_rest in E2. simpl. lia.
Qed.

Lemma parseNumber_rest (s : list ascii) (q : Q) (rest : list ascii) :
  parseNumber s = inl (q, rest) -> List.length rest <= List.length s.
Proof.
  unfold parseNumber.
  destruct (parseSign s) as [neg s1] eqn:E0. apply parseSign_rest in E0.
  destruct (parseInteger s1) as [[ip s2]|] eqn:E1; [|discriminate].
  apply parseInteger_rest in E1.
  destruct (parseFraction s2) as [[[fv nf] s3]|] eqn:E2; [|discriminate].
  apply parseFraction_rest in E2.
  destruct (parseExponent s3) as [[scale r]|] eqn:E3; [|discriminate].
  apply parseExponent_rest in E3.
  intros H. injection H as _ <-. lia.
Qed.

Lemma parse_rest (n : nat) : restBound n.
Proof.
  induction n as [|n [IHv [IHe IHm]]]; [repeat split; intros; discriminate|].
  repeat split.
  - intros s v r H. cbn [parseValue] in H.
    pose proof (skipSpace_length s) as L.
    destruct (skipSpace s) as [|c t] eqn:E; [discriminate H|]. simpl in L.
    destruct (isChar 123 c).
    { pose proof (skipSpace_length t) as L'.
      destruct (skipSpace t) as [|d t'] eqn:E'; [discriminate H|]. simpl in L'.
      destruct (isChar 125 d); [injection H as _ <-; lia|].
      apply IHm in H. simpl in H. lia. }
    destruct (isChar 91 c).
    { pose proof (skipSpace_length t) as L'.
      destruct (skipSpace t) as [|d t'] eqn:E'; [discriminate H|]. simpl in L'.
      destruct (isChar 93 d); [injection H as _ <-; lia|].
      apply IHe in H. simpl in H. lia. }
    destruct (isChar 34 c).
    { destruct (parseString t) as [[str rest]|] eqn:Es; [|discriminate H].
      injection H as _ <-. apply (parseString_rest _ _ _ _ (le_n _)) in Es. lia. }
    destruct (isChar 45 c || isDigit c).
    { destruct (parseNumber (c :: t)) as [[q rest]|] eqn:En; [|discriminate H].
      injection H as _ <-. apply parseNumber_rest in En. simpl in En. lia. }
    destruct (dropPrefix "true" (c :: t)) as [rest|] eqn:E1.
    { injection H as _ <-. apply dropPrefix_rest in E1. simpl in E1. lia. }
    destruct (dropPrefix "false" (c :: t)) as [rest|] eqn:E2.
    { injection H as _ <-. apply dropPrefix_rest in E2. simpl in E2. lia. }
    destruct (dropPrefix "null" (c :: t)) as [rest|] eqn:E3; [|discriminate H].
    injection H as _ <-. apply dropPrefix_rest in E3. simpl in E3. lia.
  - intros acc s v r H. cbn [parseElements] in H.
    destruct (parseValue n s) as [[v0 rest]|] eqn:Ev; [|discriminate H].
    apply IHv in Ev.
    pose proof (skipSpace_length rest) as L.
    destruct (skipSpace rest) as [|c t]; [discriminate H|]. simpl in L.
    destruct (isChar 44 c); [apply IHe in H; lia|].
    destruct (isChar 93 c); [|discriminate H].
    injection H as _ <-. lia.
  - intros acc s v r H. cbn [parseMembers] in H.
    pose proof (skipSpace_length s) as L.
    destruct (skipSpace s) as [|q0 r0]; [discriminate H|]. simpl in L.
    destruct (negb (isChar 34 q0)); [discriminate H|].
    destruct (parseString r0) as [[key r1]|] eqn:Es; [|discriminate H].
    apply (parseString_rest _ _ _ _ (le_n _)) in Es.
    pose proof (skipSpace_length r1) as L1.
    destruct (skipSpace r1) as [|c r2]; [discriminate H|]. simpl in L1.
    destruct (negb (isChar 58 c)); [discriminate H|].
    destruct (parseValue n r2) as [[v0 rest]|] eqn:Ev; [|discriminate H].
    apply IHv in Ev.
    pose proof (skipSpace_length rest) as L2.
    destruct (skipSpace rest) as [|d r3]; [discriminate H|]. simpl in L2.
    destruct (isChar 44 d); [apply IHm in H; lia|].
    destruct (isChar 125 d); [|discriminate H].
    injection H as _ <-. lia.
Qed.

Lemma parse_fuel_step (n : nat) : fuelStable n.
Proof.
  induction n as [|n [IHv [IHe IHm]]]; [repeat split; intros; lia|].
  destruct (parse_rest n) as [Rv _].
  repeat split.
  - intros s Hn. cbn [parseValue].
    pose proof (skipSpace_length s) as L.
    destruct (skipSpace s) as [|c t]; [reflexivity|]. simpl in L.
    pose proof (skipSpace_length t) as L'.
    destruct (isChar 123 c).
    { destruct (skipSpace t) as [|d t']; [reflexivity|]. simpl in L'.
      destruct (isChar 125 d); [reflexivity|]. apply IHm. simpl. lia. }
    destruct (isChar 91 c); [|reflexivity].
    destruct (skipSpace t) as [|d t']; [reflexivity|]. simpl in L'.
    destruct (isChar 93 d); [reflexivity|]. apply IHe. simpl. lia.
  - intros acc s Hn. cbn [parseElements]. rewrite IHv by lia.
    destruct (parseValue n s) as [[v rest]|] eqn:Ev; [|reflexivity].
    apply Rv in Ev. pose proof (skipSpace_length rest) as L.
    destruct (skipSpace rest) as [|c t]; [reflexivity|]. simpl in L.
    destruct (isChar 44 c); [|reflexivity]. apply IHe. lia.
  - intros acc s Hn. cbn [parseMembers].
    pose proof (skipSpace_length s) as L.
    destruct (skipSpace s) as [|q0 r0]; [reflexivity|]. simpl in L.
    destruct (negb (isChar 34 q0)); [reflexivity|].
    destruct (parseString r0) as [[key r1]|] eqn:Es; [|reflexivity].
    apply (parseString_rest _ _ _ _ (le_n _)) in Es.
    pose proof (skipSpace_length r1) as L1.
    destruct (skipSpace r1) as [|c r2]; [reflexivity|]. simpl in L1.
    destruct (negb (isChar 58 c)); [reflexivity|].
    rewrite IHv by lia.
    destruct (parseValue n r2) as [[v rest]|] eqn:Ev; [|reflexivity].
    apply Rv in Ev. pose proof (skipSpace_length rest) as L2.
    destruct (skipSpace rest) as [|d r3]; [reflexivity|]. simpl in L2.
    destruct (isChar 44 d); [|reflexivity]. apply IHm. lia.
Qed.

(** The fuel that [parse] provides is enough: any larger amount gives the
    same outcome. *)
Lemma parseValue_enough_fuel (s : list ascii) (k : nat) :
  parseValue (2 * List.length s + 2 + k) s = parseValue (2 * List.length s + 2) s.
Proof.
  induction k as [|k IH]; [now rewrite Nat.add_0_r|].
  rewrite Nat.add_succ_r, <- IH.
  apply (proj1 (parse_fuel_step _)). lia.
Qed.

End JsonFuel.

(** ** Strings and lines *)

Lemma append_empty_r (s : string) : s ++ EmptyString = s.
Proof.
  induction s as [|c s IH]; simpl; [reflexivity | now rewrite IH].
Qed.

Lemma append_assoc (a b c : string) : (a ++ b) ++ c = a ++ (b ++ c).
Proof.
  induction a as [|x a IH]; simpl; [reflexivity | now rewrite IH].
Qed.

Lemma split_newline_not_nil (s : string) : split_newline s <> [].
Proof.
  destruct s as [|c r]; simpl; [discriminate|].
  destruct (Ascii.eqb c LF); [discriminate|].
  destruct (split_newline r); discriminate.
Qed.

Lemma split_newline_break (a b : string) :
  split_newline (a ++ String LF b) = (split_newline a ++ split_newline b)%list.
Proof.
  induction a as [|c a IH]; simpl.
  - reflexivity.
  - destruct (Ascii.eqb c LF).
    + now rewrite IH.
    + rewrite IH.
      destruct (split_newline a) as [|h t] eqn:E.
      * now apply split_newline_not_nil in E.
      * reflexivity.
Qed.

Lemma nonBlankLines_break (a b : string) :
  nonBlankLines (a ++ String LF b) = (nonBlankLines a ++ nonBlankLines b)%list.
Proof.
  unfold nonBlankLines. now rewrite split_newline_break, filter_app.
Qed.

Lemma endsAtLineBreak_inv (s : string) :
  endsAtLineBreak s = true -> s = EmptyString \/ exists a, s = a ++ nl.
Proof.
  induction s as [|c r IH]; intros H.
  - now left.
  - right. destruct r as [|d r'].
    + simpl in H. apply Ascii.eqb_eq in H. subst c. now exists EmptyString.
    + destruct (IH H) as [E | [a E]]; [discriminate|].
      exists (String c a). simpl. now rewrite <- E.
Qed.

(** Lines of two chunks, the first of which stops at a line break, are the
    lines of their concatenation. *)
Lemma nonBlankLines_aligned (a b : string) :
  endsAtLineBreak a = true ->
  nonBlankLines (a ++ b) = (nonBlankLines a ++ nonBlankLines b)%list.
Proof.
  intros H. destruct (endsAtLineBreak_inv a H) as [-> | [a' ->]].
  - reflexivity.
  - unfold nl. rewrite append_assoc. simpl.
    rewrite !nonBlankLines_break. simpl.
    now rewrite app_nil_r.
Qed.

Lemma lastItem_snoc {A : Type} (l : list A) (x : A) : lastItem (l ++ [x])%list = Some x.
Proof.
  induction l as [|y l IH]; simpl; [reflexivity|].
  rewrite IH. destruct (l ++ [x])%list eqn:E; [|reflexivity].
  now destruct l.
Qed.

(** ** The output demultiplexer *)

Section Demultiplexer.

Variable now : nat -> Z.
Variable Sink : Type.
Variable onProgress : option (ProgressData -> Sink -> Sink).

Let World := World Sink.

Lemma withStdout_twice (a b : string) (j : Job) :
  withStdout a (withStdout b j) = withStdout a j.
Proof. reflexivity. Qed.

(** Processing a line does not look at the standard-output buffer. *)
Lemma processLine_withStdout (x : string) (j : Job) (k : Sink) (line : string) :
  processLine now Sink onProgress (withStdout x j, k) line =
  (withStdout x (fst (processLine now Sink onProgress (j, k) line)),
   snd (processLine now Sink onProgress (j, k) line)).
Proof.
  unfold processLine. destruct onProgress; reflexivity.
Qed.

Lemma processLines_withStdout (x : string) (lines : list string) (j : Job) (k : Sink) :
  fold_left (processLine now Sink onProgress) lines (withStdout x j, k) =
  (withStdout x (fst (fold_left (processLine now Sink onProgress) lines (j, k))),
   snd (fold_left (processLine now Sink onProgress) lines (j, k))).
Proof.
  revert j k. induction lines as [|l lines IH]; intros j k; simpl.
  - reflexivity.
  - rewrite processLine_withStdout, IH.
    now destruct (processLine now Sink onProgress (j, k) l).
Qed.

Lemma processLine_started (w : World) (line : string) :
  processStarted (fst (processLine now Sink onProgress w line)) = processStarted (fst w).
Proof.
  unfold processLine. destruct onProgress; reflexivity.
Qed.

Lemma processLines_started (lines : list string) (w : World) :
  processStarted (fst (fold_left (processLine now Sink onProgress) lines w))
  = processStarted (fst w).
Proof.
  revert w. induction lines as [|l lines IH]; intros w; simpl; [reflexivity|].
  now rewrite IH, processLine_started.
Qed.

Local Abbreviation primed := (PythonService.primed now Sink onProgress).

Lemma primed_started (w : World) : processStarted (fst (primed w)) = true.
Proof.
  unfold PythonService.primed. destruct (processStarted (fst w)) eqn:E; [assumption|].
  unfold announce. destruct onProgress; reflexivity.
Qed.

Lemma onStdoutData_unfold (chunk : string) (w : World) :
  onStdoutData now Sink onProgress chunk w =
  fold_left (processLine now Sink onProgress) (nonBlankLines chunk)
    (withStdout (stdout (fst (primed w)) ++ chunk) (fst (primed w)), snd (primed w)).
Proof. reflexivity. Qed.

(** Two chunks, the first of which stops at a line break, act as their
    concatenation delivered at once. *)
Lemma onStdoutData_aligned (a b : string) (w : World) :
  endsAtLineBreak a = true ->
  onStdoutData now Sink onProgress b (onStdoutData now Sink onProgress a w)
  = onStdoutData now Sink onProgress (a ++ b) w.
Proof.
  intros H.
  rewrite (onStdoutData_unfold (a ++ b) w), (onStdoutData_unfold a w).
  rewrite (nonBlankLines_aligned a b H), fold_left_app.
  rewrite !processLines_withStdout.
  set (F := fold_left (processLine now Sink onProgress) (nonBlankLines a)
              (fst (primed w), snd (primed w))).
  assert (HF : processStarted (fst F) = true).
  { unfold F. rewrite processLines_started. apply primed_started. }
  rewrite onStdoutData_unfold.
  assert (HP : primed (withStdout (stdout (fst (primed w)) ++ a) (fst F), snd F)
               = (withStdout (stdout (fst (primed w)) ++ a) (fst F), snd F)).
  { unfold PythonService.primed. simpl. now rewrite HF. }
  rewrite HP. simpl fst. simpl snd.
  rewrite !processLines_withStdout.
  simpl fst. simpl snd. rewrite withStdout_twice.
  change (stdout (withStdout (stdout (fst (primed w)) ++ a) (fst F)))
    with (stdout (fst (primed w)) ++ a).
  now rewrite append_assoc.
Qed.

Lemma run_stdout_aligned (dirname : string) (fs : Fs.FileSystem)
  (chunks : list string) (last : string) (w : World) :
  Forall (fun c => endsAtLineBreak c = true) chunks ->
  PythonService.run now dirname fs Sink onProgress
    (map StdoutData (chunks ++ [last])%list) w
  = onStdoutData now Sink onProgress (String.concat EmptyString chunks ++ last) w.
Proof.
  revert w. induction chunks as [|c chunks IH]; intros w HA.
  - reflexivity.
  - inversion HA as [|? ? Hc Hr]; subst.
    change (PythonService.run now dirname fs Sink onProgress
              (map StdoutData ((c :: chunks) ++ [last])%list) w)
      with (PythonService.run now dirname fs Sink onProgress
              (map StdoutData (chunks ++ [last])%list)
              (onStdoutData now Sink onProgress c w)).
    rewrite (IH _ Hr).
    rewrite onStdoutData_aligned by assumption.
    destruct chunks as [|c' chunks']; simpl.
    + reflexivity.
    + now rewrite append_assoc.
Qed.

End Demultiplexer.

(** The transcript after a chunk of standard error: nothing is pushed
    without a sink. *)
Lemma onStderrData_transcript (now : nat -> Z) (Sink : Type)
  (onProgress : option (ProgressData -> Sink -> Sink)) (chunk : string)
  (w : World Sink) :
  progressMessages (fst (onStderrData now Sink onProgress chunk w)) =
  match onProgress with
  | Some _ =>
      if truthy (trim chunk)
      then (progressMessages (fst w) ++
            [mkProgressData "error" ("Error: " ++ trim chunk) (now (clock (fst w)))])%list
      else progressMessages (fst w)
  | None => progressMessages (fst w)
  end.
Proof.
  unfold onStderrData.
  destruct onProgress; destruct (truthy (trim chunk)); reflexivity.
Qed.

(** The listeners of [close] emit nothing: the transcript stays as the
    data listeners left it. *)
Lemma onClose_transcript (dirname : string) (fs : Fs.FileSystem)
  (code : ExitCode) (j : Job) :
  progressMessages (onClose dirname fs code j) = progressMessages j.
Proof.
  unfold onClose.
  destruct (closeOutcome dirname fs code (stdout j) (stderr j) (progressMessages j));
    [|reflexivity].
  unfold settle. now destruct (promise j).
Qed.

(** C7.  What the handler of standard error leaves in the transcript.
    Without a sink nothing is pushed, whatever the chunk; with a sink a
    non-blank chunk pushes one event of step [error] whose message is the
    trimmed chunk after the marker.  The handler of standard output
    pushes with and without a sink: the same text sent to standard output
    of a job without a sink is in the transcript, sent to standard error
    it is not. *)
Theorem stderr_reaches_transcript_only_with_sink
  (now : nat -> Z) (Sink : Type) (f : ProgressData -> Sink -> Sink)
  (chunk : string) (w : World Sink) :
  progressMessages (fst (onStderrData now Sink None chunk w)) = progressMessages (fst w)
  /\
  progressMessages (fst (onStderrData now Sink (Some f) chunk w)) =
    (if truthy (trim chunk)
     then (progressMessages (fst w) ++
           [mkProgressData "error" ("Error: " ++ trim chunk) (now (clock (fst w)))])%list
     else progressMessages (fst w))
  /\
  progressMessages
    (fst (PythonService.run sampleClock sampleDirname scriptOnly (list ProgressData) None
            [StderrData ("ValueError: bad ticker" ++ nl)]
            (spawned sampleClock _ None [])))
  = []
  /\
  progressMessages
    (fst (PythonService.run sampleClock sampleDirname scriptOnly (list ProgressData) None
            [StdoutData ("ValueError: bad ticker" ++ nl)]
            (spawned sampleClock _ None [])))
  = [mkProgressData "system" "ValueError: bad ticker" (sampleClock 0)].
Proof.
  split; [|split; [|split]].
  - apply (onStderrData_transcript now Sink None).
  - apply (onStderrData_transcript now Sink (Some f)).
  - reflexivity.
  - vm_compute. reflexivity.
Qed.

(** ** Indices and substrings *)

Lemma indexOf_bound (needle s : string) (i : nat) :
  indexOf needle s = Some i -> i <= String.length s.
Proof.
  revert i. induction s as [|c r IH]; intros i H.
  - cbn [indexOf] in H. destruct (String.prefix needle EmptyString); [|discriminate].
    injection H as <-. apply Nat.le_0_l.
  - cbn [indexOf] in H.
    destruct (String.prefix needle (String c r)).
    + injection H as <-. apply Nat.le_0_l.
    + destruct (indexOf needle r) as [k|]; [|discriminate].
      injection H as <-. simpl. apply le_n_S. now apply IH.
Qed.

(** Within bounds and in order, [substring] starts at its first index. *)
Lemma substring_in_order (a b : nat) (s : string) :
  a <= b -> b <= String.length s ->
  Js.substring a b s = String.substring a (b - a) s.
Proof.
  intros Hab Hb. unfold Js.substring.
  rewrite (Nat.min_l a) by lia. rewrite (Nat.min_l b) by lia.
  rewrite Nat.min_l by lia. now rewrite Nat.max_r by lia.
Qed.

Lemma substring_step (n m : nat) (s : string) :
  n < String.length s ->
  exists c, String.substring n (S m) s = String c (String.substring (S n) m s).
Proof.
  revert s. induction n as [|n IH]; intros s H.
  - destruct s as [|c r]; simpl in H; [lia|].
    exists c. simpl. now destruct r.
  - destruct s as [|c r]; simpl in H; [lia|].
    destruct (IH r) as [d Hd]; [lia|].
    exists d. simpl. exact Hd.
Qed.

(** Moving the start of a span one to the right drops its first code
    unit. *)
Lemma substring_drop_first (a b : nat) (s : string) :
  a < b -> b <= String.length s ->
  exists c, Js.substring a b s = String c (Js.substring (S a) b s).
Proof.
  intros Hab Hb.
  rewrite (substring_in_order a b s) by lia.
  rewrite (substring_in_order (S a) b s) by lia.
  replace (b - a) with (S (b - S a)) by lia.
  apply substring_step. lia.
Qed.

(** ** The resolver: the span between the markers *)

Section Resolver.

Variable dirname : string.
Variable fs : Fs.FileSystem.


End Resolver.





(** The example of the specification: the payload on its own line between
    the markers resolves to the payload with the transcript attached, and
    no [parseError]. *)
Lemma example_output_resolves_to_payload :
  exists result,
    closeOutcome sampleDirname scriptOnly (Exit 0) exampleOutput EmptyString []
      = inl (Resolved result) /\
    JSON.get "recommendation" result = Some (JSON.Str "BUY") /\
    JSON.get "parseError" result = None.
Proof.
  eexists. split; [vm_compute; reflexivity|]. split; reflexivity.
Qed.

(** C3.  The resolver at an output whose payload follows the start marker
    without a separator.  The text strictly between the markers is a JSON
    object with recommendation [BUY]; the text handed to the parser lacks
    its opening brace, the parse fails, and the result is the heuristic
    one: an empty recommendation and a [parseError]. *)
Theorem payload_glued_to_start_marker_is_misparsed :
  indexOf JSON_OUTPUT_START gluedOutput = Some 0 /\
  indexOf JSON_OUTPUT_END gluedOutput = Some 47 /\
  Js.substring 23 47 gluedOutput = gluedPayload /\
  JSON.parse (trim gluedPayload)
    = inl (JSON.Object [("recommendation", JSON.Str "BUY")]) /\
  String "{" (jsonStr gluedOutput 0 47) = gluedPayload /\
  exists result,
    closeOutcome sampleDirname scriptOnly (Exit 0) gluedOutput EmptyString []
      = inl (Resolved result) /\
    JSON.get "recommendation" result = Some (JSON.Str EmptyString) /\
    JSON.get "parseError" result = Some (JSON.Str "Unexpected token : in JSON").
Proof.
  repeat (split; [vm_compute; reflexivity|]).
  eexists. split; [vm_compute; reflexivity|]. split; reflexivity.
Qed.

(** The [parseError] of that result is the message of the exception the
    parser throws on the text it was handed, whatever its wording. *)
Lemma glued_payload_parseError_is_the_parser_message :
  exists e result,
    JSON.parse (jsonStr gluedOutput 0 47) = inr e /\
    closeOutcome sampleDirname scriptOnly (Exit 0) gluedOutput EmptyString []
      = inl (Resolved result) /\
    JSON.get "parseError" result = Some (JSON.Str (JSON.messageOf e)).
Proof.
  eexists. eexists. split; [vm_compute; reflexivity|].
  split; [vm_compute; reflexivity | reflexivity].
Qed.

(** C8.  The directory the memo path is resolved against is not the
    working directory of the subprocess: it lies two levels above it.  A
    memo that the analysis wrote below its working directory is looked for
    elsewhere, and the result keeps the memo it had. *)
Theorem memo_is_resolved_outside_the_working_directory :
  launch withMemo sampleDirname "AAPL" "short" "moderate"
    = inl (mkSpawnOptions "python3"
             ["-u"; "/srv/app/analyst/main.py"; "AAPL"; "short"; "moderate"]
             "/srv/app/analyst") /\
  projectRoot sampleDirname = "/srv/app/analyst" /\
  memoRoot sampleDirname = "/srv" /\
  Fs.readFileSync withMemo (Path.join (projectRoot sampleDirname) "outputs/AAPL_memo.md")
    = Some "# AAPL memo" /\
  extractMemoPath sampleDirname memoOutput = Some "/srv/outputs/AAPL_memo.md" /\
  exists result,
    closeOutcome sampleDirname withMemo (Exit 0) memoOutput EmptyString []
      = inl (Resolved result) /\
    JSON.get "memo" result = Some (JSON.Str EmptyString).
Proof.
  repeat (split; [vm_compute; reflexivity|]).
  eexists. split; [vm_compute; reflexivity|]. reflexivity.
Qed.

(** ** The resolver: failed exits *)

Lemma nonBlankLines_truthy (err : string) (ls : list string) (l : string) :
  nonBlankLines err = (ls ++ [l])%list -> truthy err = true /\ truthy l = true.
Proof.
  intros H. split.
  - destruct err; [|reflexivity].
    apply (f_equal (@List.length string)) in H.
    rewrite length_app in H. simpl in H. lia.
  - assert (Hin : In l (nonBlankLines err)).
    { rewrite H. apply in_or_app. right. now left. }
    apply filter_In in Hin. destruct Hin as [_ Ht].
    destruct l; [discriminate Ht | reflexivity].
Qed.

Lemma closeOutcome_failed (dirname : string) (fs : Fs.FileSystem) (code : ExitCode)
  (out err : string) (tr : list ProgressData) :
  code <> Exit 0 ->
  closeOutcome dirname fs code out err tr =
  inl (Rejected (mkAnalysisError (PythonService.exitMessage code out err)
                   (Some code) (Some out) (Some err))).
Proof.
  intros H. unfold closeOutcome.
  destruct code as [n|]; [|reflexivity].
  destruct n; [now contradiction H | reflexivity | reflexivity].
Qed.

(** C4 (as amended).  A run whose exit code is not 0 is rejected with an
    error that carries the code and a message chosen as follows.  When
    standard error has non-blank lines: the last of them if it does not
    contain [Traceback], else all of them joined by ["; "].  When standard
    error is not empty but has blank lines only: the generic message.
    When standard error is empty: the last non-blank line of standard
    output that contains, in any case, [error], [exception] or [failed],
    else the generic message.  Exit code 1 with standard error
    [Traceback...\nValueError: bad ticker] gives
    [ValueError: bad ticker]. *)
Theorem failed_exit_message
  (dirname : string) (fs : Fs.FileSystem) (code : ExitCode)
  (out err : string) (tr : list ProgressData) :
  code <> Exit 0 ->
  let generic := "Python process exited with code " ++ showCode code in
  exists e,
    closeOutcome dirname fs code out err tr = inl (Rejected e) /\
    errCode e = Some code /\
    (forall ls l, nonBlankLines err = (ls ++ [l])%list ->
       includes "Traceback" l = false -> errMessage e = l) /\
    (forall ls l, nonBlankLines err = (ls ++ [l])%list ->
       includes "Traceback" l = true -> errMessage e = join "; " (ls ++ [l])%list) /\
    (truthy err = true -> nonBlankLines err = [] -> errMessage e = generic) /\
    (forall ls l, err = EmptyString ->
       filter isErrorLine (split_newline out) = (ls ++ [l])%list -> errMessage e = l) /\
    (err = EmptyString -> filter isErrorLine (split_newline out) = [] ->
       errMessage e = generic) /\
    PythonService.exitMessage (Exit 1) EmptyString
      ("Traceback..." ++ nl ++ "ValueError: bad ticker")
      = "ValueError: bad ticker".
Proof.
  intros Hc generic. eexists. split; [now apply closeOutcome_failed|].
  split; [reflexivity|]. cbn [errMessage]. unfold PythonService.exitMessage.
  repeat split.
  - intros ls l H Ht. destruct (nonBlankLines_truthy _ _ _ H) as [He Hl].
    now rewrite He, H, lastItem_snoc, Hl, Ht.
  - intros ls l H Ht. destruct (nonBlankLines_truthy _ _ _ H) as [He Hl].
    now rewrite He, H, lastItem_snoc, Hl, Ht.
  - intros He H. now rewrite He, H.
  - intros ls l -> H. cbn [truthy isEmpty negb].
    destruct (truthy out) eqn:Ho.
    + now rewrite H, lastItem_snoc.
    + destruct out; [destruct ls; discriminate H | discriminate Ho].
  - intros -> H. cbn [truthy isEmpty negb].
    destruct (truthy out); [now rewrite H | reflexivity].
Qed.

Lemma failed_exit_message_witness :
  Exit 1 <> Exit 0 /\
  exists e,
    closeOutcome sampleDirname scriptOnly (Exit 1) EmptyString
      ("Traceback..." ++ nl ++ "ValueError: bad ticker") [] = inl (Rejected e) /\
    errCode e = Some (Exit 1) /\
    errMessage e = "ValueError: bad ticker".
Proof.
  assert (Hc : Exit 1 <> Exit 0) by discriminate.
  split; [exact Hc|].
  destruct (failed_exit_message sampleDirname scriptOnly (Exit 1) EmptyString
              ("Traceback..." ++ nl ++ "ValueError: bad ticker") [] Hc)
    as [e [He [Hcode [Hlast _]]]].
  exists e. split; [exact He|]. split; [exact Hcode|].
  apply (Hlast ["Traceback..."]); reflexivity.
Defined.

(** C4, as stated, fails: with a standard error of blank lines only, a
    line of standard output that mentions an error is not used; the
    message is the generic one. *)
Lemma blank_stderr_hides_the_error_on_stdout :
  nonBlankLines nl = [] /\
  lastItem (filter isErrorLine (split_newline "Error: boom")) = Some "Error: boom" /\
  Claimed.exitMessage (Exit 1) "Error: boom" nl = "Error: boom" /\
  closeOutcome sampleDirname scriptOnly (Exit 1) "Error: boom" nl []
    = inl (Rejected (mkAnalysisError "Python process exited with code 1"
                       (Some (Exit 1)) (Some "Error: boom") (Some nl))).
Proof.
  repeat split; vm_compute; reflexivity.
Qed.

(** ** Properties of objects *)

Lemma lookup_assign_same (k : string) (v : JSON.value) (l : JSON.properties) :
  JSON.lookup k (JSON.assign k v l) = Some v.
Proof.
  induction l as [|[k' v'] l IH]; simpl.
  - now rewrite String.eqb_refl.
  - destruct (String.eqb k k') eqn:E; simpl; rewrite E; [reflexivity | exact IH].
Qed.

Lemma lookup_assign_other (k k' : string) (v : JSON.value) (l : JSON.properties) :
  k <> k' -> JSON.lookup k (JSON.assign k' v l) = JSON.lookup k l.
Proof.
  intros H. induction l as [|[k2 v2] l IH]; simpl.
  - destruct (String.eqb k k') eqn:E; [|reflexivity].
    apply String.eqb_eq in E. contradiction.
  - destruct (String.eqb k' k2) eqn:E; simpl.
    + apply String.eqb_eq in E. subst k2.
      destruct (String.eqb k k') eqn:E'; [|reflexivity].
      apply String.eqb_eq in E'. contradiction.
    + now rewrite IH.
Qed.

(** ** The resolver: successful exits *)

Section ResolverSuccess.

Variable dirname : string.
Variable fs : Fs.FileSystem.

Lemma tryStructured_text (out : string) (tr : list ProgressData) :
  tryStructured dirname fs out tr =
  match structuredText out with
  | Some text =>
      match JSON.parse text with
      | inl result => finish dirname fs out tr result
      | inr e => inr (JSON.messageOf e)
      end
  | None => finish dirname fs out tr (parseTextOutput out)
  end.
Proof.
  unfold tryStructured, structuredText.
  destruct (indexOf JSON_OUTPUT_START out), (indexOf JSON_OUTPUT_END out);
    try reflexivity;
    destruct (Regex.exec jsonObjectPattern out); reflexivity.
Qed.

(** Attaching the memo touches the [memo] property only. *)
Lemma attachMemo_object (out : string) (p : JSON.properties) :
  exists p',
    attachMemo dirname fs out (JSON.Object p) = JSON.Object p' /\
    forall k, k <> "memo" -> JSON.lookup k p' = JSON.lookup k p.
Proof.
  unfold attachMemo.
  destruct (extractMemoPath dirname out) as [memoPath|]; [|now exists p].
  destruct (truthy memoPath && Fs.existsSync fs memoPath); [|now exists p].
  destruct (Fs.readFileSync fs memoPath) as [content|]; [|now exists p].
  simpl. eexists. split; [reflexivity|].
  intros k Hk. now apply lookup_assign_other.
Qed.

Lemma attachMemo_array (out : string) (el : list JSON.value) (p : JSON.properties) :
  exists p',
    attachMemo dirname fs out (JSON.Array el p) = JSON.Array el p' /\
    forall k, k <> "memo" -> JSON.lookup k p' = JSON.lookup k p.
Proof.
  unfold attachMemo.
  destruct (extractMemoPath dirname out) as [memoPath|]; [|now exists p].
  destruct (truthy memoPath && Fs.existsSync fs memoPath); [|now exists p].
  destruct (Fs.readFileSync fs memoPath) as [content|]; [|now exists p].
  simpl. eexists. split; [reflexivity|].
  intros k Hk. now apply lookup_assign_other.
Qed.

(** On [null] and on primitives the assignment of the memo throws inside
    the inner [try], which leaves the value as it was. *)
Lemma attachMemo_primitive (out : string) (v : JSON.value) :
  (forall m, exists t, JSON.set "memo" (JSON.Str m) v = inr t) ->
  attachMemo dirname fs out v = v.
Proof.
  intros H. unfold attachMemo.
  destruct (extractMemoPath dirname out) as [memoPath|]; [|reflexivity].
  destruct (truthy memoPath && Fs.existsSync fs memoPath); [|reflexivity].
  destruct (Fs.readFileSync fs memoPath) as [content|]; [|reflexivity].
  destruct (H content) as [t ->]. reflexivity.
Qed.

(** A payload that is [null] or a primitive makes the assignment of the
    transcript throw. *)
Lemma finish_primitive (out : string) (tr : list ProgressData) (v : JSON.value) :
  match v with
  | JSON.Object _ | JSON.Array _ _ => True
  | _ => exists t, finish dirname fs out tr v = inr t
  end.
Proof.
  destruct v; try exact I; unfold finish;
    (rewrite attachMemo_primitive; [eexists; reflexivity | intros m; eexists; reflexivity]).
Qed.

Lemma finish_object (out : string) (tr : list ProgressData) (p : JSON.properties) :
  exists p',
    finish dirname fs out tr (JSON.Object p) = inl (JSON.Object p') /\
    JSON.lookup "progressMessages" p' = Some (encodeMessages tr) /\
    forall k, k <> "memo" -> k <> "progressMessages" ->
              JSON.lookup k p' = JSON.lookup k p.
Proof.
  unfold finish. destruct (attachMemo_object out p) as [q [-> Hq]].
  simpl. eexists. split; [reflexivity|]. split.
  - apply lookup_assign_same.
  - intros k H1 H2. rewrite lookup_assign_other by assumption. now apply Hq.
Qed.

Lemma finish_array (out : string) (tr : list ProgressData)
  (el : list JSON.value) (p : JSON.properties) :
  exists p',
    finish dirname fs out tr (JSON.Array el p) = inl (JSON.Array el p') /\
    forall k, k <> "memo" -> k <> "progressMessages" ->
              JSON.lookup k p' = JSON.lookup k p.
Proof.
  unfold finish. destruct (attachMemo_array out el p) as [q [-> Hq]].
  simpl. eexists. split; [reflexivity|].
  intros k H1 H2. rewrite lookup_assign_other by assumption. now apply Hq.
Qed.

(** The heuristic result is an object without [parseError]. *)
Lemma parseTextOutput_object (out : string) :
  exists p, parseTextOutput out = JSON.Object p /\ JSON.lookup "parseError" p = None.
Proof.
  eexists. split; reflexivity.
Qed.

(** The [catch] block cannot throw, and sets [parseError]. *)
Lemma fallback_total (out : string) (tr : list ProgressData) (m : string) :
  exists p,
    fallback dirname fs out tr m = inl (JSON.Object p) /\
    JSON.lookup "parseError" p = Some (JSON.Str m).
Proof.
  unfold fallback. destruct (parseTextOutput_object out) as [p0 [-> _]].
  destruct (finish_object out tr p0) as [p1 [-> _]].
  simpl. eexists. split; [reflexivity|]. apply lookup_assign_same.
Qed.

(** No exception leaves the [close] listener: it always settles. *)
Lemma closeOutcome_settles (code : ExitCode) (out err : string)
  (tr : list ProgressData) :
  exists s, closeOutcome dirname fs code out err tr = inl s.
Proof.
  unfold closeOutcome.
  destruct code as [n|]; [|eexists; reflexivity].
  destruct n; try (eexists; reflexivity).
  destruct (tryStructured dirname fs out tr) as [r|m]; [eexists; reflexivity|].
  destruct (fallback_total out tr m) as [p [-> _]]. eexists; reflexivity.
Qed.

End ResolverSuccess.

(** C5 (as amended).  A run that exits with code 0 always resolves.  When
    the structured parse (of the span between the markers, or else of the
    brace-to-brace span) throws, the result is the heuristic one with
    [parseError] set to the non-empty message of the failure.  On the
    purely heuristic path [parseError] is unset.  When the structured
    parse gives an object or an array, the result has the [parseError]
    property the payload carried, and none if it carried none.  (A payload
    that is [null] or a primitive also ends in the heuristic result.) *)
Theorem parseError_after_successful_exit
  (dirname : string) (fs : Fs.FileSystem) (out err : string)
  (tr : list ProgressData) :
  exists result,
    closeOutcome dirname fs (Exit 0) out err tr = inl (Resolved result) /\
    match structuredText out with
    | None => JSON.get "parseError" result = None
    | Some text =>
        match JSON.parse text with
        | inr e =>
            fallback dirname fs out tr (JSON.messageOf e) = inl result /\
            JSON.get "parseError" result = Some (JSON.Str (JSON.messageOf e)) /\
            JSON.messageOf e <> EmptyString
        | inl (JSON.Object p) | inl (JSON.Array _ p) =>
            JSON.get "parseError" result = JSON.lookup "parseError" p
        | inl _ => exists t, fallback dirname fs out tr t = inl result
        end
    end.
Proof.
  unfold closeOutcome. rewrite tryStructured_text.
  destruct (structuredText out) as [text|].
  - destruct (JSON.parse text) as [v|e].
    + pose proof (finish_primitive dirname fs out tr v) as Hv.
      destruct v as [| b | n | t | el p | p].
      1-4: destruct Hv as [m ->];
           destruct (fallback_total dirname fs out tr m) as [q [Hq _]];
           rewrite Hq; eexists; split; [reflexivity|]; now exists m.
      * destruct (finish_array dirname fs out tr el p) as [q [-> Hq]].
        eexists. split; [reflexivity|]. simpl.
        now rewrite Hq by discriminate.
      * destruct (finish_object dirname fs out tr p) as [q [-> [_ Hq]]].
        eexists. split; [reflexivity|]. simpl.
        now rewrite Hq by discriminate.
    + destruct (fallback_total dirname fs out tr (JSON.messageOf e)) as [q [Hq Hl]].
      rewrite Hq. eexists. split; [reflexivity|]. split; [reflexivity|].
      split; [exact Hl|]. destruct e; discriminate.
  - destruct (parseTextOutput_object out) as [p0 [-> H0]].
    destruct (finish_object dirname fs out tr p0) as [q [-> [_ Hq]]].
    eexists. split; [reflexivity|]. simpl.
    now rewrite Hq by discriminate.
Qed.

(** C5, as stated, fails: a well-formed payload that carries a
    [parseError] property of its own resolves with that property, though
    no parse has failed. *)
Lemma payload_can_carry_its_own_parseError :
  option_map JSON.parse (structuredText parseErrorOutput)
    = Some (inl (JSON.Object [("parseError", JSON.Str "none")])) /\
  exists result,
    closeOutcome sampleDirname scriptOnly (Exit 0) parseErrorOutput EmptyString []
      = inl (Resolved result) /\
    JSON.get "parseError" result = Some (JSON.Str "none").
Proof.
  split; [vm_compute; reflexivity|].
  eexists. split; [vm_compute; reflexivity|]. reflexivity.
Qed.

(** ** The heuristic extraction of scenarios *)

Lemma lookup_addScenario_other (text : string) (l : JSON.properties) (k name : string) :
  k <> name ->
  JSON.lookup k (addScenario text l name) = JSON.lookup k l.
Proof.
  intros H. unfold addScenario.
  destruct (Regex.exec (scenarioPattern name) text) as [c|]; [|reflexivity].
  destruct (Regex.getCap 1 c); [|reflexivity].
  destruct (Regex.getCap 2 c); [|reflexivity].
  now apply lookup_assign_other.
Qed.

Lemma lookup_addScenario_same (text : string) (l : JSON.properties) (name : string)
  (c : Regex.caps) (r p : string) :
  Regex.exec (scenarioPattern name) text = Some c ->
  Regex.getCap 1 c = Some r ->
  Regex.getCap 2 c = Some p ->
  JSON.lookup name (addScenario text l name) =
  Some (JSON.Object
          [("return", JSON.Number (divNum (parseFloat r) (100 # 1)));
           ("prob", JSON.Number (divNum (parseFloat p) (100 # 1)))]).
Proof.
  intros Hc Hr Hp. unfold addScenario. rewrite Hc, Hr, Hp.
  apply lookup_assign_same.
Qed.

(** C9 (as amended).  The heuristic extraction does not clamp the numbers
    of a scenario to a range, but it does rescale them: where the line of
    a scenario in bull, base and bear matches the pattern with the texts
    [r] and [p] before the two percent signs, the result gives that
    scenario the return [parseFloat(r) / 100] and the probability
    [parseFloat(p) / 100]. *)
Theorem scenario_numbers_are_percentages_over_100
  (out text name : string) (c0 c : Regex.caps) (r p : string) :
  Regex.exec scenariosPattern out = Some c0 ->
  Regex.getCap 1 c0 = Some text ->
  In name scenarioNames ->
  Regex.exec (scenarioPattern name) text = Some c ->
  Regex.getCap 1 c = Some r ->
  Regex.getCap 2 c = Some p ->
  JSON.get "scenarios" (parseTextOutput out) = Some (JSON.Object (extractScenarios out)) /\
  JSON.lookup name (extractScenarios out) =
    Some (JSON.Object
            [("return", JSON.Number (divNum (parseFloat r) (100 # 1)));
             ("prob", JSON.Number (divNum (parseFloat p) (100 # 1)))]).
Proof.
  intros H0 Ht Hin Hc Hr Hp. split; [reflexivity|].
  unfold extractScenarios. rewrite H0, Ht.
  unfold scenarioNames in *. cbn [fold_left].
  destruct Hin as [<- | [<- | [<- | []]]].
  - rewrite !lookup_addScenario_other by discriminate.
    now apply (lookup_addScenario_same text [] "bull" c r p).
  - rewrite lookup_addScenario_other by discriminate.
    now apply (lookup_addScenario_same text _ "base" c r p).
  - now apply (lookup_addScenario_same text _ "bear" c r p).
Qed.

Lemma scenario_numbers_are_percentages_over_100_witness :
  JSON.lookup "bull" (extractScenarios scenarioOutput) =
    Some (JSON.Object
            [("return", JSON.Number (divNum (parseFloat "+25.5") (100 # 1)));
             ("prob", JSON.Number (divNum (parseFloat "30") (100 # 1)))]).
Proof.
  refine (proj2 (scenario_numbers_are_percentages_over_100
                   scenarioOutput _ "bull" _ _ "+25.5" "30" _ _ _ _ _ _)).
  - vm_compute. reflexivity.
  - vm_compute. reflexivity.
  - now left.
  - vm_compute. reflexivity.
  - vm_compute. reflexivity.
  - vm_compute. reflexivity.
Defined.

(** C9, as stated, fails: the bull line [+25.5% ..., 30%] resolves to the
    return 0.255 and the probability 0.3, not to the numbers emitted. *)
Lemma scenario_percentages_are_divided_by_100 :
  exists result ret prob,
    closeOutcome sampleDirname scriptOnly (Exit 0) scenarioOutput EmptyString []
      = inl (Resolved result) /\
    option_map (JSON.get "bull") (JSON.get "scenarios" result) =
      Some (Some (JSON.Object [("return", JSON.Number (Num ret));
                               ("prob", JSON.Number (Num prob))])) /\
    (ret == 255 # 1000)%Q /\ ~ (ret == 255 # 10)%Q /\
    (prob == 30 # 100)%Q /\ ~ (prob == 30 # 1)%Q.
Proof.
  do 3 eexists. split; [vm_compute; reflexivity|].
  split; [vm_compute; reflexivity|].
  repeat split; try reflexivity; intros H; discriminate H.
Qed.

(** ** The streaming session *)

Import AnalysisRoute.

Lemma noTerminal_snoc (l : list Frame) (f : Frame) :
  noTerminal l -> isTerminal f = false -> noTerminal (l ++ [f])%list.
Proof.
  intros Hl Hf. apply Forall_app. split; [exact Hl|]. now constructor.
Qed.

Lemma noTerminal_count (l : list Frame) : noTerminal l -> terminalCount l = 0.
Proof.
  unfold terminalCount. induction 1 as [|f l Hf _ IH]; simpl; [reflexivity|].
  now rewrite Hf.
Qed.

Lemma noTerminal_no_split (l pre post : list Frame) (f : Frame) :
  noTerminal l -> l = (pre ++ f :: post)%list -> isTerminal f = true -> False.
Proof.
  intros Hl -> Hf. apply Forall_app in Hl. destruct Hl as [_ Hl].
  inversion Hl as [|? ? Hf' _]; subst. congruence.
Qed.

(** In a log that ends with its only terminal event, nothing follows a
    terminal event. *)
Lemma terminal_is_last (pre pre' post : list Frame) (f f' : Frame) :
  noTerminal pre -> (pre ++ [f] = pre' ++ f' :: post)%list ->
  isTerminal f' = true -> post = [].
Proof.
  intros Hpre E Hf'.
  destruct post as [|x post] using rev_ind; [reflexivity|].
  exfalso. clear IHpost.
  change (pre' ++ f' :: post ++ [x])%list with (pre' ++ (f' :: post) ++ [x])%list in E.
  rewrite app_assoc in E. apply app_inj_tail in E. destruct E as [E _].
  now apply (noTerminal_no_split pre pre' post f').
Qed.

Lemma sealed_count (s : Session) :
  sealed s -> terminalCount (written (res s)) = 1.
Proof.
  intros [_ [_ [pre [f [E [Hf Hpre]]]]]]. rewrite E. unfold terminalCount.
  rewrite filter_app, length_app. fold (terminalCount pre).
  rewrite (noTerminal_count pre Hpre). simpl. now rewrite Hf.
Qed.

(** *** The callbacks one by one *)

Lemma sendProgress_noTerminal (pd : ProgressData) (s : Session) :
  noTerminal (written (res s)) -> noTerminal (written (res (sendProgress pd s))).
Proof.
  intros H. unfold sendProgress.
  destruct (responseEnded s); [exact H|].
  destruct (unwritable (res s)).
  - destruct (connectionAlive s); exact H.
  - destruct (negb (connectionAlive s) && negb false); simpl;
      now apply noTerminal_snoc.
Qed.

Lemma sealed_unwritable (s : Session) : sealed s -> unwritable (res s) = true.
Proof.
  intros [H _]. unfold unwritable. rewrite H. now rewrite !orb_true_r.
Qed.

Lemma sendProgress_sealed (pd : ProgressData) (s : Session) :
  sealed s -> sealed (sendProgress pd s).
Proof.
  intros H. unfold sendProgress.
  destruct (responseEnded s); [exact H|].
  rewrite (sealed_unwritable s H).
  destruct (connectionAlive s); [|exact H].
  destruct H as [H1 [_ H3]]. now repeat split.
Qed.

Lemma keepAlive_noTerminal (t : Z) (s : Session) :
  noTerminal (written (res s)) -> noTerminal (written (res (keepAlive t s))).
Proof.
  intros H. unfold keepAlive.
  destruct (negb (connectionAlive s) || responseEnded s); [exact H|].
  destruct (unwritable (res s)); [exact H|].
  simpl. now apply noTerminal_snoc.
Qed.

(** Writing the terminal event seals the session. *)
Lemma react_seals (o : Settlement) (s : Session) :
  noTerminal (written (res s)) -> sealed (react o s).
Proof.
  intros H. destruct o as [result | error]; simpl;
    (split; [reflexivity|]; split; [reflexivity|]);
    eexists; eexists; (split; [reflexivity|]); now split.
Qed.

(** Closing and flagging keep a sealed session sealed and write nothing. *)
Lemma markClosed_sealed (s : Session) : sealed s -> sealed (markClosed s).
Proof. intros [H1 [_ H3]]. now repeat split. Qed.

Lemma withRes_flags_sealed (s : Session) (r : Response) :
  sealed s -> writableEnded r = writableEnded (res s) -> written r = written (res s) ->
  sealed (withRes r s).
Proof.
  intros [H1 [H2 H3]] Hw Hl. unfold sealed. simpl. rewrite Hw, Hl. now repeat split.
Qed.

Section Session.

Variable now : nat -> Z.
Variable dirname : string.
Variable fs : Fs.FileSystem.

Local Abbreviation handleS :=
  (handle now dirname fs Session (Some sendProgress)).
Local Abbreviation stepS := (step now dirname fs).
Local Abbreviation runS := (run now dirname fs).

(** What holds of the session before a listener of the process runs and
    is kept by the progress callback, holds after it. *)
Lemma processLines_session (P : Session -> Prop) (lines : list string) (w : System) :
  (forall pd s, P s -> P (sendProgress pd s)) ->
  P (snd w) ->
  P (snd (fold_left (processLine now Session (Some sendProgress)) lines w)).
Proof.
  intros HP. revert w. induction lines as [|l lines IH]; intros w Hw; simpl.
  - exact Hw.
  - apply IH. unfold processLine. simpl. now apply HP.
Qed.

Lemma handle_session (P : Session -> Prop) (pe : ProcessEvent) (w : System) :
  (forall pd s, P s -> P (sendProgress pd s)) ->
  P (snd w) -> P (snd (handleS pe w)).
Proof.
  intros HP Hw. destruct pe as [chunk | chunk | code | m |]; simpl; try exact Hw.
  - unfold onStdoutData. apply processLines_session; [exact HP|]. simpl.
    unfold primed. destruct (processStarted (fst w)); [exact Hw|].
    simpl. now apply HP.
  - unfold onStderrData. destruct (truthy (trim chunk)); simpl; [|exact Hw].
    now apply HP.
Qed.

(** The listeners never touch a settled promise. *)
Lemma processLines_promise (Sink : Type) (g : option (ProgressData -> Sink -> Sink))
  (lines : list string) (w : World Sink) :
  promise (fst (fold_left (processLine now Sink g) lines w)) = promise (fst w).
Proof.
  revert w. induction lines as [|l lines IH]; intros w; simpl; [reflexivity|].
  rewrite IH. unfold processLine. destruct g; reflexivity.
Qed.

Lemma data_keeps_promise (Sink : Type) (g : option (ProgressData -> Sink -> Sink))
  (chunk : string) (w : World Sink) :
  promise (fst (onStdoutData now Sink g chunk w)) = promise (fst w) /\
  promise (fst (onStderrData now Sink g chunk w)) = promise (fst w).
Proof.
  split.
  - unfold onStdoutData. rewrite processLines_promise. simpl.
    unfold primed, announce. destruct (processStarted (fst w)); [reflexivity|].
    destruct g; reflexivity.
  - unfold onStderrData. destruct (truthy (trim chunk)); [|reflexivity].
    destruct g; reflexivity.
Qed.

Lemma handle_settled (pe : ProcessEvent) (w : System) (o : Settlement) :
  promise (fst w) = Some o -> promise (fst (handleS pe w)) = Some o.
Proof.
  intros H. destruct pe as [chunk | chunk | code | m |]; simpl.
  - now rewrite (proj1 (data_keeps_promise _ _ chunk w)).
  - now rewrite (proj2 (data_keeps_promise _ _ chunk w)).
  - unfold onClose.
    destruct (closeOutcome dirname fs code (stdout (fst w)) (stderr (fst w))
                (progressMessages (fst w))); [|exact H].
    unfold settle. now rewrite H.
  - unfold onError, settle. now rewrite H.
  - unfold onTimeout. destruct (watchdog (fst w)); [|exact H].
    unfold settle. simpl. now rewrite H.
Qed.

Lemma step_consistent (e : Event) (w : System) :
  consistent w -> consistent (stepS e w).
Proof.
  unfold consistent. intros H.
  destruct e as [pe | t | | | | |]; simpl.
  - (* a listener of the process, then the reaction to the promise *)
    unfold afterSettling.
    destruct (promise (fst w)) as [o|] eqn:Ep.
    + rewrite (handle_settled pe w o Ep).
      apply (handle_session sealed); [apply sendProgress_sealed | exact H].
    + pose proof (handle_session (fun s => noTerminal (written (res s))) pe w
                    sendProgress_noTerminal H) as Hn.
      destruct (promise (fst (handleS pe w))) as [o|] eqn:Eq; simpl.
      * rewrite Eq. now apply react_seals.
      * rewrite Eq. exact Hn.
  - destruct (promise (fst w)).
    + destruct H as [H1 [H2 H3]]. rewrite H2. now repeat split.
    + destruct (keepAliveInterval (snd w)); [|exact H].
      now apply keepAlive_noTerminal.
  - destruct (promise (fst w)); unfold onReqClose;
      destruct (connectionAlive (snd w) && _); try exact H.
    now apply markClosed_sealed.
  - destruct (promise (fst w)); [|exact H].
    now apply withRes_flags_sealed.
  - destruct (promise (fst w)); unfold onResClose; simpl;
      destruct (connectionAlive (snd w)); try exact H.
    apply markClosed_sealed. now apply withRes_flags_sealed.
  - destruct (promise (fst w)); [|exact H]. now apply markClosed_sealed.
  - destruct (promise (fst w)); [|exact H]. now apply markClosed_sealed.
Qed.

Lemma run_consistent (events : list Event) (w : System) :
  consistent w -> consistent (runS events w).
Proof.
  revert w. induction events as [|e events IH]; intros w H; simpl.
  - exact H.
  - apply IH. now apply step_consistent.
Qed.

Lemma started_consistent (TICKER horizon riskProfile : string) (t0 : Z) :
  consistent (started now dirname fs TICKER horizon riskProfile t0).
Proof.
  unfold started.
  destruct (launch fs dirname TICKER horizon riskProfile) as [opts | error].
  - unfold consistent, spawned, announce. simpl. repeat constructor.
  - unfold consistent, afterSettling. simpl.
    apply (react_seals (Rejected error)). simpl. repeat constructor.
Qed.

(** In a consistent system the log has at most one terminal event, and it
    is the last frame. *)
Lemma consistent_log (w : System) :
  consistent w ->
  terminalCount (written (res (snd w))) <= 1 /\
  forall pre f post,
    written (res (snd w)) = (pre ++ f :: post)%list ->
    isTerminal f = true -> post = [].
Proof.
  unfold consistent. intros H. destruct (promise (fst w)).
  - split; [rewrite sealed_count by exact H; lia|].
    destruct H as [_ [_ [pre0 [f0 [E [_ Hpre]]]]]].
    intros pre f post E' Hf. rewrite E in E'.
    now apply (terminal_is_last pre0 pre post f0 f).
  - split; [rewrite noTerminal_count by exact H; lia|].
    intros pre f post E Hf. exfalso.
    now apply (noTerminal_no_split _ pre post f H E).
Qed.

End Session.

(** A stream whose set-up failed holds its [error] event and nothing
    else. *)
Lemma setupFailed_log (message : string) :
  exists f, written (setupFailed message) = [f] /\ isTerminal f = true.
Proof.
  eexists. split; reflexivity.
Qed.

(** ** The job under a closing transport *)

Section Abandon.

Variable now : nat -> Z.
Variable dirname : string.
Variable fs : Fs.FileSystem.

Local Abbreviation stepS := (step now dirname fs).
Local Abbreviation runS := (AnalysisRoute.run now dirname fs).

(** What a line does to the job does not depend on the sink. *)
Lemma processLine_job (Sink : Type) (g : option (ProgressData -> Sink -> Sink))
  (w : World Sink) (line : string) :
  fst (processLine now Sink g w line) =
  pushMessage (mkProgressData (stepOf line) (trim line) (now (clock (fst w))))
    (tick (fst w)).
Proof. unfold processLine. destruct g; reflexivity. Qed.

Lemma processLines_job (S1 S2 : Type)
  (g1 : option (ProgressData -> S1 -> S1)) (g2 : option (ProgressData -> S2 -> S2))
  (lines : list string) (w1 : World S1) (w2 : World S2) :
  fst w1 = fst w2 ->
  fst (fold_left (processLine now S1 g1) lines w1) =
  fst (fold_left (processLine now S2 g2) lines w2).
Proof.
  revert w1 w2. induction lines as [|l lines IH]; intros w1 w2 H; simpl.
  - exact H.
  - apply IH. now rewrite !processLine_job, H.
Qed.

(** Two sinks that are both present see the same job. *)
Lemma handle_job (S1 S2 : Type) (f1 : ProgressData -> S1 -> S1)
  (f2 : ProgressData -> S2 -> S2) (pe : ProcessEvent)
  (w1 : World S1) (w2 : World S2) :
  fst w1 = fst w2 ->
  fst (handle now dirname fs S1 (Some f1) pe w1) =
  fst (handle now dirname fs S2 (Some f2) pe w2).
Proof.
  intros H. destruct pe as [chunk | chunk | code | m |]; simpl.
  - unfold onStdoutData. apply processLines_job. simpl.
    unfold primed, announce. rewrite H.
    destruct (processStarted (fst w2)); simpl; now rewrite ?H.
  - unfold onStderrData. destruct (truthy (trim chunk)); simpl; now rewrite H.
  - now rewrite H.
  - now rewrite H.
  - now rewrite H.
Qed.

Lemma afterSettling_job (before : Job) (w : System) :
  fst (afterSettling before w) = fst w.
Proof.
  unfold afterSettling. destruct (promise before); [reflexivity|].
  destruct (promise (fst w)); reflexivity.
Qed.

(** The job of a session is the job that the events of the process alone
    produce: the transport has no say in it. *)
Lemma run_job (events : list Event) (w : System) (l : list ProgressData) :
  fst (runS events w) =
  fst (PythonService.run now dirname fs (list ProgressData) recorder
         (processEvents events) (fst w, l)).
Proof.
  revert w l. induction events as [|e events IH]; intros w l; [reflexivity|].
  destruct e as [pe | t | | | | |];
    try (exact (IH (stepS _ w) l)).
  cbn [AnalysisRoute.run processEvents flat_map fold_left app PythonService.run].
  set (w' := handle now dirname fs (list ProgressData) recorder pe (fst w, l)).
  change (fst (runS events (stepS (Process pe) w)) =
          fst (PythonService.run now dirname fs (list ProgressData) recorder
                 (processEvents events) w')).
  rewrite (IH (stepS (Process pe) w) (snd w')).
  replace (fst (stepS (Process pe) w), snd w') with w'; [reflexivity|].
  rewrite (surjective_pairing w') at 1. f_equal.
  simpl. rewrite afterSettling_job. unfold w', recorder. now apply handle_job.
Qed.

(** Only the watchdog calls [kill]. *)
Lemma processLines_killed (Sink : Type) (g : option (ProgressData -> Sink -> Sink))
  (lines : list string) (w : World Sink) :
  killed (fst (fold_left (processLine now Sink g) lines w)) = killed (fst w).
Proof.
  revert w. induction lines as [|l lines IH]; intros w; simpl; [reflexivity|].
  now rewrite IH, processLine_job.
Qed.

Lemma step_killed (e : Event) (w : System) :
  isTimeout e = false -> killed (fst (stepS e w)) = killed (fst w).
Proof.
  intros H. destruct e as [pe | t | | | | |]; try reflexivity.
  simpl. rewrite afterSettling_job.
  destruct pe as [chunk | chunk | code | m |]; simpl.
  - unfold onStdoutData. rewrite processLines_killed. simpl.
    unfold primed, announce. now destruct (processStarted (fst w)).
  - unfold onStderrData. now destruct (truthy (trim chunk)).
  - unfold onClose.
    destruct (closeOutcome dirname fs code (stdout (fst w)) (stderr (fst w))
                (progressMessages (fst w))); [|reflexivity].
    unfold settle. now destruct (promise (fst w)).
  - unfold onError, settle. now destruct (promise (fst w)).
  - discriminate H.
Qed.

Lemma run_killed (events : list Event) (w : System) :
  forallb (fun e => negb (isTimeout e)) events = true ->
  killed (fst (runS events w)) = killed (fst w).
Proof.
  revert w. induction events as [|e events IH]; intros w H; [reflexivity|].
  simpl in H. apply andb_prop in H. destruct H as [He Hr].
  simpl. rewrite (IH _ Hr). apply step_killed. now destruct (isTimeout e).
Qed.

Lemma sendProgress_deaf (l : list Frame) (pd : ProgressData) (s : Session) :
  deaf l s -> deaf l (sendProgress pd s).
Proof.
  intros [H1 H2]. unfold sendProgress.
  destruct (responseEnded s); [now split|]. rewrite H1.
  destruct (connectionAlive s); now split.
Qed.

Lemma react_deaf (l : list Frame) (o : Settlement) (s : Session) :
  deaf l s -> deaf l (react o s).
Proof.
  intros [H1 H2]. destruct o; unfold deaf; simpl; rewrite H1;
    (split; [unfold unwritable; simpl; now rewrite !orb_true_r | exact H2]).
Qed.

Lemma step_deaf (l : list Frame) (e : Event) (w : System) :
  deaf l (snd w) -> deaf l (snd (stepS e w)).
Proof.
  intros H. destruct e as [pe | t | | | | |]; simpl.
  - unfold afterSettling.
    pose proof (handle_session now dirname fs (deaf l) pe w (sendProgress_deaf l) H) as H'.
    destruct (promise (fst w)); [exact H'|].
    destruct (promise (fst (handle now dirname fs Session (Some sendProgress) pe w)));
      [|exact H'].
    simpl. now apply react_deaf.
  - destruct (keepAliveInterval (snd w)); [|exact H].
    destruct H as [H1 H2]. unfold keepAlive.
    destruct (negb (connectionAlive (snd w)) || responseEnded (snd w)); [now split|].
    rewrite H1. now split.
  - unfold onReqClose. destruct (connectionAlive (snd w) && _); [|exact H].
    destruct H. now split.
  - destruct H as [H1 H2]. split; [|exact H2].
    unfold unwritable. simpl. reflexivity.
  - destruct H as [H1 H2]. unfold onResClose. simpl.
    destruct (connectionAlive (snd w)); (split; [reflexivity | exact H2]).
  - destruct H. now split.
  - destruct H. now split.
Qed.

Lemma run_deaf (l : list Frame) (events : list Event) (w : System) :
  deaf l (snd w) -> deaf l (snd (runS events w)).
Proof.
  revert w. induction events as [|e events IH]; intros w H; [exact H|].
  simpl. apply IH. now apply step_deaf.
Qed.

End Abandon.

(** ** The frames the transport takes *)

Section Delivered.

Variable now : nat -> Z.
Variable dirname : string.
Variable fs : Fs.FileSystem.

Local Abbreviation stepS := (step now dirname fs).
Local Abbreviation runS := (AnalysisRoute.run now dirname fs).

Lemma write_sent_noTerminal (f : Frame) (r : Response) :
  isTerminal f = false -> noTerminal (sent r) -> noTerminal (sent (write f r)).
Proof.
  intros Hf H. unfold write. simpl.
  destruct (unwritable r); [exact H | now apply noTerminal_snoc].
Qed.

Lemma sendProgress_sent (pd : ProgressData) (s : Session) :
  noTerminal (sent (res s)) -> noTerminal (sent (res (sendProgress pd s))).
Proof.
  intros H. unfold sendProgress.
  destruct (responseEnded s); [exact H|].
  destruct (unwritable (res s)) eqn:E.
  - destruct (connectionAlive s); exact H.
  - destruct (negb (connectionAlive s) && negb false); simpl;
      rewrite E; now apply noTerminal_snoc.
Qed.

Lemma keepAlive_sent (t : Z) (s : Session) :
  noTerminal (sent (res s)) -> noTerminal (sent (res (keepAlive t s))).
Proof.
  intros H. unfold keepAlive.
  destruct (negb (connectionAlive s) || responseEnded s); [exact H|].
  destruct (unwritable (res s)) eqn:E; [exact H|].
  simpl. rewrite E. now apply noTerminal_snoc.
Qed.

Lemma react_sentShape (o : Settlement) (s : Session) :
  noTerminal (sent (res s)) -> sentShape (react o s).
Proof.
  intros H. destruct o as [result | error]; unfold sentShape; simpl;
    (split; [unfold unwritable; simpl; now rewrite !orb_true_r|]);
    (destruct (unwritable (res s)); [now left|]);
    right; eexists; eexists; (split; [reflexivity|]); now split.
Qed.

Lemma step_settled (e : Event) (w : System) (o : Settlement) :
  promise (fst w) = Some o -> promise (fst (stepS e w)) = Some o.
Proof.
  intros H. destruct e as [pe | t | | | | |]; try exact H.
  simpl. rewrite afterSettling_job. now apply handle_settled.
Qed.

Lemma step_consistentSent (e : Event) (w : System) :
  consistentSent w -> consistentSent (stepS e w).
Proof.
  unfold consistentSent. intros H.
  destruct (promise (fst w)) as [o|] eqn:Ep.
  - rewrite (step_settled e w o Ep). destruct H as [Hu Hs].
    destruct (step_deaf now dirname fs (sent (res (snd w))) e w (conj Hu eq_refl))
      as [Hu' Hs'].
    split; [exact Hu'|]. now rewrite Hs'.
  - destruct e as [pe | t | | | | |]; simpl; try (rewrite Ep; exact H).
    + unfold afterSettling. rewrite Ep.
      pose proof (handle_session now dirname fs
                    (fun s => noTerminal (sent (res s))) pe w sendProgress_sent H) as Hn.
      destruct (promise (fst (handle now dirname fs Session (Some sendProgress) pe w)))
        as [o|] eqn:Eq; simpl; rewrite Eq; [now apply react_sentShape | exact Hn].
    + rewrite Ep. destruct (keepAliveInterval (snd w)); [|exact H].
      now apply keepAlive_sent.
    + rewrite Ep. unfold onReqClose.
      destruct (connectionAlive (snd w) && _); exact H.
    + rewrite Ep. unfold onResClose. simpl.
      destruct (connectionAlive (snd w)); exact H.
Qed.

Lemma run_consistentSent (events : list Event) (w : System) :
  consistentSent w -> consistentSent (runS events w).
Proof.
  revert w. induction events as [|e events IH]; intros w H; simpl.
  - exact H.
  - apply IH. now apply step_consistentSent.
Qed.

Lemma started_consistentSent (TICKER horizon riskProfile : string) (t0 : Z) :
  consistentSent (started now dirname fs TICKER horizon riskProfile t0).
Proof.
  unfold started.
  destruct (launch fs dirname TICKER horizon riskProfile) as [opts | error].
  - unfold consistentSent, spawned, announce. simpl. repeat constructor.
  - unfold consistentSent, afterSettling. simpl.
    apply (react_sentShape (Rejected error)). simpl. repeat constructor.
Qed.

Lemma consistentSent_log (w : System) :
  consistentSent w ->
  terminalCount (sent (res (snd w))) <= 1 /\
  forall pre f post,
    sent (res (snd w)) = (pre ++ f :: post)%list ->
    isTerminal f = true -> post = [].
Proof.
  unfold consistentSent. intros H.
  assert (Hn : noTerminal (sent (res (snd w))) ->
               terminalCount (sent (res (snd w))) <= 1 /\
               forall pre f post,
                 sent (res (snd w)) = (pre ++ f :: post)%list ->
                 isTerminal f = true -> post = []).
  { intros Hno. split; [rewrite noTerminal_count by exact Hno; lia|].
    intros pre f post E Hf. exfalso.
    now apply (noTerminal_no_split _ pre post f Hno E). }
  destruct (promise (fst w)); [|now apply Hn].
  destruct H as [_ [Hno | [pre0 [f0 [E [Hf0 Hpre]]]]]]; [now apply Hn|].
  split.
  - rewrite E. unfold terminalCount. rewrite filter_app, length_app.
    fold (terminalCount pre0). rewrite (noTerminal_count pre0 Hpre).
    simpl. rewrite Hf0. simpl. lia.
  - intros pre f post E' Hf. rewrite E in E'.
    now apply (terminal_is_last pre0 pre post f0 f).
Qed.

End Delivered.

(** C1.  Whatever the process, the timers and the transport do after the
    route has opened the stream, the frames handed to the response hold at
    most one terminal event ([complete] or [error]), and no frame at all,
    so no [progress] and no keep-alive, follows a terminal event; the same
    holds of the frames the transport took. *)
Theorem one_terminal_event_and_nothing_after
  (now : nat -> Z) (dirname : string) (fs : Fs.FileSystem)
  (TICKER horizon riskProfile : string) (t0 : Z) (events : list Event) :
  let response :=
    res (snd (AnalysisRoute.run now dirname fs events
                (started now dirname fs TICKER horizon riskProfile t0))) in
  (terminalCount (written response) <= 1 /\
   forall pre f post,
     written response = (pre ++ f :: post)%list -> isTerminal f = true -> post = [])
  /\
  (terminalCount (sent response) <= 1 /\
   forall pre f post,
     sent response = (pre ++ f :: post)%list -> isTerminal f = true -> post = []).
Proof.
  split.
  - apply consistent_log, run_consistent, started_consistent.
  - apply consistentSent_log, run_consistentSent, started_consistentSent.
Qed.

(** C2.  Once the response of a session cannot be written to (the
    transport has closed), and whatever happens next: the job is the one
    that the events of the process alone produce, so no event of the
    transport reaches it; [kill] is called by the watchdog only; the
    transport takes no further frame, so the result is dropped; and the
    listener that settles the job never throws. *)
Theorem closed_transport_never_stops_the_job
  (now : nat -> Z) (dirname : string) (fs : Fs.FileSystem)
  (events : list Event) (w : System) :
  unwritable (res (snd w)) = true ->
  (forall e w0, match e with
                | Process _ => True
                | _ => fst (step now dirname fs e w0) = fst w0
                end) /\
  fst (AnalysisRoute.run now dirname fs events w) =
    fst (PythonService.run now dirname fs (list ProgressData) recorder
           (processEvents events) (fst w, [])) /\
  (forallb (fun e => negb (isTimeout e)) events = true ->
   killed (fst (AnalysisRoute.run now dirname fs events w)) = killed (fst w)) /\
  sent (res (snd (AnalysisRoute.run now dirname fs events w))) = sent (res (snd w)) /\
  (forall code out err tr, exists s, closeOutcome dirname fs code out err tr = inl s).
Proof.
  intros Hw. split; [|split; [|split; [|split]]].
  - intros e w0. destruct e; try exact I; reflexivity.
  - apply run_job.
  - apply run_killed.
  - apply (run_deaf now dirname fs (sent (res (snd w))) events w). now split.
  - intros code out err tr. apply closeOutcome_settles.
Qed.

Lemma closed_transport_never_stops_the_job_witness :
  unwritable (res (snd abandonedSession)) = true /\
  killed (fst (AnalysisRoute.run sampleClock sampleDirname scriptOnly lateEvents
                 abandonedSession)) = killed (fst abandonedSession) /\
  sent (res (snd (AnalysisRoute.run sampleClock sampleDirname scriptOnly lateEvents
                    abandonedSession))) = sent (res (snd abandonedSession)).
Proof.
  assert (Hw : unwritable (res (snd abandonedSession)) = true) by reflexivity.
  destruct (closed_transport_never_stops_the_job sampleClock sampleDirname scriptOnly
              lateEvents abandonedSession Hw) as [_ [_ [Hk [Hs _]]]].
  split; [exact Hw|]. split; [apply Hk; reflexivity | exact Hs].
Defined.

(** ** What holds of the span between the markers and of the memo *)

(** When the code unit after the start marker is white space, as the line
    feed of a marker printed on its own line is, the text handed to the
    parser is the trimmed text strictly between the markers. *)
Lemma separated_payload_is_parsed_whole (out : string) (i j : nat) (c : ascii) (r : string) :
  indexOf JSON_OUTPUT_END out = Some j ->
  i + 23 < j ->
  Js.substring (i + 23) j out = String c r ->
  isWhiteSpace c = true ->
  jsonStr out i j = trim (Js.substring (i + 23) j out).
Proof.
  intros Hj Hlt Hs Hc. pose proof (indexOf_bound _ _ _ Hj) as Hb.
  destruct (substring_drop_first (i + 23) j out Hlt Hb) as [c' Hd].
  unfold jsonStr. replace (i + 24) with (S (i + 23)) by lia.
  rewrite Hd in Hs. injection Hs as Hcc Hrr. subst c'.
  rewrite Hd. unfold trim. cbn [trimStart]. now rewrite Hc.
Qed.

(** A normalized path is never the empty string. *)
Lemma normalize_truthy (p : string) : truthy (Path.normalize p) = true.
Proof.
  unfold Path.normalize.
  destruct (String.concat "/" _) as [|x body]; simpl.
  - destruct (Path.isAbsolute p); [reflexivity|].
    destruct (Path.endsWithSlash p); reflexivity.
  - destruct (Path.endsWithSlash p); destruct (Path.isAbsolute p); reflexivity.
Qed.

Lemma join_truthy (a b : string) : truthy (Path.join a b) = true.
Proof.
  unfold Path.join.
  destruct (isEmpty a); destruct (isEmpty b);
    try apply normalize_truthy; reflexivity.
Qed.

(** The memo is read at the path made of [memoRoot] and the announced
    relative path; what is read replaces the memo of an object, and a
    failed read leaves the result as it was. *)
Lemma memo_comes_from_memoRoot (dirname : string) (fs : Fs.FileSystem)
  (out : string) (c : Regex.caps) (relativePath : string) (p : JSON.properties) :
  Regex.exec memoPattern out = Some c ->
  Regex.getCap 1 c = Some relativePath ->
  Fs.existsSync fs (Path.join (memoRoot dirname) relativePath) = true ->
  match Fs.readFileSync fs (Path.join (memoRoot dirname) relativePath) with
  | Some content =>
      JSON.get "memo" (attachMemo dirname fs out (JSON.Object p))
        = Some (JSON.Str content)
  | None => attachMemo dirname fs out (JSON.Object p) = JSON.Object p
  end.
Proof.
  intros Hc Hr He. unfold attachMemo, extractMemoPath.
  rewrite Hc, Hr, He, join_truthy.
  destruct (Fs.readFileSync fs (Path.join (memoRoot dirname) relativePath));
    [|reflexivity].
  simpl. apply lookup_assign_same.
Qed.

(* ================================================================== *)
(** * Further properties of the job *)
(* ================================================================== *)

(** ** What the listeners do to the job *)

Section JobFacts.

Variable now : nat -> Z.
Variable dirname : string.
Variable fs : Fs.FileSystem.
Variable Sink : Type.
Variable onProgress : option (ProgressData -> Sink -> Sink).

Local Abbreviation handleJ := (handle now dirname fs Sink onProgress).
Local Abbreviation runJ := (PythonService.run now dirname fs Sink onProgress).
Local Abbreviation lineJ := (processLine now Sink onProgress).

(** What the lines of a chunk do to the job, in closed form. *)
Lemma processLines_effect (lines : list string) (w : World Sink) :
  let j := fst (fold_left lineJ lines w) in
  stdout j = stdout (fst w) /\ stderr j = stderr (fst w) /\
  progressMessages j =
    (progressMessages (fst w) ++ lineEvents now (clock (fst w)) lines)%list /\
  clock j = clock (fst w) + List.length lines /\
  promise j = promise (fst w) /\ killed j = killed (fst w) /\
  watchdog j = watchdog (fst w) /\ processStarted j = processStarted (fst w).
Proof.
  revert w. induction lines as [|l lines IH]; intros w; simpl.
  - rewrite app_nil_r, Nat.add_0_r. repeat split.
  - destruct (IH (lineJ w l)) as [H1 [H2 [H3 [H4 [H5 [H6 [H7 H8]]]]]]].
    rewrite H1, H2, H3, H4, H5, H6, H7, H8.
    rewrite (processLine_job now Sink onProgress w l). simpl.
    rewrite <- app_assoc. simpl. rewrite Nat.add_succ_r. repeat split.
Qed.

Lemma primed_effect (w : World Sink) :
  let j := fst (primed now Sink onProgress w) in
  stdout j = stdout (fst w) /\ stderr j = stderr (fst w) /\
  progressMessages j = progressMessages (fst w) /\
  clock (fst w) <= clock j /\
  promise j = promise (fst w) /\ killed j = killed (fst w) /\
  watchdog j = watchdog (fst w).
Proof.
  unfold primed, announce. destruct (processStarted (fst w)); simpl.
  - repeat split. lia.
  - destruct onProgress; simpl; repeat split; lia.
Qed.

(** The listeners of the process other than the data listeners leave the
    buffers, the transcript and the clock alone. *)
Lemma settle_fields (o : Settlement) (j : Job) :
  stdout (settle o j) = stdout j /\ stderr (settle o j) = stderr j /\
  progressMessages (settle o j) = progressMessages j /\
  clock (settle o j) = clock j /\ killed (settle o j) = killed j /\
  watchdog (settle o j) = watchdog j.
Proof. unfold settle. destruct (promise j); repeat split. Qed.

Lemma onClose_fields (code : ExitCode) (j : Job) :
  let j' := onClose dirname fs code j in
  stdout j' = stdout j /\ stderr j' = stderr j /\
  progressMessages j' = progressMessages j /\ clock j' = clock j /\
  killed j' = killed j /\ watchdog j' = false.
Proof.
  unfold onClose.
  destruct (closeOutcome_settles dirname fs code (stdout j) (stderr j)
              (progressMessages j)) as [s ->].
  destruct (settle_fields s j) as [H1 [H2 [H3 [H4 [H5 H6]]]]]. simpl.
  now repeat split.
Qed.

Lemma onError_fields (m : string) (j : Job) :
  let j' := onError m j in
  stdout j' = stdout j /\ stderr j' = stderr j /\
  progressMessages j' = progressMessages j /\ clock j' = clock j /\
  killed j' = killed j /\ watchdog j' = watchdog j.
Proof. unfold onError. apply settle_fields. Qed.

Lemma onTimeout_fields (j : Job) :
  let j' := onTimeout j in
  stdout j' = stdout j /\ stderr j' = stderr j /\
  progressMessages j' = progressMessages j /\ clock j' = clock j.
Proof.
  unfold onTimeout. destruct (watchdog j); [|repeat split].
  destruct (settle_fields (Rejected timeoutError) (kill j)) as [H1 [H2 [H3 [H4 _]]]].
  simpl. unfold timeoutError in *. now repeat split.
Qed.

Lemma onStdoutData_effect (chunk : string) (w : World Sink) :
  let j := fst (onStdoutData now Sink onProgress chunk w) in
  let p := fst (primed now Sink onProgress w) in
  stdout j = stdout (fst w) ++ chunk /\ stderr j = stderr (fst w) /\
  progressMessages j =
    (progressMessages (fst w) ++ lineEvents now (clock p) (nonBlankLines chunk))%list /\
  clock j = clock p + List.length (nonBlankLines chunk) /\
  clock (fst w) <= clock p.
Proof.
  unfold onStdoutData.
  destruct (primed_effect w) as [P1 [P2 [P3 [P4 _]]]].
  match goal with |- context [fold_left ?f ?l ?w0] =>
    destruct (processLines_effect l w0) as [H1 [H2 [H3 [H4 _]]]] end.
  simpl in *. rewrite H1, H2, H3, H4, P1, P2, P3. now repeat split.
Qed.

Lemma onStderrData_effect (chunk : string) (w : World Sink) :
  let j := fst (onStderrData now Sink onProgress chunk w) in
  stdout j = stdout (fst w) /\ stderr j = stderr (fst w) ++ chunk.
Proof.
  unfold onStderrData. destruct (truthy (trim chunk)); [|now split].
  destruct onProgress; now split.
Qed.

(** Both buffers hold every chunk, in the order of arrival. *)
Lemma run_buffers (events : list ProcessEvent) (w : World Sink) :
  stdout (fst (runJ events w)) = stdout (fst w) ++ stdoutText events /\
  stderr (fst (runJ events w)) = stderr (fst w) ++ stderrText events.
Proof.
  revert w. induction events as [|e events IH]; intros w.
  - simpl. now rewrite !append_empty_r.
  - change (runJ (e :: events) w) with (runJ events (handleJ e w)).
    destruct (IH (handleJ e w)) as [H1 H2]. rewrite H1, H2.
    destruct e as [chunk | chunk | code | m |]; simpl.
    + destruct (onStdoutData_effect chunk w) as [E1 [E2 _]].
      rewrite E1, E2. now rewrite append_assoc.
    + destruct (onStderrData_effect chunk w) as [E1 E2].
      rewrite E1, E2. now rewrite append_assoc.
    + destruct (onClose_fields code (fst w)) as [E1 [E2 _]]. now rewrite E1, E2.
    + destruct (onError_fields m (fst w)) as [E1 [E2 _]]. now rewrite E1, E2.
    + destruct (onTimeout_fields (fst w)) as [E1 [E2 _]]. now rewrite E1, E2.
Qed.


(** *** The transcript *)

Lemma lineEvents_messages (k : nat) (chunk : string) :
  Forall (fun p => truthy (message p) = true) (lineEvents now k (nonBlankLines chunk)).
Proof.
  unfold nonBlankLines.
  generalize (split_newline chunk) as lines. intros lines. revert k.
  induction lines as [|l lines IH]; intros k; simpl; [constructor|].
  destruct (truthy (trim l)) eqn:E; simpl; [|apply IH].
  constructor; [exact E | apply IH].
Qed.

Lemma lineEvents_timestamps (k : nat) (lines : list string) :
  map timestamp (lineEvents now k lines) = map now (seq k (List.length lines)).
Proof.
  revert k. induction lines as [|l lines IH]; intros k; simpl; [reflexivity|].
  now rewrite IH.
Qed.

Lemma lineEvents_outline (k : nat) (lines : list string) :
  map outline (lineEvents now k lines) = map (fun l => (stepOf l, trim l)) lines.
Proof.
  revert k. induction lines as [|l lines IH]; intros k; simpl; [reflexivity|].
  now rewrite IH.
Qed.

Lemma handle_spoken (e : ProcessEvent) (w : World Sink) :
  spoken (fst w) -> spoken (fst (handleJ e w)).
Proof.
  unfold spoken. intros H. destruct e as [chunk | chunk | code | m |]; simpl.
  - destruct (onStdoutData_effect chunk w) as [_ [_ [E _]]]. rewrite E.
    apply Forall_app. split; [exact H | apply lineEvents_messages].
  - rewrite onStderrData_transcript. destruct onProgress; [|exact H].
    destruct (truthy (trim chunk)); [|exact H].
    apply Forall_app. split; [exact H|]. now constructor.
  - destruct (onClose_fields code (fst w)) as [_ [_ [E _]]]. now rewrite E.
  - destruct (onError_fields m (fst w)) as [_ [_ [E _]]]. now rewrite E.
  - destruct (onTimeout_fields (fst w)) as [_ [_ [E _]]]. now rewrite E.
Qed.

Lemma run_spoken (events : list ProcessEvent) (w : World Sink) :
  spoken (fst w) -> spoken (fst (runJ events w)).
Proof.
  revert w. induction events as [|e events IH]; intros w H; [exact H|].
  change (runJ (e :: events) w) with (runJ events (handleJ e w)).
  apply IH. now apply handle_spoken.
Qed.

(** *** Timestamps *)

Lemma ascending_app (b : Z) (l1 l2 : list Z) :
  ascending l1 -> Forall (fun x => (x <= b)%Z) l1 ->
  ascending l2 -> Forall (fun y => (b <= y)%Z) l2 ->
  ascending (l1 ++ l2).
Proof.
  intros A1 B1 A2 B2. induction l1 as [|x l1 IH]; [exact A2|].
  simpl in *. destruct A1 as [Hx A1]. inversion B1 as [|? ? Hxb B1']; subst.
  split; [|now apply IH].
  destruct l1 as [|y l1]; simpl.
  - destruct l2 as [|y l2]; [exact I|]. inversion B2; subst. lia.
  - exact Hx.
Qed.

Lemma ascending_readings (k n : nat) :
  monotone now -> ascending (map now (seq k n)).
Proof.
  intros M. revert k. induction n as [|n IH]; intros k; simpl; [exact I|].
  split; [|apply IH]. destruct n; simpl; [exact I|]. apply M. lia.
Qed.

Lemma readings_bounds (k n : nat) :
  monotone now ->
  Forall (fun y => (now k <= y)%Z) (map now (seq k n)) /\
  Forall (fun y => (y <= now (k + n))%Z) (map now (seq k n)).
Proof.
  intros M. split; apply Forall_forall; intros y Hy;
    apply in_map_iff in Hy; destruct Hy as [i [<- Hi]];
    apply in_seq in Hi; apply M; lia.
Qed.

Lemma Forall_le_trans (l : list Z) (a b : Z) :
  (a <= b)%Z -> Forall (fun t => (t <= a)%Z) l -> Forall (fun t => (t <= b)%Z) l.
Proof.
  intros Hab H. eapply Forall_impl; [|exact H]. simpl. intros; lia.
Qed.

Lemma handle_timed (e : ProcessEvent) (w : World Sink) :
  monotone now -> timed now (fst w) -> timed now (fst (handleJ e w)).
Proof.
  intros M [A B]. unfold timed.
  destruct e as [chunk | chunk | code | m |]; simpl.
  - destruct (onStdoutData_effect chunk w) as [_ [_ [E [C P]]]]. rewrite E, C.
    rewrite map_app, lineEvents_timestamps.
    set (k := clock (fst (primed now Sink onProgress w))) in *.
    set (n := List.length (nonBlankLines chunk)).
    destruct (readings_bounds k n M) as [Lo Hi].
    assert (B' : Forall (fun t => (t <= now k)%Z) (map timestamp (progressMessages (fst w)))).
    { apply (Forall_le_trans _ (now (clock (fst w)))); [now apply M | exact B]. }
    split.
    + apply (ascending_app (now k)); try assumption. now apply ascending_readings.
    + apply Forall_app. split; [|exact Hi].
      apply (Forall_le_trans _ (now k)); [apply M; lia | exact B'].
  - unfold onStderrData. destruct (truthy (trim chunk)); [|now split].
    destruct onProgress; [|now split]. simpl. rewrite map_app. simpl. split.
    + apply (ascending_app (now (clock (fst w)))); try assumption.
      * simpl. now split.
      * constructor; [lia | constructor].
    + apply Forall_app. split.
      * apply (Forall_le_trans _ (now (clock (fst w)))); [apply M; lia | exact B].
      * constructor; [apply M; lia | constructor].
  - destruct (onClose_fields code (fst w)) as [_ [_ [E [C _]]]]. now rewrite E, C.
  - destruct (onError_fields m (fst w)) as [_ [_ [E [C _]]]]. now rewrite E, C.
  - destruct (onTimeout_fields (fst w)) as [_ [_ [E C]]]. now rewrite E, C.
Qed.

Lemma run_timed (events : list ProcessEvent) (w : World Sink) :
  monotone now -> timed now (fst w) -> timed now (fst (runJ events w)).
Proof.
  intros M. revert w. induction events as [|e events IH]; intros w H; [exact H|].
  change (runJ (e :: events) w) with (runJ events (handleJ e w)).
  apply IH. now apply handle_timed.
Qed.

Lemma spawned_fresh (sink : Sink) :
  progressMessages (fst (spawned now Sink onProgress sink)) = [].
Proof. unfold spawned, announce. now destruct onProgress. Qed.

End JobFacts.

Section Settling.

Variable now : nat -> Z.
Variable dirname : string.
Variable fs : Fs.FileSystem.
Variable Sink : Type.
Variable onProgress : option (ProgressData -> Sink -> Sink).

Local Abbreviation handleJ := (handle now dirname fs Sink onProgress).
Local Abbreviation runJ := (PythonService.run now dirname fs Sink onProgress).

(** A settled promise, a call of [kill] and a disarmed watchdog stay. *)
Lemma handle_final (e : ProcessEvent) (w : World Sink) :
  (forall o, promise (fst w) = Some o -> promise (fst (handleJ e w)) = Some o) /\
  (killed (fst w) = true -> killed (fst (handleJ e w)) = true) /\
  (watchdog (fst w) = false ->
   watchdog (fst (handleJ e w)) = false /\ killed (fst (handleJ e w)) = killed (fst w)).
Proof.
  destruct e as [chunk | chunk | code | m |]; simpl.
  - destruct (data_keeps_promise now Sink onProgress chunk w) as [P _].
    unfold onStdoutData.
    match goal with |- context [fold_left ?f ?l ?w0] =>
      destruct (processLines_effect now Sink onProgress l w0)
        as [_ [_ [_ [_ [_ [K [W _]]]]]]] end.
    destruct (primed_effect now Sink onProgress w) as [_ [_ [_ [_ [_ [K' W']]]]]].
    simpl in *. unfold onStdoutData in P. rewrite P, K, W, K', W'.
    repeat split; auto.
  - destruct (data_keeps_promise now Sink onProgress chunk w) as [_ P]. rewrite P.
    unfold onStderrData. destruct (truthy (trim chunk)); [|repeat split; auto].
    destruct onProgress; repeat split; auto.
  - destruct (onClose_fields dirname fs code (fst w)) as [_ [_ [_ [_ [K W]]]]].
    rewrite K, W. repeat split; auto.
    intros o H. unfold onClose.
    destruct (closeOutcome dirname fs code _ _ _); [|exact H].
    unfold settle. now rewrite H.
  - destruct (onError_fields m (fst w)) as [_ [_ [_ [_ [K W]]]]].
    rewrite K, W. repeat split; auto.
    intros o H. unfold onError, settle. now rewrite H.
  - unfold onTimeout. destruct (watchdog (fst w)) eqn:E.
    + repeat split; try discriminate.
      * intros o H. unfold settle. simpl. now rewrite H.
      * intros _. unfold settle. simpl. now destruct (promise (fst w)).
    + repeat split; auto.
Qed.

Lemma run_final (events : list ProcessEvent) (w : World Sink) :
  (forall o, promise (fst w) = Some o -> promise (fst (runJ events w)) = Some o) /\
  (killed (fst w) = true -> killed (fst (runJ events w)) = true) /\
  (watchdog (fst w) = false -> killed (fst (runJ events w)) = killed (fst w)).
Proof.
  revert w. induction events as [|e events IH]; intros w; [repeat split; auto|].
  change (runJ (e :: events) w) with (runJ events (handleJ e w)).
  destruct (IH (handleJ e w)) as [I1 [I2 I3]].
  destruct (handle_final e w) as [H1 [H2 H3]].
  repeat split.
  - intros o H. apply I1. now apply H1.
  - intros H. apply I2. now apply H2.
  - intros H. destruct (H3 H) as [W K]. rewrite (I3 W). exact K.
Qed.

End Settling.

(** X1.  When the watchdog fires on a pending job, the process is killed and
    the job fails with the timeout error; nothing that happens later, the
    exit of the killed process included, changes that outcome. *)
Theorem watchdog_timeout_is_final
  (now : nat -> Z) (dirname : string) (fs : Fs.FileSystem) (Sink : Type)
  (onProgress : option (ProgressData -> Sink -> Sink))
  (later : list ProcessEvent) (w : World Sink) :
  promise (fst w) = None -> watchdog (fst w) = true ->
  let w' := PythonService.run now dirname fs Sink onProgress (Timeout :: later) w in
  killed (fst w') = true /\ promise (fst w') = Some (Rejected timeoutError).
Proof.
  intros Hp Hw w'. unfold w'.
  change (PythonService.run now dirname fs Sink onProgress (Timeout :: later) w)
    with (PythonService.run now dirname fs Sink onProgress later
            (onTimeout (fst w), snd w)).
  destruct (run_final now dirname fs Sink onProgress later (onTimeout (fst w), snd w))
    as [F1 [F2 _]].
  split.
  - apply F2. simpl. unfold onTimeout. rewrite Hw. unfold settle. simpl. now rewrite Hp.
  - apply F1. simpl. unfold onTimeout. rewrite Hw. unfold settle. simpl. now rewrite Hp.
Qed.

Lemma watchdog_timeout_is_final_witness :
  let w := PythonService.run sampleClock sampleDirname scriptOnly _ recorder
             [Timeout; StdoutData exampleOutput; Close Signalled]
             (spawned sampleClock _ recorder []) in
  killed (fst w) = true /\ promise (fst w) = Some (Rejected timeoutError).
Proof.
  apply (watchdog_timeout_is_final sampleClock sampleDirname scriptOnly _ recorder
           [StdoutData exampleOutput; Close Signalled]
           (spawned sampleClock _ recorder [])); reflexivity.
Defined.

(** X2.  Once the process has exited, the watchdog is disarmed for good: a
    process that was not killed before its exit is never killed after. *)
Theorem exited_process_is_never_killed
  (now : nat -> Z) (dirname : string) (fs : Fs.FileSystem) (Sink : Type)
  (onProgress : option (ProgressData -> Sink -> Sink))
  (code : ExitCode) (later : list ProcessEvent) (w : World Sink) :
  killed (fst (PythonService.run now dirname fs Sink onProgress (Close code :: later) w))
  = killed (fst w).
Proof.
  change (PythonService.run now dirname fs Sink onProgress (Close code :: later) w)
    with (PythonService.run now dirname fs Sink onProgress later
            (onClose dirname fs code (fst w), snd w)).
  destruct (run_final now dirname fs Sink onProgress later
              (onClose dirname fs code (fst w), snd w)) as [_ [_ F3]].
  destruct (onClose_fields dirname fs code (fst w)) as [_ [_ [_ [_ [K W]]]]].
  simpl in F3. rewrite (F3 W). exact K.
Qed.

(** ** Assignment and lookup *)

Lemma set_get (k : string) (v o r : JSON.value) :
  JSON.set k v o = inl r -> JSON.get k r = Some v.
Proof.
  destruct o; simpl; intros H; try discriminate H;
    injection H as <-; simpl; apply lookup_assign_same.
Qed.

Lemma set_get_other (k k' : string) (v o r : JSON.value) :
  JSON.set k v o = inl r -> k' <> k -> JSON.get k' r = JSON.get k' o.
Proof.
  destruct o; simpl; intros H Hk; try discriminate H;
    injection H as <-; simpl; now apply lookup_assign_other.
Qed.

(** Assignments fail on the same values, whatever the property. *)
Lemma set_fails_alike (k k' : string) (v v' o : JSON.value) (m : string) :
  JSON.set k v o = inr m -> exists m', JSON.set k' v' o = inr m'.
Proof.
  destruct o; simpl; intros H; try discriminate H; eexists; reflexivity.
Qed.

Section Results.

Variable dirname : string.
Variable fs : Fs.FileSystem.

(** Every way to a resolved result ends with the tail of the [try]
    block. *)
Lemma resolved_by_finish (code : ExitCode) (out err : string)
  (tr : list ProgressData) (result : JSON.value) :
  closeOutcome dirname fs code out err tr = inl (Resolved result) ->
  exists v,
    (finish dirname fs out tr v = inl result \/
     exists r m, finish dirname fs out tr v = inl r /\
                 JSON.set "parseError" (JSON.Str m) r = inl result).
Proof.
  unfold closeOutcome. destruct code as [n|]; [|discriminate].
  destruct n; try discriminate.
  rewrite tryStructured_text.
  destruct (structuredText out) as [text|].
  - destruct (JSON.parse text) as [v|e].
    + destruct (finish dirname fs out tr v) as [r|m] eqn:E.
      * intros H. injection H as <-. exists v. now left.
      * unfold fallback.
        destruct (finish dirname fs out tr (parseTextOutput out)) as [r|m'] eqn:E';
          [|discriminate].
        destruct (JSON.set "parseError" (JSON.Str m) r) as [r'|] eqn:E''; [|discriminate].
        intros H. injection H as <-. exists (parseTextOutput out). right.
        now exists r, m.
    + unfold fallback.
      destruct (finish dirname fs out tr (parseTextOutput out)) as [r|m'] eqn:E';
        [|discriminate].
      destruct (JSON.set "parseError" (JSON.Str (JSON.messageOf e)) r) as [r'|] eqn:E'';
        [|discriminate].
      intros H. injection H as <-. exists (parseTextOutput out). right.
      now exists r, (JSON.messageOf e).
  - destruct (finish dirname fs out tr (parseTextOutput out)) as [r|m] eqn:E.
    + intros H. injection H as <-. exists (parseTextOutput out). now left.
    + unfold fallback. rewrite E. discriminate.
Qed.

Lemma finish_memo (out : string) (tr : list ProgressData) (v r : JSON.value)
  (p content : string) :
  extractMemoPath dirname out = Some p ->
  Fs.existsSync fs p = true ->
  Fs.readFileSync fs p = Some content ->
  finish dirname fs out tr v = inl r ->
  JSON.get "memo" r = Some (JSON.Str content).
Proof.
  intros Hp He Hr. unfold finish, attachMemo. rewrite Hp, He, Hr.
  assert (Ht : truthy p = true).
  { unfold extractMemoPath in Hp.
    destruct (Regex.exec memoPattern out); [|discriminate].
    destruct (Regex.getCap 1 c); [|discriminate].
    injection Hp as <-. apply join_truthy. }
  rewrite Ht. simpl.
  destruct (JSON.set "memo" (JSON.Str content) v) as [r'|m] eqn:E.
  - intros H. rewrite (set_get_other _ "memo" _ _ _ H) by discriminate.
    now apply (set_get _ _ _ _ E).
  - intros H.
    destruct (set_fails_alike "memo" "progressMessages" _ (encodeMessages tr) _ _ E)
      as [m' E'].
    rewrite E' in H. discriminate H.
Qed.

End Results.

(** X3.  Every resolved result carries the whole transcript of the run
    under [progressMessages], whichever way it was obtained. *)
Theorem resolved_result_carries_transcript
  (dirname : string) (fs : Fs.FileSystem) (code : ExitCode) (out err : string)
  (tr : list ProgressData) (result : JSON.value) :
  closeOutcome dirname fs code out err tr = inl (Resolved result) ->
  JSON.get "progressMessages" result = Some (encodeMessages tr).
Proof.
  intros H. destruct (resolved_by_finish dirname fs code out err tr result H)
    as [v [F | [r [m [F S]]]]].
  - exact (set_get _ _ _ _ F).
  - rewrite (set_get_other _ "progressMessages" _ _ _ S) by discriminate.
    exact (set_get _ _ _ _ F).
Qed.

Lemma resolved_result_carries_transcript_witness :
  exists result,
    closeOutcome sampleDirname scriptOnly (Exit 0) exampleOutput EmptyString
      [mkProgressData "system" "ready" 1700000000000%Z] = inl (Resolved result) /\
    JSON.get "progressMessages" result =
      Some (encodeMessages [mkProgressData "system" "ready" 1700000000000%Z]).
Proof.
  eexists. split; [vm_compute; reflexivity|].
  apply (resolved_result_carries_transcript sampleDirname scriptOnly (Exit 0)
           exampleOutput EmptyString).
  vm_compute. reflexivity.
Defined.

(** X4.  When the output names a memo, and the file exists at the path
    made of [memoRoot] and is readable, every resolved result has the
    contents of the file as its memo, whatever memo the payload had. *)
Theorem readable_memo_replaces_the_memo
  (dirname : string) (fs : Fs.FileSystem) (code : ExitCode) (out err : string)
  (tr : list ProgressData) (result : JSON.value) (p content : string) :
  extractMemoPath dirname out = Some p ->
  Fs.existsSync fs p = true ->
  Fs.readFileSync fs p = Some content ->
  closeOutcome dirname fs code out err tr = inl (Resolved result) ->
  JSON.get "memo" result = Some (JSON.Str content).
Proof.
  intros Hp He Hr H.
  destruct (resolved_by_finish dirname fs code out err tr result H)
    as [v [F | [r [m [F S]]]]].
  - exact (finish_memo dirname fs out tr v result p content Hp He Hr F).
  - rewrite (set_get_other _ "memo" _ _ _ S) by discriminate.
    exact (finish_memo dirname fs out tr v r p content Hp He Hr F).
Qed.

Lemma readable_memo_replaces_the_memo_witness :
  exists result,
    closeOutcome sampleDirname memoAtRoot (Exit 0) memoOutput EmptyString []
      = inl (Resolved result) /\
    JSON.get "memo" result = Some (JSON.Str "# AAPL memo").
Proof.
  eexists. split; [vm_compute; reflexivity|].
  apply (readable_memo_replaces_the_memo sampleDirname memoAtRoot (Exit 0)
           memoOutput EmptyString [] _ "/srv/outputs/AAPL_memo.md");
    vm_compute; reflexivity.
Defined.

Lemma finish_plain (dirname : string) (fs : Fs.FileSystem) (out : string)
  (tr : list ProgressData) (v : JSON.value) :
  attachMemo dirname fs out v = v ->
  finish dirname fs out tr v = JSON.set "progressMessages" (encodeMessages tr) v.
Proof. intros H. unfold finish. now rewrite H. Qed.

Lemma attachMemo_noFiles (dirname out : string) (v : JSON.value) :
  attachMemo dirname noFiles out v = v.
Proof.
  unfold attachMemo. destruct (extractMemoPath dirname out); [|reflexivity].
  simpl. now rewrite andb_false_r.
Qed.

Lemma closeOutcome_plain (dirname : string) (fs : Fs.FileSystem) (code : ExitCode)
  (out err : string) (tr : list ProgressData) :
  (forall v, attachMemo dirname fs out v = v) ->
  closeOutcome dirname fs code out err tr = closeOutcome dirname noFiles code out err tr.
Proof.
  intros H. unfold closeOutcome. destruct code as [n|]; [|reflexivity].
  destruct n; try reflexivity.
  rewrite !tryStructured_text. unfold fallback.
  rewrite (finish_plain dirname fs out tr (parseTextOutput out)) by apply H.
  rewrite (finish_plain dirname noFiles out tr (parseTextOutput out))
    by apply attachMemo_noFiles.
  destruct (structuredText out) as [text|]; [|reflexivity].
  destruct (JSON.parse text) as [v|e]; [|reflexivity].
  rewrite (finish_plain dirname fs out tr v) by apply H.
  rewrite (finish_plain dirname noFiles out tr v) by apply attachMemo_noFiles.
  reflexivity.
Qed.

(** X5.  A memo file that is missing or cannot be read changes nothing:
    the job settles as it does where there is no file at all. *)
Theorem unreadable_memo_changes_nothing
  (dirname : string) (fs : Fs.FileSystem) (code : ExitCode) (out err : string)
  (tr : list ProgressData) (p : string) :
  extractMemoPath dirname out = Some p ->
  Fs.existsSync fs p = false \/ Fs.readFileSync fs p = None ->
  closeOutcome dirname fs code out err tr = closeOutcome dirname noFiles code out err tr.
Proof.
  intros Hp H. apply closeOutcome_plain. intros v.
  unfold attachMemo. rewrite Hp. destruct H as [H | H]; rewrite H.
  - now rewrite andb_false_r.
  - now destruct (truthy p && Fs.existsSync fs p).
Qed.

Lemma unreadable_memo_changes_nothing_witness :
  extractMemoPath sampleDirname memoOutput = Some "/srv/outputs/AAPL_memo.md" /\
  closeOutcome sampleDirname withMemo (Exit 0) memoOutput EmptyString []
  = closeOutcome sampleDirname noFiles (Exit 0) memoOutput EmptyString [].
Proof.
  assert (H : extractMemoPath sampleDirname memoOutput = Some "/srv/outputs/AAPL_memo.md")
    by (vm_compute; reflexivity).
  split; [exact H|].
  apply (unreadable_memo_changes_nothing sampleDirname withMemo (Exit 0) memoOutput
           EmptyString [] _ H).
  left. reflexivity.
Defined.


(** ** The transcript in closed form *)

Section Transcript.

Variable now : nat -> Z.
Variable dirname : string.
Variable fs : Fs.FileSystem.
Variable Sink : Type.
Variable onProgress : option (ProgressData -> Sink -> Sink).

Local Abbreviation handleJ := (handle now dirname fs Sink onProgress).
Local Abbreviation runJ := (PythonService.run now dirname fs Sink onProgress).

Lemma handle_outline (e : ProcessEvent) (w : World Sink) :
  map outline (progressMessages (fst (handleJ e w))) =
  (map outline (progressMessages (fst w)) ++ entries (hasSink Sink onProgress) e)%list.
Proof.
  destruct e as [chunk | chunk | code | m |]; simpl.
  - destruct (onStdoutData_effect now Sink onProgress chunk w) as [_ [_ [E _]]].
    rewrite E, map_app. now rewrite lineEvents_outline.
  - rewrite onStderrData_transcript. unfold hasSink.
    destruct onProgress; simpl; [|now rewrite app_nil_r].
    destruct (truthy (trim chunk)); [|now rewrite app_nil_r].
    now rewrite map_app.
  - destruct (onClose_fields dirname fs code (fst w)) as [_ [_ [E _]]].
    now rewrite E, app_nil_r.
  - destruct (onError_fields m (fst w)) as [_ [_ [E _]]]. now rewrite E, app_nil_r.
  - destruct (onTimeout_fields (fst w)) as [_ [_ [E _]]]. now rewrite E, app_nil_r.
Qed.

Lemma run_outline (events : list ProcessEvent) (w : World Sink) :
  map outline (progressMessages (fst (runJ events w))) =
  (map outline (progressMessages (fst w))
   ++ flat_map (entries (hasSink Sink onProgress)) events)%list.
Proof.
  revert w. induction events as [|e events IH]; intros w.
  - simpl. now rewrite app_nil_r.
  - change (runJ (e :: events) w) with (runJ events (handleJ e w)).
    rewrite IH, handle_outline. simpl. now rewrite <- app_assoc.
Qed.

End Transcript.

(** ** A run of chunks of standard output in closed form *)

Lemma lacks_split_newline (s : string) : lacks LF s = true -> split_newline s = [s].
Proof.
  induction s as [|c r IH]; [reflexivity|]. cbn [lacks]. intros H.
  apply andb_prop in H. destruct H as [Hc Hr].
  apply negb_true_iff in Hc. rewrite Ascii.eqb_sym in Hc.
  cbn [split_newline]. now rewrite Hc, (IH Hr).
Qed.

Lemma lacks_app (c : ascii) (a b : string) :
  lacks c (a ++ b) = lacks c a && lacks c b.
Proof.
  induction a as [|x a IH]; [reflexivity|]. simpl. now rewrite IH, andb_assoc.
Qed.

(** A non-blank piece without a line feed is one line; a line feed after
    it adds none. *)
Lemma nonBlankLines_piece (s : string) :
  lacks LF s = true -> truthy (trim s) = true -> nonBlankLines s = [s].
Proof.
  intros H Ht. unfold nonBlankLines. rewrite (lacks_split_newline s H).
  simpl. now rewrite Ht.
Qed.

Lemma nonBlankLines_line (s : string) :
  lacks LF s = true -> truthy (trim s) = true -> nonBlankLines (s ++ nl) = [s].
Proof.
  intros H Ht. unfold nl. rewrite nonBlankLines_break.
  now rewrite (nonBlankLines_piece s H Ht).
Qed.

(** What [trim] leaves is empty exactly for a string of white space. *)
Lemma trimEnd_blank (s : string) : isEmpty (trimEnd s) = blank s.
Proof.
  induction s as [|c r IH]; [reflexivity|]. simpl. rewrite IH.
  now destruct (isWhiteSpace c && blank r).
Qed.

Lemma trimStart_blank (s : string) : blank (trimStart s) = blank s.
Proof.
  induction s as [|c r IH]; [reflexivity|]. simpl.
  destruct (isWhiteSpace c) eqn:E; [exact IH|]. simpl. now rewrite E.
Qed.

Lemma trim_blank (s : string) : truthy (trim s) = negb (blank s).
Proof. unfold truthy, trim. now rewrite trimEnd_blank, trimStart_blank. Qed.

Lemma blank_app (a b : string) : blank (a ++ b) = blank a && blank b.
Proof.
  induction a as [|c a IH]; [reflexivity|]. simpl. now rewrite IH, andb_assoc.
Qed.

Lemma trim_append_truthy (a b : string) :
  truthy (trim a) = true -> truthy (trim (a ++ b)) = true.
Proof.
  rewrite !trim_blank, blank_app. intros H.
  apply negb_true_iff in H. now rewrite H.
Qed.

Section ClosedForm.

Variable now : nat -> Z.
Variable dirname : string.
Variable fs : Fs.FileSystem.
Variable Sink : Type.
Variable onProgress : option (ProgressData -> Sink -> Sink).

Local Abbreviation runJ := (PythonService.run now dirname fs Sink onProgress).
Local Abbreviation lineJ := (processLine now Sink onProgress).
Local Abbreviation deliverJ := (deliver Sink onProgress).

Lemma lineEvents_app (k : nat) (l1 l2 : list string) :
  lineEvents now k (l1 ++ l2) =
  (lineEvents now k l1 ++ lineEvents now (k + List.length l1) l2)%list.
Proof.
  revert k. induction l1 as [|l l1 IH]; intros k; simpl.
  - now rewrite Nat.add_0_r.
  - now rewrite IH, Nat.add_succ_r.
Qed.

Lemma deliver_app (l1 l2 : list ProgressData) (s : Sink) :
  deliverJ (l1 ++ l2)%list s = deliverJ l2 (deliverJ l1 s).
Proof. unfold deliver. destruct onProgress; [apply fold_left_app | reflexivity]. Qed.

(** The sink gets the event of each line, in order. *)
Lemma processLines_sink (lines : list string) (w : World Sink) :
  snd (fold_left lineJ lines w) =
  deliverJ (lineEvents now (clock (fst w)) lines) (snd w).
Proof.
  revert w. induction lines as [|l lines IH]; intros w.
  - unfold deliver. now destruct onProgress.
  - cbn [fold_left lineEvents]. rewrite IH.
    rewrite (processLine_job now Sink onProgress w l).
    unfold processLine, deliver. destruct onProgress; reflexivity.
Qed.

(** A chunk that is not the first one. *)
Lemma onStdoutData_started (chunk : string) (w : World Sink) :
  processStarted (fst w) = true ->
  let w' := onStdoutData now Sink onProgress chunk w in
  let events := lineEvents now (clock (fst w)) (nonBlankLines chunk) in
  progressMessages (fst w') = (progressMessages (fst w) ++ events)%list /\
  snd w' = deliverJ events (snd w) /\
  clock (fst w') = clock (fst w) + List.length (nonBlankLines chunk) /\
  processStarted (fst w') = true.
Proof.
  intros H w' events. unfold w', events, onStdoutData.
  assert (P : primed now Sink onProgress w = w).
  { unfold primed. now rewrite H. }
  rewrite P.
  match goal with |- context [fold_left ?f ?l ?w0] =>
    destruct (processLines_effect now Sink onProgress l w0)
      as [_ [_ [H3 [H4 [_ [_ [_ H8]]]]]]];
    pose proof (processLines_sink l w0) as H9 end.
  simpl in H3, H4, H8, H9. now rewrite H3, H4, H8, H9.
Qed.

Lemma run_stdout_started (chunks : list string) (w : World Sink) :
  processStarted (fst w) = true ->
  let w' := runJ (map StdoutData chunks) w in
  let events := lineEvents now (clock (fst w)) (flat_map nonBlankLines chunks) in
  progressMessages (fst w') = (progressMessages (fst w) ++ events)%list /\
  snd w' = deliverJ events (snd w).
Proof.
  revert w. induction chunks as [|c chunks IH]; intros w H.
  - simpl. rewrite app_nil_r. split; [reflexivity|].
    unfold deliver. now destruct onProgress.
  - change (runJ (map StdoutData (c :: chunks)) w)
      with (runJ (map StdoutData chunks) (onStdoutData now Sink onProgress c w)).
    destruct (onStdoutData_started c w H) as [E1 [E2 [E3 E4]]].
    destruct (IH _ E4) as [I1 I2].
    cbn zeta. cbn [flat_map]. rewrite lineEvents_app, deliver_app.
    rewrite I1, I2, E1, E2, E3. now rewrite app_assoc.
Qed.

(** The first chunk, which also makes the second announcement. *)
Lemma onStdoutData_first (chunk : string) (sink : Sink) :
  let w' := onStdoutData now Sink onProgress chunk (spawned now Sink onProgress sink) in
  let events := lineEvents now (firstReading Sink onProgress) (nonBlankLines chunk) in
  progressMessages (fst w') = events /\
  snd w' = deliverJ (startedEvent now :: runningEvent now :: events) sink /\
  clock (fst w') = firstReading Sink onProgress + List.length (nonBlankLines chunk) /\
  processStarted (fst w') = true.
Proof.
  intros w' events. unfold w', events, onStdoutData.
  match goal with |- context [fold_left ?f ?l ?w0] =>
    destruct (processLines_effect now Sink onProgress l w0)
      as [_ [_ [H3 [H4 [_ [_ [_ H8]]]]]]];
    pose proof (processLines_sink l w0) as H9 end.
  rewrite H3, H4, H8, H9.
  unfold spawned, primed, announce, firstReading, deliver.
  destruct onProgress; now repeat split.
Qed.

(** The transcript and the sink after a run of chunks of standard
    output. *)
Lemma run_stdout_closed (chunks : list string) (sink : Sink) :
  let w := runJ (map StdoutData chunks) (spawned now Sink onProgress sink) in
  let events :=
    lineEvents now (firstReading Sink onProgress) (flat_map nonBlankLines chunks) in
  progressMessages (fst w) = events /\
  snd w = deliverJ
            (startedEvent now ::
             match chunks with
             | [] => []
             | _ :: _ => runningEvent now :: events
             end) sink.
Proof.
  destruct chunks as [|c chunks].
  - simpl. unfold spawned, announce, deliver. now destruct onProgress.
  - change (runJ (map StdoutData (c :: chunks)) (spawned now Sink onProgress sink))
      with (runJ (map StdoutData chunks)
              (onStdoutData now Sink onProgress c (spawned now Sink onProgress sink))).
    destruct (onStdoutData_first c sink) as [E1 [E2 [E3 E4]]].
    destruct (run_stdout_started chunks _ E4) as [I1 I2].
    cbn zeta. cbn [flat_map]. rewrite lineEvents_app.
    rewrite I1, I2, E1, E2, E3. split; [reflexivity|].
    change (startedEvent now :: runningEvent now ::
            lineEvents now (firstReading Sink onProgress) (nonBlankLines c) ++
            lineEvents now
              (firstReading Sink onProgress + List.length (nonBlankLines c))
              (flat_map nonBlankLines chunks))%list
      with ((startedEvent now :: runningEvent now ::
             lineEvents now (firstReading Sink onProgress) (nonBlankLines c)) ++
            lineEvents now
              (firstReading Sink onProgress + List.length (nonBlankLines c))
              (flat_map nonBlankLines chunks))%list.
    now rewrite deliver_app.
Qed.

End ClosedForm.

(** C6 (as amended).  The handler of standard output splits every chunk
    at line feeds on its own; each piece that is not blank gives, at
    once and in order, one event with the step read off the piece, the
    trimmed piece as message and the reading of the clock at that moment;
    blank pieces give none; nothing is held over to the next chunk and
    nothing is flushed at exit.  So after a run of chunks the transcript
    holds exactly the events of the non-blank pieces of each chunk, and a
    sink has received the two announcements followed by the same events.
    Hence the job and the sink are those of the concatenated stream
    delivered as one chunk whenever every chunk but the last stops at a
    line break; the exit of the process adds no event; and a line cut by
    a chunk boundary into two pieces that are both non-blank gives two
    events, one per piece, where the same bytes in one chunk give one. *)
Theorem stdout_chunks_at_line_breaks_act_as_one
  (now : nat -> Z) (dirname : string) (fs : Fs.FileSystem) (Sink : Type)
  (onProgress : option (ProgressData -> Sink -> Sink))
  (chunks : list string) (sink : Sink) :
  let start := spawned now Sink onProgress sink in
  let run := PythonService.run now dirname fs Sink onProgress in
  let k := firstReading Sink onProgress in
  let events := lineEvents now k (flat_map nonBlankLines chunks) in
  progressMessages (fst (run (map StdoutData chunks) start)) = events
  /\
  snd (run (map StdoutData chunks) start) =
    deliver Sink onProgress
      (startedEvent now ::
       match chunks with
       | [] => []
       | _ :: _ => runningEvent now :: events
       end) sink
  /\
  (forall (aligned : list string) (last : string) (w : World Sink),
     Forall (fun c => endsAtLineBreak c = true) aligned ->
     run (map StdoutData (aligned ++ [last])%list) w
     = run [StdoutData (String.concat EmptyString aligned ++ last)] w)
  /\
  (forall code w,
     progressMessages (fst (handle now dirname fs Sink onProgress (Close code) w))
     = progressMessages (fst w))
  /\
  (forall a b : string,
     lacks LF a = true -> lacks LF b = true ->
     truthy (trim a) = true -> truthy (trim b) = true ->
     progressMessages (fst (run [StdoutData a; StdoutData (b ++ nl)] start))
     = [mkProgressData (stepOf a) (trim a) (now k);
        mkProgressData (stepOf b) (trim b) (now (S k))]
     /\
     progressMessages (fst (run [StdoutData (a ++ b ++ nl)] start))
     = [mkProgressData (stepOf (a ++ b)) (trim (a ++ b)) (now k)]).
Proof.
  intros start run k events.
  destruct (run_stdout_closed now dirname fs Sink onProgress chunks sink) as [H1 H2].
  split; [exact H1|]. split; [exact H2|]. split; [|split].
  - intros aligned last w H. unfold run. now rewrite run_stdout_aligned.
  - intros code w. apply onClose_transcript.
  - intros a b Ha Hb Hta Htb. split.
    + destruct (run_stdout_closed now dirname fs Sink onProgress [a; b ++ nl] sink)
        as [E _].
      unfold run, start. change (map StdoutData [a; b ++ nl])
        with [StdoutData a; StdoutData (b ++ nl)] in E. rewrite E.
      cbn [flat_map]. rewrite (nonBlankLines_piece a Ha Hta).
      rewrite (nonBlankLines_line b Hb Htb). reflexivity.
    + destruct (run_stdout_closed now dirname fs Sink onProgress [a ++ b ++ nl] sink)
        as [E _].
      unfold run, start. change (map StdoutData [a ++ b ++ nl])
        with [StdoutData (a ++ b ++ nl)] in E. rewrite E.
      cbn [flat_map]. rewrite app_nil_r.
      replace (a ++ b ++ nl) with ((a ++ b) ++ nl) by apply append_assoc.
      rewrite nonBlankLines_line; [reflexivity | |].
      * now rewrite lacks_app, Ha, Hb.
      * now apply trim_append_truthy.
Qed.

Lemma stdout_chunks_at_line_breaks_act_as_one_witness :
  Forall (fun c => endsAtLineBreak c = true) alignedChunks /\
  PythonService.run sampleClock sampleDirname scriptOnly _ recorder
    (map StdoutData (alignedChunks ++ ["[Risk"])%list)
    (spawned sampleClock _ recorder [])
  = PythonService.run sampleClock sampleDirname scriptOnly _ recorder
      [StdoutData (String.concat EmptyString alignedChunks ++ "[Risk")]
      (spawned sampleClock _ recorder [])
  /\
  progressMessages
    (fst (PythonService.run sampleClock sampleDirname scriptOnly _ recorder
            [StdoutData "[Market Data Agent] fetch"; StdoutData ("ing prices" ++ nl)]
            (spawned sampleClock _ recorder [])))
  = [mkProgressData (stepOf "[Market Data Agent] fetch")
       (trim "[Market Data Agent] fetch") (sampleClock 2);
     mkProgressData (stepOf "ing prices") (trim "ing prices") (sampleClock 3)].
Proof.
  assert (H : Forall (fun c => endsAtLineBreak c = true) alignedChunks).
  { repeat constructor. }
  split; [exact H|].
  destruct (stdout_chunks_at_line_breaks_act_as_one sampleClock sampleDirname
              scriptOnly _ recorder [] []) as [_ [_ [A [_ C]]]].
  split.
  - exact (A alignedChunks "[Risk" _ H).
  - exact (proj1 (C "[Market Data Agent] fetch" "ing prices"
                    eq_refl eq_refl eq_refl eq_refl)).
Defined.

(** C6, as stated, fails: a line cut by a chunk boundary is emitted as two
    events, one per piece, while the same bytes in one chunk give one. *)
Lemma line_cut_by_chunk_boundary_is_emitted_in_pieces :
  map message
    (progressMessages
       (fst (PythonService.run sampleClock sampleDirname scriptOnly _ recorder
               [StdoutData "[Market Data Agent] fetch"; StdoutData ("ing prices" ++ nl)]
               (spawned sampleClock _ recorder []))))
  = ["[Market Data Agent] fetch"; "ing prices"]
  /\
  map message
    (progressMessages
       (fst (PythonService.run sampleClock sampleDirname scriptOnly _ recorder
               [StdoutData ("[Market Data Agent] fetch" ++ "ing prices" ++ nl)]
               (spawned sampleClock _ recorder []))))
  = ["[Market Data Agent] fetching prices"].
Proof.
  split; vm_compute; reflexivity.
Qed.

(** ** The messages of rejections *)

Lemma append_truthy_l (a b : string) : truthy a = true -> truthy (a ++ b) = true.
Proof. destruct a; [discriminate | reflexivity]. Qed.

Lemma join_lines_truthy (sep : string) (ls : list string) (l : string) :
  truthy l = true -> truthy (Js.join sep (ls ++ [l])%list) = true.
Proof.
  intros H. unfold Js.join. induction ls as [|x ls IH]; simpl; [exact H|].
  destruct (ls ++ [l])%list eqn:E; [now destruct ls|].
  destruct x; [|reflexivity]. simpl. destruct sep; [exact IH | reflexivity].
Qed.

Lemma lastItem_split {A : Type} (l : list A) (x : A) :
  lastItem l = Some x -> exists pre, l = (pre ++ [x])%list.
Proof.
  induction l as [|y l IH]; [discriminate|]. simpl.
  destruct l as [|z l].
  - intros H. injection H as ->. now exists [].
  - intros H. destruct (IH H) as [pre E]. exists (y :: pre). simpl. now rewrite E.
Qed.

Lemma lastItem_filter {A : Type} (f : A -> bool) (l : list A) (x : A) :
  lastItem (filter f l) = Some x -> f x = true.
Proof.
  intros H. destruct (lastItem_split _ _ H) as [pre E].
  assert (I : In x (filter f l)) by (rewrite E; apply in_or_app; right; now left).
  now apply filter_In in I.
Qed.

Lemma trim_truthy (l : string) : truthy (trim l) = true -> truthy l = true.
Proof. destruct l; [discriminate | reflexivity]. Qed.

(** The message of a failed exit is never empty. *)
Lemma exitMessage_truthy (code : ExitCode) (out err : string) :
  truthy (exitMessage code out err) = true.
Proof.
  unfold exitMessage. destruct (truthy err).
  - destruct (lastItem (nonBlankLines err)) as [l|] eqn:E; [|reflexivity].
    assert (Hl : truthy l = true).
    { apply trim_truthy. unfold nonBlankLines in E.
      exact (lastItem_filter _ _ _ E). }
    rewrite Hl. simpl. destruct (negb (includes "Traceback" l)); [exact Hl|].
    destruct (lastItem_split _ _ E) as [pre ->]. now apply join_lines_truthy.
  - destruct (truthy out); [|reflexivity].
    destruct (lastItem (filter isErrorLine (split_newline out))) as [l|] eqn:E;
      [|reflexivity].
    apply lastItem_filter in E. unfold isErrorLine in E.
    apply andb_prop in E. destruct E as [E _]. now apply trim_truthy.
Qed.

Lemma closeOutcome_zero (dirname : string) (fs : Fs.FileSystem) (out err : string)
  (tr : list ProgressData) :
  exists result, closeOutcome dirname fs (Exit 0) out err tr = inl (Resolved result).
Proof.
  destruct (closeOutcome_settles dirname fs (Exit 0) out err tr) as [s E].
  unfold closeOutcome in *.
  destruct (tryStructured dirname fs out tr) as [r|m]; [now exists r|].
  destruct (fallback dirname fs out tr m) as [r|m']; [now exists r | discriminate E].
Qed.

Lemma closeOutcome_rejected (dirname : string) (fs : Fs.FileSystem) (code : ExitCode)
  (out err : string) (tr : list ProgressData) :
  code <> Exit 0 ->
  closeOutcome dirname fs code out err tr =
  inl (Rejected (mkAnalysisError (exitMessage code out err)
                   (Some code) (Some out) (Some err))).
Proof.
  intros H. unfold closeOutcome. destruct code as [n|]; [|reflexivity].
  destruct n; [now contradict H | reflexivity | reflexivity].
Qed.

Lemma exit_zero_dec (code : ExitCode) : {code = Exit 0} + {code <> Exit 0}.
Proof.
  destruct code as [n|]; [|right; discriminate].
  destruct (Z.eq_dec n 0) as [-> | H]; [now left | right; congruence].
Qed.

Section Rejections.

Variable now : nat -> Z.
Variable dirname : string.
Variable fs : Fs.FileSystem.
Variable Sink : Type.
Variable onProgress : option (ProgressData -> Sink -> Sink).

Local Abbreviation handleJ := (handle now dirname fs Sink onProgress).
Local Abbreviation runJ := (PythonService.run now dirname fs Sink onProgress).

Lemma settle_outspoken (o : Settlement) (j : Job) :
  outspoken (Some o) -> outspoken (promise j) -> outspoken (promise (settle o j)).
Proof. intros Ho Hj. unfold settle. destruct (promise j) eqn:E; [now rewrite E | exact Ho]. Qed.

Lemma handle_outspoken (e : ProcessEvent) (w : World Sink) :
  outspoken (promise (fst w)) -> outspoken (promise (fst (handleJ e w))).
Proof.
  intros H. destruct e as [chunk | chunk | code | m |]; simpl.
  - now rewrite (proj1 (data_keeps_promise now Sink onProgress chunk w)).
  - now rewrite (proj2 (data_keeps_promise now Sink onProgress chunk w)).
  - unfold onClose.
    destruct (exit_zero_dec code) as [-> | Hc].
    + destruct (closeOutcome_zero dirname fs (stdout (fst w)) (stderr (fst w))
                  (progressMessages (fst w))) as [r ->].
      now apply settle_outspoken.
    + rewrite closeOutcome_rejected by exact Hc.
      apply settle_outspoken; [apply exitMessage_truthy | exact H].
  - unfold onError. now apply settle_outspoken.
  - unfold onTimeout. destruct (watchdog (fst w)); [|exact H].
    now apply (settle_outspoken _ (kill (fst w))).
Qed.

Lemma run_outspoken (events : list ProcessEvent) (w : World Sink) :
  outspoken (promise (fst w)) -> outspoken (promise (fst (runJ events w))).
Proof.
  revert w. induction events as [|e events IH]; intros w H; [exact H|].
  change (runJ (e :: events) w) with (runJ events (handleJ e w)).
  apply IH. now apply handle_outspoken.
Qed.

Lemma spawned_promise (sink : Sink) :
  promise (fst (spawned now Sink onProgress sink)) = None.
Proof. unfold spawned, announce. now destruct onProgress. Qed.

End Rejections.

Lemma launch_outspoken (fs : Fs.FileSystem) (dirname t h r : string) (error : AnalysisError) :
  launch fs dirname t h r = inr error -> truthy (errMessage error) = true.
Proof.
  unfold launch. destruct (negb (Fs.existsSync fs (pythonScript dirname)));
    [|discriminate]. intros H. now injection H as <-.
Qed.

(** ** The job with and without a sink *)

Lemma sameProps_refl (k : string) (p : JSON.properties) : sameProps k p p.
Proof. induction p as [|a p IH]; constructor; [now split | exact IH]. Qed.

Lemma sameBut_refl (k : string) (v : JSON.value) : sameBut k v v.
Proof.
  destruct v; simpl; try reflexivity;
    [split; [reflexivity|] |]; apply sameProps_refl.
Qed.

(** Two assignments to the same property give properties that differ by
    its value at most. *)
Lemma assign_sameProps (k : string) (v1 v2 : JSON.value) (p : JSON.properties) :
  sameProps k (JSON.assign k v1 p) (JSON.assign k v2 p).
Proof.
  induction p as [|[k' v'] p IH]; simpl.
  - constructor; [|constructor]. simpl. split; [reflexivity|]. now intros H.
  - destruct (String.eqb k k') eqn:E.
    + apply String.eqb_eq in E. subst k'.
      constructor; [|apply sameProps_refl]. simpl. split; [reflexivity|]. now intros H.
    + constructor; [now split | exact IH].
Qed.

(** The same assignment on both sides keeps them so. *)
Lemma assign_keeps_sameProps (k k' : string) (v : JSON.value) (p1 p2 : JSON.properties) :
  sameProps k p1 p2 -> sameProps k (JSON.assign k' v p1) (JSON.assign k' v p2).
Proof.
  induction 1 as [|[k1 v1] [k2 v2] p1 p2 [Hk Hv] Ht IH]; simpl.
  - constructor; [now split | constructor].
  - simpl in Hk, Hv. subst k2. destruct (String.eqb k' k1).
    + constructor; [now split | exact Ht].
    + constructor; [now split | exact IH].
Qed.

Lemma set_sameBut (k : string) (v1 v2 o r1 r2 : JSON.value) :
  JSON.set k v1 o = inl r1 -> JSON.set k v2 o = inl r2 -> sameBut k r1 r2.
Proof.
  destruct o; simpl; intros H1 H2; try discriminate H1;
    injection H1 as <-; injection H2 as <-; simpl;
    [split; [reflexivity|] |]; apply assign_sameProps.
Qed.

Lemma set_keeps_sameBut (k k' : string) (v o1 o2 r1 r2 : JSON.value) :
  sameBut k o1 o2 ->
  JSON.set k' v o1 = inl r1 -> JSON.set k' v o2 = inl r2 -> sameBut k r1 r2.
Proof.
  destruct o1, o2; simpl; intros H H1 H2;
    try discriminate H1; try discriminate H2; try discriminate H;
    try contradiction;
    injection H1 as <-; injection H2 as <-; simpl.
  - destruct H as [-> H]. split; [reflexivity|]. now apply assign_keeps_sameProps.
  - now apply assign_keeps_sameProps.
Qed.

(** Values that differ by the value of [k] at most have the same value
    under every other key. *)
Lemma sameProps_lookup (k k' : string) (p1 p2 : JSON.properties) :
  sameProps k p1 p2 -> k' <> k -> JSON.lookup k' p1 = JSON.lookup k' p2.
Proof.
  intros H Hk. induction H as [|[k1 v1] [k2 v2] p1 p2 [Hk1 Hv] _ IH]; [reflexivity|].
  simpl in Hk1, Hv. subst k2. simpl.
  destruct (String.eqb k' k1) eqn:E; [|exact IH].
  apply String.eqb_eq in E. subst k1. now rewrite Hv.
Qed.

Lemma sameBut_get (k k' : string) (r1 r2 : JSON.value) :
  sameBut k r1 r2 -> k' <> k -> JSON.get k' r1 = JSON.get k' r2.
Proof.
  destruct r1, r2; simpl; intros H Hk;
    try discriminate H; try contradiction; try reflexivity.
  - destruct H as [_ H]. now apply (sameProps_lookup k).
  - now apply (sameProps_lookup k).
Qed.

Section Agreement.

Variable dirname : string.
Variable fs : Fs.FileSystem.

(** The transcript changes the value of [progressMessages] and nothing
    else. *)
Lemma finish_agree (out : string) (tr1 tr2 : list ProgressData) (v r1 r2 : JSON.value) :
  finish dirname fs out tr1 v = inl r1 ->
  finish dirname fs out tr2 v = inl r2 ->
  sameBut "progressMessages" r1 r2.
Proof. unfold finish. apply set_sameBut. Qed.

Lemma finish_fails_alike (out : string) (tr1 tr2 : list ProgressData)
  (v : JSON.value) (m : string) :
  finish dirname fs out tr1 v = inr m -> finish dirname fs out tr2 v = inr m.
Proof.
  unfold finish. destruct (attachMemo dirname fs out v); simpl;
    intros H; try discriminate H; exact H.
Qed.

Lemma fallback_agree (out : string) (tr1 tr2 : list ProgressData) (m : string)
  (r1 r2 : JSON.value) :
  fallback dirname fs out tr1 m = inl r1 ->
  fallback dirname fs out tr2 m = inl r2 ->
  sameBut "progressMessages" r1 r2.
Proof.
  unfold fallback.
  destruct (finish dirname fs out tr1 (parseTextOutput out)) as [x1|] eqn:F1;
    [|discriminate].
  destruct (finish dirname fs out tr2 (parseTextOutput out)) as [x2|] eqn:F2;
    [|discriminate].
  apply set_keeps_sameBut. exact (finish_agree out tr1 tr2 _ x1 x2 F1 F2).
Qed.

(** Two runs that end with the same output resolve with results that
    differ by the value of [progressMessages] at most. *)
Lemma closeOutcome_agree (out err : string) (tr1 tr2 : list ProgressData)
  (r1 r2 : JSON.value) :
  closeOutcome dirname fs (Exit 0) out err tr1 = inl (Resolved r1) ->
  closeOutcome dirname fs (Exit 0) out err tr2 = inl (Resolved r2) ->
  sameBut "progressMessages" r1 r2.
Proof.
  unfold closeOutcome. rewrite !tryStructured_text.
  assert (F : forall v,
    match finish dirname fs out tr1 v with
    | inl result => inl (Resolved result)
    | inr m =>
        match fallback dirname fs out tr1 m with
        | inl result => inl (Resolved result)
        | inr m' => inr m'
        end
    end = inl (Resolved r1) ->
    match finish dirname fs out tr2 v with
    | inl result => inl (Resolved result)
    | inr m =>
        match fallback dirname fs out tr2 m with
        | inl result => inl (Resolved result)
        | inr m' => inr m'
        end
    end = inl (Resolved r2 : Settlement) ->
    sameBut "progressMessages" r1 r2).
  { intros v.
    destruct (finish dirname fs out tr1 v) as [x1|m1] eqn:F1.
    - destruct (finish dirname fs out tr2 v) as [x2|m2] eqn:F2.
      + intros H1 H2. injection H1 as <-. injection H2 as <-.
        exact (finish_agree out tr1 tr2 v x1 x2 F1 F2).
      + apply (finish_fails_alike out tr2 tr1) in F2. rewrite F2 in F1. discriminate F1.
    - rewrite (finish_fails_alike out tr1 tr2 v m1 F1).
      destruct (fallback dirname fs out tr1 m1) as [y1|] eqn:B1; [|discriminate].
      destruct (fallback dirname fs out tr2 m1) as [y2|] eqn:B2; [|discriminate].
      intros H1 H2. injection H1 as <-. injection H2 as <-.
      exact (fallback_agree out tr1 tr2 m1 y1 y2 B1 B2). }
  destruct (structuredText out) as [text|]; [|apply F].
  destruct (JSON.parse text) as [v|e]; [apply F|].
  destruct (fallback dirname fs out tr1 (JSON.messageOf e)) as [y1|] eqn:B1; [|discriminate].
  destruct (fallback dirname fs out tr2 (JSON.messageOf e)) as [y2|] eqn:B2; [|discriminate].
  intros H1 H2. injection H1 as <-. injection H2 as <-.
  exact (fallback_agree out tr1 tr2 _ y1 y2 B1 B2).
Qed.

End Agreement.

Lemma onStdoutData_keeps (now : nat -> Z) (Sink : Type)
  (onProgress : option (ProgressData -> Sink -> Sink)) (chunk : string) (w : World Sink) :
  let j := fst (onStdoutData now Sink onProgress chunk w) in
  killed j = killed (fst w) /\ watchdog j = watchdog (fst w).
Proof.
  unfold onStdoutData.
  match goal with |- context [fold_left ?f ?l ?w0] =>
    destruct (processLines_effect now Sink onProgress l w0)
      as [_ [_ [_ [_ [_ [K [W _]]]]]]] end.
  destruct (primed_effect now Sink onProgress w) as [_ [_ [_ [_ [_ [K' W']]]]]].
  simpl in *. now rewrite K, W, K', W'.
Qed.

Section Twins.

Variable now : nat -> Z.
Variable dirname : string.
Variable fs : Fs.FileSystem.
Variables S1 S2 : Type.
Variable g1 : option (ProgressData -> S1 -> S1).
Variable g2 : option (ProgressData -> S2 -> S2).

Lemma settle_twins (o1 o2 : Settlement) (j1 j2 : Job) :
  alike (Some o1) (Some o2) -> twins j1 j2 -> twins (settle o1 j1) (settle o2 j2).
Proof.
  intros Ho [H1 [H2 [H3 [H4 H5]]]]. unfold settle, twins.
  destruct (promise j1) as [p1|] eqn:E1; destruct (promise j2) as [p2|] eqn:E2.
  - rewrite E1, E2. now repeat split.
  - destruct p1; contradiction.
  - contradiction.
  - simpl. now repeat split.
Qed.

Lemma closeOutcome_alike (code : ExitCode) (out err : string)
  (tr1 tr2 : list ProgressData) :
  exists o1 o2,
    closeOutcome dirname fs code out err tr1 = inl o1 /\
    closeOutcome dirname fs code out err tr2 = inl o2 /\
    alike (Some o1) (Some o2).
Proof.
  destruct (exit_zero_dec code) as [-> | Hc].
  - destruct (closeOutcome_zero dirname fs out err tr1) as [r1 E1].
    destruct (closeOutcome_zero dirname fs out err tr2) as [r2 E2].
    exists (Resolved r1), (Resolved r2). split; [exact E1|]. split; [exact E2|].
    exact (closeOutcome_agree dirname fs out err tr1 tr2 r1 r2 E1 E2).
  - rewrite !closeOutcome_rejected by exact Hc.
    eexists; eexists. repeat split.
Qed.

Lemma handle_twins (e : ProcessEvent) (w1 : World S1) (w2 : World S2) :
  twins (fst w1) (fst w2) ->
  twins (fst (handle now dirname fs S1 g1 e w1)) (fst (handle now dirname fs S2 g2 e w2)).
Proof.
  intros HT. pose proof HT as [H1 [H2 [H3 [H4 H5]]]].
  destruct e as [chunk | chunk | code | m |]; simpl.
  - destruct (onStdoutData_effect now S1 g1 chunk w1) as [A1 [A2 _]].
    destruct (onStdoutData_effect now S2 g2 chunk w2) as [B1 [B2 _]].
    destruct (onStdoutData_keeps now S1 g1 chunk w1) as [K1 W1].
    destruct (onStdoutData_keeps now S2 g2 chunk w2) as [K2 W2].
    unfold twins. rewrite A1, A2, B1, B2, K1, W1, K2, W2, H1, H2.
    rewrite (proj1 (data_keeps_promise now S1 g1 chunk w1)).
    rewrite (proj1 (data_keeps_promise now S2 g2 chunk w2)).
    now repeat split.
  - destruct (onStderrData_effect now S1 g1 chunk w1) as [A1 A2].
    destruct (onStderrData_effect now S2 g2 chunk w2) as [B1 B2].
    unfold twins. rewrite A1, A2, B1, B2, H1, H2.
    rewrite (proj2 (data_keeps_promise now S1 g1 chunk w1)).
    rewrite (proj2 (data_keeps_promise now S2 g2 chunk w2)).
    unfold onStderrData. destruct (truthy (trim chunk));
      destruct g1; destruct g2; simpl; now repeat split.
  - unfold onClose. rewrite H1, H2.
    destruct (closeOutcome_alike code (stdout (fst w2)) (stderr (fst w2))
                (progressMessages (fst w1)) (progressMessages (fst w2)))
      as [o1 [o2 [E1 [E2 Ho]]]].
    rewrite E1, E2.
    destruct (settle_twins o1 o2 (fst w1) (fst w2) Ho HT) as [T1 [T2 [T3 [T4 T5]]]].
    unfold twins. simpl. now repeat split.
  - unfold onError. now apply settle_twins.
  - unfold onTimeout. rewrite H4. destruct (watchdog (fst w2)) eqn:W2; [|exact HT].
    destruct (settle_twins
                (Rejected (plainError "Analysis timeout: Process took longer than 60 minutes"))
                (Rejected (plainError "Analysis timeout: Process took longer than 60 minutes"))
                (kill (fst w1)) (kill (fst w2)) eq_refl) as [T1 [T2 [T3 [T4 T5]]]].
    { unfold twins. simpl. repeat split; congruence. }
    unfold twins. simpl. now repeat split.
Qed.

Lemma run_twins (events : list ProcessEvent) (w1 : World S1) (w2 : World S2) :
  twins (fst w1) (fst w2) ->
  twins (fst (PythonService.run now dirname fs S1 g1 events w1))
        (fst (PythonService.run now dirname fs S2 g2 events w2)).
Proof.
  revert w1 w2. induction events as [|e events IH]; intros w1 w2 H; [exact H|].
  change (PythonService.run now dirname fs S1 g1 (e :: events) w1)
    with (PythonService.run now dirname fs S1 g1 events (handle now dirname fs S1 g1 e w1)).
  change (PythonService.run now dirname fs S2 g2 (e :: events) w2)
    with (PythonService.run now dirname fs S2 g2 events (handle now dirname fs S2 g2 e w2)).
  apply IH. now apply handle_twins.
Qed.

Lemma spawned_twins (s1 : S1) (s2 : S2) :
  twins (fst (spawned now S1 g1 s1)) (fst (spawned now S2 g2 s2)).
Proof. unfold spawned, announce. destruct g1; destruct g2; now repeat split. Qed.

End Twins.

(** ** The run of a job as a whole *)

(** X6.  Whatever the sink and whatever else happens, the two buffers
    hold every chunk received, in the order of arrival: nothing is
    dropped, also after the promise is settled. *)
Theorem buffers_hold_every_chunk
  (now : nat -> Z) (dirname : string) (fs : Fs.FileSystem) (Sink : Type)
  (onProgress : option (ProgressData -> Sink -> Sink))
  (events : list ProcessEvent) (sink : Sink) :
  let j := fst (PythonService.run now dirname fs Sink onProgress events
                  (spawned now Sink onProgress sink)) in
  stdout j = stdoutText events /\ stderr j = stderrText events.
Proof.
  intros j.
  destruct (run_buffers now dirname fs Sink onProgress events
              (spawned now Sink onProgress sink)) as [H1 H2].
  fold j in H1, H2. rewrite H1, H2.
  unfold spawned, announce. now destruct onProgress.
Qed.

(** X7.  The transcript in closed form, timestamps apart: each non-blank
    line of each chunk of standard output gives one event, with the step
    read off the line and the trimmed line as message, with or without a
    sink; each non-blank chunk of standard error gives one [error] event
    when there is a sink; the other events of the process give none, and
    a settled promise does not stop the transcript from growing. *)
Theorem transcript_in_closed_form
  (now : nat -> Z) (dirname : string) (fs : Fs.FileSystem) (Sink : Type)
  (onProgress : option (ProgressData -> Sink -> Sink))
  (events : list ProcessEvent) (sink : Sink) :
  map outline
    (progressMessages
       (fst (PythonService.run now dirname fs Sink onProgress events
               (spawned now Sink onProgress sink))))
  = flat_map (entries (hasSink Sink onProgress)) events.
Proof.
  rewrite run_outline. now rewrite spawned_fresh.
Qed.

(** X8.  No event of the transcript has an empty message. *)
Theorem transcript_messages_are_never_empty
  (now : nat -> Z) (dirname : string) (fs : Fs.FileSystem) (Sink : Type)
  (onProgress : option (ProgressData -> Sink -> Sink))
  (events : list ProcessEvent) (sink : Sink) :
  Forall (fun p => truthy (message p) = true)
    (progressMessages
       (fst (PythonService.run now dirname fs Sink onProgress events
               (spawned now Sink onProgress sink)))).
Proof.
  apply (run_spoken now dirname fs Sink onProgress events).
  unfold spoken. rewrite spawned_fresh. constructor.
Qed.

(** X9.  With a clock that never goes back, the timestamps of the
    transcript never go down. *)
Theorem transcript_timestamps_ascend
  (now : nat -> Z) (dirname : string) (fs : Fs.FileSystem) (Sink : Type)
  (onProgress : option (ProgressData -> Sink -> Sink))
  (events : list ProcessEvent) (sink : Sink) :
  monotone now ->
  ascending
    (map timestamp
       (progressMessages
          (fst (PythonService.run now dirname fs Sink onProgress events
                  (spawned now Sink onProgress sink))))).
Proof.
  intros M.
  apply (run_timed now dirname fs Sink onProgress events _ M).
  unfold timed. rewrite spawned_fresh. simpl. split; [exact I | constructor].
Qed.

Lemma sampleClock_monotone : monotone sampleClock.
Proof. intros a b H. unfold sampleClock. lia. Qed.

Lemma transcript_timestamps_ascend_witness :
  monotone sampleClock /\
  ascending
    (map timestamp
       (progressMessages
          (fst (PythonService.run sampleClock sampleDirname scriptOnly _ recorder
                  failingRun (spawned sampleClock _ recorder []))))).
Proof.
  split; [exact sampleClock_monotone|].
  apply (transcript_timestamps_ascend sampleClock sampleDirname scriptOnly _ recorder
           failingRun []).
  exact sampleClock_monotone.
Defined.

(** X10.  A job settles once: the settlement reached after some events is
    the settlement after any events that follow. *)
Theorem job_settles_once
  (now : nat -> Z) (dirname : string) (fs : Fs.FileSystem) (Sink : Type)
  (onProgress : option (ProgressData -> Sink -> Sink))
  (before later : list ProcessEvent) (w : World Sink) (o : Settlement) :
  promise (fst (PythonService.run now dirname fs Sink onProgress before w)) = Some o ->
  promise (fst (PythonService.run now dirname fs Sink onProgress (before ++ later)%list w))
  = Some o.
Proof.
  intros H. unfold PythonService.run at 1. rewrite fold_left_app.
  apply (run_final now dirname fs Sink onProgress later). exact H.
Qed.

Lemma job_settles_once_witness :
  exists o,
    promise (fst (PythonService.run sampleClock sampleDirname scriptOnly _ recorder
                    failingRun (spawned sampleClock _ recorder []))) = Some o /\
    promise (fst (PythonService.run sampleClock sampleDirname scriptOnly _ recorder
                    (failingRun ++ [Timeout; Close (Exit 0)])%list
                    (spawned sampleClock _ recorder []))) = Some o.
Proof.
  eexists.
  assert (H : promise (fst (PythonService.run sampleClock sampleDirname scriptOnly _
                              recorder failingRun (spawned sampleClock _ recorder [])))
              = Some (Rejected (mkAnalysisError "ValueError: bad ticker"
                                  (Some (Exit 1))
                                  (Some ("[Market Data Agent] fetching" ++ nl))
                                  (Some ("ValueError: bad ticker" ++ nl)))))
    by reflexivity.
  split; [exact H|].
  exact (job_settles_once sampleClock sampleDirname scriptOnly _ recorder failingRun
           [Timeout; Close (Exit 0)] _ _ H).
Defined.

(** X11.  Every error a job is rejected with by its listeners has a message
    that is not empty. *)
Theorem rejection_messages_are_never_empty
  (now : nat -> Z) (dirname : string) (fs : Fs.FileSystem) (Sink : Type)
  (onProgress : option (ProgressData -> Sink -> Sink))
  (events : list ProcessEvent) (sink : Sink) (error : AnalysisError) :
  promise (fst (PythonService.run now dirname fs Sink onProgress events
                  (spawned now Sink onProgress sink))) = Some (Rejected error) ->
  truthy (errMessage error) = true.
Proof.
  intros H.
  pose proof (run_outspoken now dirname fs Sink onProgress events
                (spawned now Sink onProgress sink)) as Ho.
  rewrite spawned_promise, H in Ho. now apply Ho.
Qed.

Lemma rejection_messages_are_never_empty_witness :
  exists error,
    promise (fst (PythonService.run sampleClock sampleDirname scriptOnly _ recorder
                    [Close Signalled] (spawned sampleClock _ recorder [])))
    = Some (Rejected error) /\
    truthy (errMessage error) = true.
Proof.
  eexists. split; [reflexivity|].
  apply (rejection_messages_are_never_empty sampleClock sampleDirname scriptOnly _
           recorder [Close Signalled] []).
  reflexivity.
Defined.

(** X12.  The sink has no say in the outcome: fed the same events, a job
    with a sink, or with another one, or without any, has the same
    buffers, is killed or not alike, and is settled alike: pending, or
    rejected with the same error, or resolved with results that differ
    by the value of [progressMessages] at most: objects with the same keys
    in the same order, or arrays with the same elements and such keys, and
    the same value under every other key. *)
Theorem outcome_does_not_depend_on_the_sink
  (now : nat -> Z) (dirname : string) (fs : Fs.FileSystem) (S1 S2 : Type)
  (g1 : option (ProgressData -> S1 -> S1)) (g2 : option (ProgressData -> S2 -> S2))
  (events : list ProcessEvent) (s1 : S1) (s2 : S2) :
  let j1 := fst (PythonService.run now dirname fs S1 g1 events (spawned now S1 g1 s1)) in
  let j2 := fst (PythonService.run now dirname fs S2 g2 events (spawned now S2 g2 s2)) in
  stdout j1 = stdout j2 /\ stderr j1 = stderr j2 /\ killed j1 = killed j2 /\
  alike (promise j1) (promise j2).
Proof.
  intros j1 j2.
  destruct (run_twins now dirname fs S1 S2 g1 g2 events _ _
              (spawned_twins now S1 S2 g1 g2 s1 s2)) as [H1 [H2 [H3 [_ H5]]]].
  now repeat split.
Qed.


(** ** Steps of lines and spans of text *)

Module RegexFacts.

Import Regex.

Lemma rmatch_star (A : Type) (g : bool) (a : re) (s : list ascii) (c : caps)
  (k : list ascii -> caps -> option A) :
  rmatch A (Star g a) s c k = starLoop A g a k (S (List.length s)) s c.
Proof. reflexivity. Qed.

(** A greedy run of a class: over a stretch of code units of the class
    that ends before one outside it, the repetition hands on what follows
    the stretch, if the rest of the pattern matches there. *)
Lemma greedy_class_run (A : Type) (p : ascii -> bool)
  (k : list ascii -> caps -> option A) (x : A) (c : caps)
  (run rest : list ascii) (n : nat) :
  forallb p run = true ->
  match rest with [] => True | y :: _ => p y = false end ->
  k rest c = Some x ->
  List.length run <= n ->
  starLoop A true (Chr p) k n (run ++ rest) c = Some x.
Proof.
  intros Hrun Hrest Hk. revert n.
  induction run as [|y run IH]; intros n Hn.
  - simpl app. destruct n; simpl.
    + exact Hk.
    + destruct rest as [|z rest]; [exact Hk|]. now rewrite Hrest.
  - simpl in Hrun. apply andb_prop in Hrun. destruct Hrun as [Hy Hrun].
    destruct n as [|n]; [simpl in Hn; lia|].
    simpl in Hn. cbn [starLoop rmatch app]. rewrite Hy.
    assert (L : (List.length (run ++ rest) <? List.length (y :: run ++ rest)) = true).
    { apply Nat.ltb_lt. simpl. lia. }
    rewrite L. rewrite (IH Hrun n) by lia. reflexivity.
Qed.

(** A pattern that starts with a class finds nothing at the head of a text
    whose first code unit is outside the class. *)
Lemma search_skips (p : ascii -> bool) (b : re) (pre s : list ascii) :
  forallb (fun y => negb (p y)) pre = true ->
  searchFrom (Seq (Chr p) b) (pre ++ s) = searchFrom (Seq (Chr p) b) s.
Proof.
  intros H. induction pre as [|y pre IH]; [reflexivity|].
  simpl in H. apply andb_prop in H. destruct H as [Hy H].
  simpl app. cbn [searchFrom]. unfold matchHere at 1. cbn [rmatch].
  apply negb_true_iff in Hy. rewrite Hy. now apply IH.
Qed.

Lemma search_fails (p : ascii -> bool) (b : re) (s : list ascii) :
  forallb (fun y => negb (p y)) s = true ->
  searchFrom (Seq (Chr p) b) s = None.
Proof.
  intros H. rewrite <- (app_nil_r s). rewrite search_skips by exact H.
  reflexivity.
Qed.

Lemma firstn_tail_length {T : Type} (a b : list T) :
  firstn (List.length (a ++ b) - List.length b) (a ++ b) = a.
Proof.
  rewrite length_app, Nat.add_sub. rewrite firstn_app, Nat.sub_diag.
  simpl. rewrite app_nil_r. apply firstn_all.
Qed.

Lemma rmatch_chr_hit (A : Type) (p : ascii -> bool) (x : ascii) (s : list ascii)
  (c : caps) (k : list ascii -> caps -> option A) :
  p x = true -> rmatch A (Chr p) (x :: s) c k = k s c.
Proof. intros H. cbn [rmatch]. now rewrite H. Qed.

Lemma rmatch_seq (A : Type) (a b : re) (s : list ascii) (c : caps)
  (k : list ascii -> caps -> option A) :
  rmatch A (Seq a b) s c k = rmatch A a s c (fun s' c' => rmatch A b s' c' k).
Proof. reflexivity. Qed.

Lemma rmatch_group (A : Type) (i : nat) (a : re) (s : list ascii) (c : caps)
  (k : list ascii -> caps -> option A) :
  rmatch A (Group i a) s c k =
  rmatch A a s c
    (fun s' c' =>
       k s' (setCap i (string_of_list_ascii
                         (firstn (List.length s - List.length s') s)) c')).
Proof. reflexivity. Qed.

(** One or more of a class, greedily, over a stretch that ends before a
    code unit outside the class. *)
Lemma rmatch_plus_class (A : Type) (p : ascii -> bool)
  (k : list ascii -> caps -> option A) (x : A) (c : caps)
  (y : ascii) (run rest : list ascii) :
  p y = true -> forallb p run = true ->
  match rest with [] => True | z :: _ => p z = false end ->
  k rest c = Some x ->
  rmatch A (plus (Chr p)) (y :: run ++ rest) c k = Some x.
Proof.
  intros Hy Hrun Hrest Hk. unfold plus.
  rewrite rmatch_seq, rmatch_chr_hit by exact Hy.
  rewrite rmatch_star. apply greedy_class_run; try assumption.
  rewrite length_app. lia.
Qed.

Lemma firstn_front {T : Type} (front tail l : list T) :
  l = (front ++ tail)%list ->
  firstn (List.length l - List.length tail) l = front.
Proof. intros ->. apply firstn_tail_length. Qed.

Lemma searchFrom_hit (r : re) (s : list ascii) (c : caps) :
  matchHere r s = Some c -> searchFrom r s = Some c.
Proof. intros H. destruct s; cbn [searchFrom]; now rewrite H. Qed.

Lemma lacks_forallb (x : ascii) (s : string) :
  lacks x s = forallb (fun y => negb (Ascii.eqb x y)) (list_ascii_of_string s).
Proof.
  induction s as [|y s IH]; simpl; [reflexivity | now rewrite IH].
Qed.

Lemma list_ascii_of_string_app (a b : string) :
  list_ascii_of_string (a ++ b) = (list_ascii_of_string a ++ list_ascii_of_string b)%list.
Proof.
  induction a as [|x a IH]; simpl; [reflexivity | now rewrite IH].
Qed.

End RegexFacts.

Import RegexFacts.

(** X13.  A line without an opening bracket is classified under the step
    [system]. *)
Theorem line_without_bracket_is_system (line : string) :
  lacks "[" line = true -> stepOf line = "system".
Proof.
  intros H. unfold stepOf, Regex.exec, stepPattern, Regex.chr.
  rewrite search_fails; [reflexivity|].
  rewrite lacks_forallb in H. exact H.
Qed.

Lemma line_without_bracket_is_system_witness :
  lacks "[" "fetching prices] for AAPL" = true /\
  stepOf "fetching prices] for AAPL" = "system".
Proof.
  assert (H : lacks "[" "fetching prices] for AAPL" = true) by reflexivity.
  split; [exact H|].
  exact (line_without_bracket_is_system "fetching prices] for AAPL" H).
Defined.

Lemma string_of_list_ascii_app (a b : list ascii) :
  string_of_list_ascii (a ++ b) = string_of_list_ascii a ++ string_of_list_ascii b.
Proof. induction a as [|x a IH]; simpl; [reflexivity | now rewrite IH]. Qed.

(** X14.  A line whose first opening bracket starts a non-empty label
    closed by a bracket is classified under that label, wherever in the
    line the label stands and whatever follows it. *)
Theorem labelled_line_is_classified_by_its_label (pre label post : string) :
  lacks "[" pre = true ->
  lacks "]" label = true ->
  truthy label = true ->
  stepOf (pre ++ "[" ++ label ++ "]" ++ post) = label.
Proof.
  intros Hpre Hlab Hne. unfold stepOf, Regex.exec, stepPattern, Regex.chr.
  rewrite list_ascii_of_string_app.
  rewrite search_skips by (rewrite <- lacks_forallb; exact Hpre).
  change ("[" ++ label ++ "]" ++ post) with (String "[" (label ++ String "]" post)).
  cbn [list_ascii_of_string]. rewrite list_ascii_of_string_app.
  cbn [list_ascii_of_string].
  destruct label as [|y label]; [discriminate Hne|].
  cbn [lacks] in Hlab. apply andb_prop in Hlab. destruct Hlab as [Hy Hlab].
  rewrite lacks_forallb in Hlab.
  cbn [list_ascii_of_string app].
  rewrite <- (string_of_list_ascii_of_string label) at 2.
  set (run := list_ascii_of_string label) in *.
  set (tail := list_ascii_of_string post).
  assert (M : Regex.matchHere
                (Regex.Seq (Regex.Chr (Ascii.eqb "["))
                   (Regex.Seq (Regex.Group 1 (Regex.plus (Regex.notChr "]")))
                      (Regex.Chr (Ascii.eqb "]"))))
                ("["%char :: y :: run ++ "]"%char :: tail)
              = Some [(0, string_of_list_ascii ("["%char :: y :: run ++ ["]"%char]));
                      (1, string_of_list_ascii (y :: run))]).
  { unfold Regex.matchHere.
    rewrite rmatch_group, rmatch_seq, rmatch_chr_hit by apply Ascii.eqb_refl.
    rewrite rmatch_seq, rmatch_group.
    unfold Regex.notChr.
    apply rmatch_plus_class; try assumption; [reflexivity|].
    rewrite rmatch_chr_hit by apply Ascii.eqb_refl.
    unfold Regex.setCap. f_equal. f_equal.
    - f_equal. f_equal. apply firstn_front.
      simpl. now rewrite <- app_assoc.
    - f_equal. f_equal. f_equal. apply (firstn_front (y :: run)). reflexivity. }
  rewrite (searchFrom_hit _ _ _ M). reflexivity.
Qed.

Lemma labelled_line_is_classified_by_its_label_witness :
  lacks "[" "12:00 " = true /\ lacks "]" "Risk Agent" = true /\
  stepOf ("12:00 " ++ "[" ++ "Risk Agent" ++ "]" ++ " scoring [AAPL]") = "Risk Agent".
Proof.
  assert (H1 : lacks "[" "12:00 " = true) by reflexivity.
  assert (H2 : lacks "]" "Risk Agent" = true) by reflexivity.
  split; [exact H1|]. split; [exact H2|].
  apply (labelled_line_is_classified_by_its_label "12:00 " "Risk Agent" " scoring [AAPL]");
    [exact H1 | exact H2 | reflexivity].
Defined.

Module GreedyFacts.

Import Regex.

(** After the last code unit of a class, a greedy run of any code unit
    followed by that class finds nothing. *)
Lemma greedy_any_fails (A : Type) (p : ascii -> bool)
  (K : list ascii -> caps -> option A) (post : list ascii) :
  needs A p K ->
  forallb (fun y => negb (p y)) post = true ->
  forall n c, starLoop A true any K n post c = None.
Proof.
  intros HK. unfold any. induction post as [|y post IH]; intros H n c.
  - destruct n; cbn [starLoop]; now rewrite HK.
  - simpl in H. apply andb_prop in H. destruct H as [Hy H].
    apply negb_true_iff in Hy.
    destruct n as [|n]; cbn [starLoop rmatch]; [now rewrite HK|].
    assert (L : (List.length post <? List.length (y :: post)) = true).
    { apply Nat.ltb_lt. simpl. lia. }
    rewrite L. rewrite (IH H n c). now rewrite HK.
Qed.

(** A greedy run of any code unit followed by a class stops before the
    last code unit of the class. *)
Lemma greedy_any_to_last (A : Type) (p : ascii -> bool)
  (K : list ascii -> caps -> option A) (x : A) (c : caps)
  (body post : list ascii) (z : ascii) (n : nat) :
  needs A p K ->
  forallb (fun y => negb (p y)) post = true ->
  K (z :: post) c = Some x ->
  List.length body <= n ->
  starLoop A true any K n (body ++ z :: post) c = Some x.
Proof.
  intros HK Hpost Hk. pose proof (greedy_any_fails A p K post HK Hpost) as F.
  unfold any in *. revert n.
  induction body as [|b body IH]; intros n Hn.
  - simpl app. destruct n as [|n]; cbn [starLoop rmatch]; [now rewrite Hk|].
    assert (L : (List.length post <? List.length (z :: post)) = true).
    { apply Nat.ltb_lt. simpl. lia. }
    rewrite L. rewrite (F n c). exact Hk.
  - destruct n as [|n]; [simpl in Hn; lia|]. simpl in Hn.
    simpl app. cbn [starLoop rmatch].
    assert (L : (List.length (body ++ z :: post) <? List.length (b :: body ++ z :: post))
                = true).
    { apply Nat.ltb_lt. simpl. lia. }
    rewrite L. now rewrite (IH n) by lia.
Qed.

Lemma chr_needs (A : Type) (p : ascii -> bool) (k : list ascii -> caps -> option A) :
  needs A p (fun s c => rmatch A (Chr p) s c k).
Proof.
  intros t c H. cbn [rmatch]. destruct t as [|y t]; [reflexivity | now rewrite H].
Qed.

(** A case-insensitive literal finds nothing in a text without one of its
    code units, when that code unit has no other case. *)
Lemma rmatch_liti_fails (A : Type) (x : ascii) (lit : string) :
  caseless x -> lacks x lit = false ->
  forall s c (k : list ascii -> caps -> option A),
    forallb (fun y => negb (Ascii.eqb x y)) s = true ->
    rmatch A (liti lit) s c k = None.
Proof.
  intros Hx. induction lit as [|z lit IH]; intros Hl s c k Hs; [discriminate Hl|].
  cbn [liti]. rewrite RegexFacts.rmatch_seq. unfold chri at 1. cbn [rmatch].
  destruct s as [|y s]; [reflexivity|].
  simpl in Hs. apply andb_prop in Hs. destruct Hs as [Hy Hs].
  destruct (Ascii.eqb (lowerChar y) (lowerChar z)) eqn:E; [|reflexivity].
  cbn [lacks] in Hl. apply andb_false_iff in Hl. destruct Hl as [Hl | Hl].
  - apply negb_false_iff, Ascii.eqb_eq in Hl. subst z.
    apply Hx in E. subst y. rewrite Ascii.eqb_refl in Hy. discriminate Hy.
  - now apply IH.
Qed.

Lemma search_liti_fails (x : ascii) (lit : string) (b : re) (s : list ascii) :
  caseless x -> lacks x lit = false ->
  forallb (fun y => negb (Ascii.eqb x y)) s = true ->
  searchFrom (Seq (liti lit) b) s = None.
Proof.
  intros Hx Hl. induction s as [|y s IH]; intros Hs.
  - cbn [searchFrom]. unfold matchHere.
    rewrite RegexFacts.rmatch_group, RegexFacts.rmatch_seq.
    now rewrite (rmatch_liti_fails _ x lit Hx Hl).
  - cbn [searchFrom]. unfold matchHere.
    rewrite RegexFacts.rmatch_group, RegexFacts.rmatch_seq.
    rewrite (rmatch_liti_fails _ x lit Hx Hl) by exact Hs.
    simpl in Hs. apply andb_prop in Hs. now apply IH.
Qed.

Lemma colon_caseless : caseless ":".
Proof.
  intros y. destruct y as [[] [] [] [] [] [] [] []]; vm_compute; intros H;
    try discriminate H; reflexivity.
Qed.

End GreedyFacts.

Import GreedyFacts.

(** X15.  From an output without any colon the heuristic extraction returns
    its defaults: an empty recommendation, the confidence 0, no scenario
    and an empty memo. *)
Theorem output_without_colon_gives_defaults (out : string) :
  lacks ":" out = true ->
  parseTextOutput out =
  JSON.Object [("recommendation", JSON.Str EmptyString);
               ("confidence_score", JSON.Number (Num 0));
               ("scenarios", JSON.Object []);
               ("memo", JSON.Str EmptyString);
               ("progressMessages", JSON.Array [] [])].
Proof.
  intros H. rewrite RegexFacts.lacks_forallb in H.
  unfold parseTextOutput, extractScenarios, extractValue, Regex.exec.
  unfold recommendationPattern, confidencePattern, scenariosPattern.
  rewrite !(search_liti_fails ":" _ _ _ colon_caseless) by (reflexivity || exact H).
  reflexivity.
Qed.

Lemma output_without_colon_gives_defaults_witness :
  lacks ":" "Recommendation BUY, confidence score 0.9" = true /\
  JSON.get "recommendation"
    (parseTextOutput "Recommendation BUY, confidence score 0.9")
  = Some (JSON.Str EmptyString).
Proof.
  assert (H : lacks ":" "Recommendation BUY, confidence score 0.9" = true)
    by reflexivity.
  split; [exact H|].
  now rewrite (output_without_colon_gives_defaults
                 "Recommendation BUY, confidence score 0.9" H).
Defined.

(** X16.  Without the pair of markers, the text handed to the parser runs
    from the first opening brace to the last closing brace of the
    output. *)
Theorem bare_json_span_is_first_brace_to_last_brace (pre body post : string) :
  let out := pre ++ "{" ++ body ++ "}" ++ post in
  indexOf JSON_OUTPUT_START out = None \/ indexOf JSON_OUTPUT_END out = None ->
  lacks "{" pre = true ->
  lacks "}" post = true ->
  structuredText out = Some ("{" ++ body ++ "}").
Proof.
  intros out Hm Hpre Hpost.
  assert (E : Regex.exec jsonObjectPattern out
              = Some [(0, "{" ++ body ++ "}")]).
  { unfold out, Regex.exec, jsonObjectPattern, Regex.chr.
    rewrite RegexFacts.list_ascii_of_string_app.
    rewrite RegexFacts.search_skips by (rewrite <- RegexFacts.lacks_forallb; exact Hpre).
    change ("{" ++ body ++ "}" ++ post) with (String "{" (body ++ String "}" post)).
    cbn [list_ascii_of_string]. rewrite RegexFacts.list_ascii_of_string_app.
    cbn [list_ascii_of_string].
    rewrite RegexFacts.lacks_forallb in Hpost.
    rewrite <- (string_of_list_ascii_of_string body) at 2.
    set (b := list_ascii_of_string body). set (t := list_ascii_of_string post) in *.
    apply RegexFacts.searchFrom_hit. unfold Regex.matchHere.
    rewrite RegexFacts.rmatch_group, RegexFacts.rmatch_seq.
    rewrite RegexFacts.rmatch_chr_hit by apply Ascii.eqb_refl.
    rewrite RegexFacts.rmatch_seq, RegexFacts.rmatch_star.
    rewrite (greedy_any_to_last _ (Ascii.eqb "}") _
               [(0, "{" ++ string_of_list_ascii b ++ "}")] [] b t "}"%char).
    - reflexivity.
    - apply chr_needs.
    - exact Hpost.
    - rewrite RegexFacts.rmatch_chr_hit by apply Ascii.eqb_refl.
      unfold Regex.setCap. f_equal. f_equal. f_equal.
      rewrite (RegexFacts.firstn_front ("{"%char :: b ++ ["}"%char]) t).
      + simpl. rewrite string_of_list_ascii_app. reflexivity.
      + simpl. now rewrite <- app_assoc.
    - rewrite length_app. lia. }
  unfold structuredText. rewrite E.
  destruct Hm as [-> | Hm]; [reflexivity|].
  rewrite Hm. now destruct (indexOf JSON_OUTPUT_START out).
Qed.

Lemma bare_json_span_is_first_brace_to_last_brace_witness :
  lacks "{" "result " = true /\ lacks "}" " done" = true /\
  structuredText ("result " ++ "{" ++ "{}, }{" ++ "}" ++ " done")
  = Some ("{" ++ "{}, }{" ++ "}").
Proof.
  assert (H1 : lacks "{" "result " = true) by reflexivity.
  assert (H2 : lacks "}" " done" = true) by reflexivity.
  split; [exact H1|]. split; [exact H2|].
  apply (bare_json_span_is_first_brace_to_last_brace "result " "{}, }{" " done");
    [left; reflexivity | exact H1 | exact H2].
Defined.

(* ================================================================== *)
(** * Further properties of the routes *)
(* ================================================================== *)

(** ** The checks on the request *)

Lemma arrayIncludes_In (x : string) (l : list string) :
  arrayIncludes x l = true <-> In x l.
Proof.
  unfold arrayIncludes. rewrite existsb_exists. split.
  - intros [y [Hy E]]. apply String.eqb_eq in E. now subst.
  - intros H. exists x. split; [exact H | apply String.eqb_refl].
Qed.

Lemma lowered_member_truthy (s : string) (l : list string) :
  In (toLowerCase s) l -> Forall (fun x => truthy x = true) l -> truthy s = true.
Proof.
  intros H F. rewrite Forall_forall in F. apply F in H. now destruct s.
Qed.

(** X17.  A request passes the checks exactly when its three fields are
    strings, the ticker is not empty, and the horizon and the risk
    profile, in lower case, are among the allowed ones; [runAnalysis]
    then gets the ticker in upper case and the two others in lower case. *)
Theorem accepted_requests
  (toUpperCase notAFunction : string -> string)
  (body : AnalyzeRequest) (TICKER h r : string) :
  validate toUpperCase notAFunction body = Accepted TICKER h r <->
  exists t h0 r0,
    ticker body = Some (JSON.Str t) /\
    horizon body = Some (JSON.Str h0) /\
    risk_profile body = Some (JSON.Str r0) /\
    truthy t = true /\
    TICKER = toUpperCase t /\ h = toLowerCase h0 /\ r = toLowerCase r0 /\
    In h validHorizons /\ In r validRiskProfiles.
Proof.
  unfold validate. split.
  - destruct (missing (ticker body) || missing (horizon body)
              || missing (risk_profile body)) eqn:M; [discriminate|].
    apply orb_false_elim in M. destruct M as [M _].
    apply orb_false_elim in M. destruct M as [Mt _].
    destruct (horizon body) as [[| | |h0| |]|]; try discriminate.
    destruct (arrayIncludes (toLowerCase h0) validHorizons) eqn:Ih; [|discriminate].
    destruct (risk_profile body) as [[| | |r0| |]|]; try discriminate.
    destruct (arrayIncludes (toLowerCase r0) validRiskProfiles) eqn:Ir; [|discriminate].
    destruct (ticker body) as [[| | |t| |]|]; try discriminate.
    simpl. intros H. injection H as <- <- <-.
    exists t, h0, r0. simpl in Mt. apply negb_false_iff in Mt.
    apply arrayIncludes_In in Ih. apply arrayIncludes_In in Ir.
    now repeat (split; [first [reflexivity | assumption]|]).
  - intros [t [h0 [r0 [-> [-> [-> [Ht [-> [-> [-> [Ih Ir]]]]]]]]]]].
    assert (Hh : truthy h0 = true).
    { apply (lowered_member_truthy h0 validHorizons Ih). repeat constructor. }
    assert (Hr : truthy r0 = true).
    { apply (lowered_member_truthy r0 validRiskProfiles Ir). repeat constructor. }
    unfold missing, truthyValue. rewrite Ht, Hh, Hr. simpl orb. cbv iota.
    apply arrayIncludes_In in Ih. apply arrayIncludes_In in Ir.
    now rewrite Ih, Ir.
Qed.

(** ** The flags of a session *)

Lemma markClosed_coherent (s : Session) : coherent (markClosed s).
Proof. now split. Qed.

Lemma sendProgress_coherent (pd : ProgressData) (s : Session) :
  coherent s -> coherent (sendProgress pd s).
Proof.
  intros H. pose proof H as [H1 H2]. unfold sendProgress.
  destruct (responseEnded s) eqn:E; [exact H|].
  destruct (unwritable (res s)).
  - destruct (connectionAlive s); [apply markClosed_coherent | exact H].
  - rewrite H1. simpl. unfold coherent. simpl. now rewrite H1, E.
Qed.

Lemma keepAlive_coherent (t : Z) (s : Session) :
  coherent s -> coherent (keepAlive t s).
Proof.
  intros H. pose proof H as [H1 H2]. unfold keepAlive.
  destruct (negb (connectionAlive s) || responseEnded s); [now split|].
  destruct (unwritable (res s)); [apply markClosed_coherent | exact H].
Qed.

Lemma react_coherent (o : Settlement) (s : Session) :
  coherent s -> coherent (react o s).
Proof. intros [H1 H2]. destruct o; now split. Qed.

Section Flags.

Variable now : nat -> Z.
Variable dirname : string.
Variable fs : Fs.FileSystem.

Local Abbreviation stepS := (step now dirname fs).
Local Abbreviation runS := (AnalysisRoute.run now dirname fs).

Lemma step_coherent (e : Event) (w : System) :
  coherent (snd w) -> coherent (snd (stepS e w)).
Proof.
  intros H. destruct e as [pe | t | | | | |]; simpl.
  - unfold afterSettling.
    pose proof (handle_session now dirname fs coherent pe w sendProgress_coherent H) as H'.
    destruct (promise (fst w)); [exact H'|].
    destruct (promise (fst (handle now dirname fs Session (Some sendProgress) pe w)));
      [|exact H'].
    simpl. now apply react_coherent.
  - destruct (keepAliveInterval (snd w)); [now apply keepAlive_coherent | exact H].
  - unfold onReqClose. destruct (connectionAlive (snd w) && _);
      [apply markClosed_coherent | exact H].
  - exact H.
  - unfold onResClose. simpl. destruct (connectionAlive (snd w)) eqn:E;
      [apply markClosed_coherent|].
    exact H.
  - apply markClosed_coherent.
  - apply markClosed_coherent.
Qed.

Lemma run_coherent (events : list Event) (w : System) :
  coherent (snd w) -> coherent (snd (runS events w)).
Proof.
  revert w. induction events as [|e events IH]; intros w H; [exact H|].
  simpl. apply IH. now apply step_coherent.
Qed.

Lemma started_coherent (TICKER h r : string) (t0 : Z) :
  coherent (snd (started now dirname fs TICKER h r t0)).
Proof.
  unfold started. destruct (launch fs dirname TICKER h r) as [opts | error].
  - unfold spawned, announce. simpl. now split.
  - unfold afterSettling. simpl. now split.
Qed.

End Flags.

Lemma sendProgress_all_coherent (pds : list ProgressData) (s : Session) :
  coherent s -> coherent (fold_left (fun s pd => sendProgress pd s) pds s).
Proof.
  revert s. induction pds as [|pd pds IH]; intros s H; [exact H|].
  simpl. apply IH. now apply sendProgress_coherent.
Qed.

(** X18.  Whatever happens after the stream is opened, the two flags of the
    session say the same thing ([connectionAlive] is the negation of
    [responseEnded]) and a session marked as ended has no interval left.
    Calls of [sendProgress] keep it so; hence the test that guards the
    branch of [sendProgress] that sets [connectionAlive] anew is false at
    every call, and the branch is never taken. *)
Theorem session_flags_stay_coherent
  (now : nat -> Z) (dirname : string) (fs : Fs.FileSystem)
  (TICKER h r : string) (t0 : Z) (events : list Event) (pds : list ProgressData) :
  let s := snd (AnalysisRoute.run now dirname fs events
                  (started now dirname fs TICKER h r t0)) in
  let s' := fold_left (fun s pd => sendProgress pd s) pds s in
  connectionAlive s = negb (responseEnded s) /\
  (responseEnded s = true -> keepAliveInterval s = false) /\
  negb (connectionAlive s') && negb (responseEnded s') = false.
Proof.
  intros s s'.
  pose proof (run_coherent now dirname fs events _
                (started_coherent now dirname fs TICKER h r t0)) as H.
  fold s in H.
  destruct (sendProgress_all_coherent pds s H) as [H1' _]. fold s' in H1'.
  destruct H as [H1 H2]. split; [exact H1|]. split; [exact H2|].
  rewrite H1'. now destruct (responseEnded s').
Qed.

(** ** The terminal event *)

Lemma sendProgress_finished (log : list Frame) (pd : ProgressData) (s : Session) :
  finished log s -> finished log (sendProgress pd s).
Proof.
  intros H. pose proof H as [H1 [H2 H3]]. unfold sendProgress.
  destruct (responseEnded s); [exact H|].
  unfold unwritable. rewrite H1, !orb_true_r.
  destruct (connectionAlive s); [now repeat split | exact H].
Qed.

(** The reaction to an outspoken settlement writes the event that reports
    it, and finishes the session. *)
Lemma react_finished (o : Settlement) (s : Session) :
  outspoken (Some o) ->
  finished (written (res s) ++ [terminalFrame o]) (react o s).
Proof.
  intros H. destruct o as [result | error].
  - now repeat split.
  - unfold outspoken in H. unfold react, onRejected, finished. rewrite H.
    now repeat split.
Qed.

Section Terminal.

Variable now : nat -> Z.
Variable dirname : string.
Variable fs : Fs.FileSystem.

Local Abbreviation stepS := (step now dirname fs).
Local Abbreviation runS := (AnalysisRoute.run now dirname fs).

Lemma step_finished (log : list Frame) (e : Event) (w : System) (o : Settlement) :
  promise (fst w) = Some o -> finished log (snd w) -> finished log (snd (stepS e w)).
Proof.
  intros Hp H. pose proof H as [H1 [H2 H3]].
  destruct e as [pe | t | | | | |]; simpl.
  - unfold afterSettling. rewrite Hp.
    now apply (handle_session now dirname fs (finished log) pe w
                 (sendProgress_finished log)).
  - now rewrite H2.
  - unfold onReqClose. destruct (connectionAlive (snd w) && _);
      [now repeat split | exact H].
  - now repeat split.
  - unfold onResClose. simpl. destruct (connectionAlive (snd w)); now repeat split.
  - now repeat split.
  - now repeat split.
Qed.

Lemma step_reported (e : Event) (w : System) :
  reported w -> reported (stepS e w).
Proof.
  intros [Ho H]. unfold reported.
  destruct (promise (fst w)) as [o|] eqn:Ep.
  - rewrite (step_settled now dirname fs e w o Ep). split; [exact Ho|].
    destruct H as [pre H]. exists pre. now apply (step_finished _ e w o).
  - destruct e as [pe | t | | | | |]; simpl; try (rewrite Ep; now split).
    rewrite afterSettling_job.
    pose proof (handle_outspoken now dirname fs Session (Some sendProgress) pe w) as Ho'.
    rewrite Ep in Ho'. specialize (Ho' I).
    split; [exact Ho'|]. unfold afterSettling. rewrite Ep.
    destruct (promise (fst (handle now dirname fs Session (Some sendProgress) pe w)))
      as [o|] eqn:Eq; [|exact I].
    eexists. simpl. now apply react_finished.
Qed.

Lemma run_reported (events : list Event) (w : System) :
  reported w -> reported (runS events w).
Proof.
  revert w. induction events as [|e events IH]; intros w H; [exact H|].
  simpl. apply IH. now apply step_reported.
Qed.

Lemma started_reported (TICKER h r : string) (t0 : Z) :
  reported (started now dirname fs TICKER h r t0).
Proof.
  unfold started. destruct (launch fs dirname TICKER h r) as [opts | error] eqn:E.
  - unfold reported. rewrite spawned_promise. now split.
  - pose proof (launch_outspoken fs dirname TICKER h r error E) as Ht.
    unfold reported, afterSettling. simpl. split; [exact Ht|].
    eexists. apply (react_finished (Rejected error)). exact Ht.
Qed.

End Terminal.

(** X19.  Once the job of a stream is settled, and whatever the transport
    did or does, the last frame handed to the response reports that
    settlement: [complete] with the result and its timing, or [error]
    with the message of the error, which is never empty, so that the text
    kept for an error without message is never sent. *)
Theorem terminal_frame_reports_the_settlement
  (now : nat -> Z) (dirname : string) (fs : Fs.FileSystem)
  (TICKER h r : string) (t0 : Z) (events : list Event) (o : Settlement) :
  let w := AnalysisRoute.run now dirname fs events
             (started now dirname fs TICKER h r t0) in
  promise (fst w) = Some o ->
  (exists pre, written (res (snd w)) = (pre ++ [terminalFrame o])%list) /\
  writableEnded (res (snd w)) = true /\
  match o with
  | Resolved _ => True
  | Rejected error => truthy (errMessage error) = true
  end.
Proof.
  intros w Hp.
  destruct (run_reported now dirname fs events _
              (started_reported now dirname fs TICKER h r t0)) as [Ho H].
  fold w in Ho, H. rewrite Hp in Ho, H. destruct H as [pre [H1 [_ H3]]].
  split; [now exists pre|]. split; [exact H1|]. exact Ho.
Qed.

Lemma terminal_frame_reports_the_settlement_witness :
  let w := AnalysisRoute.run sampleClock sampleDirname scriptOnly failingSession
             (started sampleClock sampleDirname scriptOnly
                "AAPL" "short" "moderate" 1700000000000%Z) in
  exists error,
    promise (fst w) = Some (Rejected error) /\
    exists pre, written (res (snd w)) = (pre ++ [ErrorFrame (errMessage error)])%list.
Proof.
  intros w. eexists.
  assert (H : promise (fst w)
              = Some (Rejected (mkAnalysisError "ValueError: bad ticker"
                                  (Some (Exit 1))
                                  (Some ("[Market Data Agent] fetching" ++ nl))
                                  (Some ("ValueError: bad ticker" ++ nl)))))
    by reflexivity.
  split; [exact H|].
  exact (proj1 (terminal_frame_reports_the_settlement sampleClock sampleDirname
                  scriptOnly "AAPL" "short" "moderate" 1700000000000%Z failingSession
                  _ H)).
Defined.

(** ** What a stream relays *)

Lemma progressOf_app (l1 l2 : list Frame) :
  progressOf (l1 ++ l2)%list = (progressOf l1 ++ progressOf l2)%list.
Proof. apply flat_map_app. Qed.

Lemma sendProgress_relays (first : ProgressData) (pd : ProgressData)
  (s : Session) (l : list ProgressData) :
  relays first l s -> relays first (l ++ [pd])%list (sendProgress pd s).
Proof.
  intros [H1 [H2 [H3 [H4 H5]]]]. unfold sendProgress.
  rewrite H2, H3, H1. simpl. unfold relays. simpl.
  rewrite H3, H4, progressOf_app, H5. now repeat split.
Qed.

Lemma sendProgress_relayed (first : ProgressData) (pd : ProgressData)
  (s : Session) (l : list ProgressData) :
  relayed first l s -> relayed first (l ++ [pd])%list (sendProgress pd s).
Proof.
  intros [H1 [H2 [H3 [rest H4]]]].
  assert (E : exists rest', (first :: l ++ [pd] = progressOf (written (res s)) ++ rest')%list).
  { exists (rest ++ [pd])%list. rewrite app_assoc, <- H4. reflexivity. }
  unfold sendProgress.
  destruct (responseEnded s); [now repeat split|].
  unfold unwritable. rewrite H1, !orb_true_r.
  destruct (connectionAlive s); now repeat split.
Qed.

Lemma react_relayed (first : ProgressData) (l : list ProgressData)
  (o : Settlement) (s : Session) :
  relays first l s -> relayed first l (react o s).
Proof.
  intros [H1 [H2 [H3 [H4 H5]]]].
  destruct o as [result | error]; unfold relayed; simpl;
    rewrite H3, H4, progressOf_app, H5; simpl;
    (repeat split; exists []; now rewrite !app_nil_r).
Qed.

Section Related.

Variable now : nat -> Z.
Variable dirname : string.
Variable fs : Fs.FileSystem.
Variables S1 S2 : Type.
Variable f1 : ProgressData -> S1 -> S1.
Variable f2 : ProgressData -> S2 -> S2.

(** What links two sinks before a listener of the process runs, and is
    kept when both are given the same event, links them after it. *)
Variable R : S1 -> S2 -> Prop.
Hypothesis R_kept : forall pd a b, R a b -> R (f1 pd a) (f2 pd b).

Lemma processLines_related (lines : list string) (w1 : World S1) (w2 : World S2) :
  fst w1 = fst w2 -> R (snd w1) (snd w2) ->
  R (snd (fold_left (processLine now S1 (Some f1)) lines w1))
    (snd (fold_left (processLine now S2 (Some f2)) lines w2)).
Proof.
  revert w1 w2. induction lines as [|l lines IH]; intros w1 w2 Hj H; cbn [fold_left].
  - exact H.
  - apply IH.
    + now rewrite !processLine_job, Hj.
    + unfold processLine. simpl. rewrite Hj. now apply R_kept.
Qed.

Lemma handle_related (pe : ProcessEvent) (w1 : World S1) (w2 : World S2) :
  fst w1 = fst w2 -> R (snd w1) (snd w2) ->
  R (snd (handle now dirname fs S1 (Some f1) pe w1))
    (snd (handle now dirname fs S2 (Some f2) pe w2)).
Proof.
  intros Hj H. destruct pe as [chunk | chunk | code | m |]; simpl; try exact H.
  - unfold onStdoutData.
    assert (P : fst (primed now S1 (Some f1) w1) = fst (primed now S2 (Some f2) w2)).
    { unfold primed, announce. rewrite Hj. now destruct (processStarted (fst w2)). }
    assert (Q : R (snd (primed now S1 (Some f1) w1)) (snd (primed now S2 (Some f2) w2))).
    { unfold primed, announce. rewrite Hj.
      destruct (processStarted (fst w2)); simpl; [exact H | now apply R_kept]. }
    apply processLines_related; cbn [fst snd]; [now rewrite P | exact Q].
  - unfold onStderrData. destruct (truthy (trim chunk)); simpl; [|exact H].
    rewrite Hj. now apply R_kept.
Qed.

End Related.

Section Relay.

Variable now : nat -> Z.
Variable dirname : string.
Variable fs : Fs.FileSystem.
Variable first : ProgressData.

Local Abbreviation stepS := (step now dirname fs).
Local Abbreviation runS := (AnalysisRoute.run now dirname fs).
Local Abbreviation record :=
  (PythonService.run now dirname fs (list ProgressData) recorder).

Lemma step_recorded (e : Event) (w : System) (l : list ProgressData) :
  fst (stepS e w) = fst (record (processEvents [e]) (fst w, l)).
Proof. exact (run_job now dirname fs [e] w l). Qed.

Lemma step_relaying (e : Event) (w : System) (l : list ProgressData) :
  disturbs e = false -> relaying first l w ->
  relaying first (snd (record (processEvents [e]) (fst w, l))) (stepS e w).
Proof.
  intros He H. unfold relaying in *.
  destruct e as [pe | t | | | | |]; try discriminate He; simpl.
  - rewrite afterSettling_job. unfold afterSettling.
    destruct (promise (fst w)) as [o|] eqn:Ep.
    + rewrite (handle_settled now dirname fs pe w o Ep).
      apply (handle_related now dirname fs Session (list ProgressData)
               sendProgress (fun p l => (l ++ [p])%list)
               (fun s l => relayed first l s)); try assumption; try reflexivity.
      intros pd a b. apply sendProgress_relayed.
    + pose proof (handle_related now dirname fs Session (list ProgressData)
               sendProgress (fun p l => (l ++ [p])%list)
               (fun s l => relays first l s)
               (fun pd a b => sendProgress_relays first pd a b)
               pe w (fst w, l) eq_refl H) as H'.
      destruct (promise (fst (handle now dirname fs Session (Some sendProgress) pe w)))
        as [o|] eqn:Eq; [|exact H'].
      simpl. now apply react_relayed.
  - destruct (promise (fst w)) as [o|] eqn:Ep.
    + destruct H as [H1 [H2 H3]]. rewrite H2. now repeat split.
    + destruct H as [H1 [H2 [H3 [H4 H5]]]].
      destruct (keepAliveInterval (snd w)); [|now repeat split].
      unfold keepAlive. rewrite H1, H2, H3. simpl. unfold relays. simpl.
      rewrite H3, H4, progressOf_app, H5. simpl. rewrite app_nil_r. now repeat split.
  - destruct (promise (fst w)) as [o|] eqn:Ep.
    + destruct H as [H1 [H2 H3]]. unfold onReqClose.
      destruct (connectionAlive (snd w) && _); now repeat split.
    + pose proof H as [H1 [H2 [H3 [H4 H5]]]]. unfold onReqClose.
      unfold unwritable in H3.
      destruct (writableEnded (res (snd w))); destruct (destroyed (res (snd w)));
        destruct (closed (res (snd w))); try discriminate H3.
      now rewrite andb_false_r.
Qed.

Lemma run_relaying (events : list Event) (w : System) (l : list ProgressData) :
  forallb (fun e => negb (disturbs e)) events = true ->
  relaying first l w ->
  relaying first (snd (record (processEvents events) (fst w, l))) (runS events w).
Proof.
  revert w l. induction events as [|e events IH]; intros w l He H; [exact H|].
  simpl in He. apply andb_prop in He. destruct He as [He Hr].
  apply negb_true_iff in He.
  change (runS (e :: events) w) with (runS events (stepS e w)).
  replace (processEvents (e :: events))
    with (processEvents [e] ++ processEvents events)%list
    by (unfold processEvents; simpl; now rewrite app_nil_r).
    unfold PythonService.run at 1. rewrite fold_left_app.
  fold (record (processEvents [e]) (fst w, l)).
  set (w' := record (processEvents [e]) (fst w, l)).
  pose proof (step_relaying e w l He H) as H'. fold w' in H'.
  specialize (IH (stepS e w) (snd w') Hr H').
  rewrite (step_recorded e w l) in IH at 1. fold w' in IH.
  now rewrite <- surjective_pairing in IH.
Qed.

End Relay.

(** X20.  While nothing happens to the response itself (the process, the
    interval and even a premature [close] of the request may act), every
    frame written is taken by the transport, and the [progress] events
    written are, in order and without loss or repetition, the opening
    event of the route followed by the events the job hands to its sink:
    all of them while the job is pending, and those up to the terminal
    event once it is settled. *)
Theorem undisturbed_stream_relays_every_event
  (now : nat -> Z) (dirname : string) (fs : Fs.FileSystem)
  (TICKER h r : string) (t0 : Z) (events : list Event) (opts : SpawnOptions) :
  launch fs dirname TICKER h r = inl opts ->
  forallb (fun e => negb (disturbs e)) events = true ->
  let w := AnalysisRoute.run now dirname fs events
             (started now dirname fs TICKER h r t0) in
  let first :=
    mkProgressData "system" ("Starting analysis for " ++ TICKER ++ "...") t0 in
  let emitted :=
    snd (PythonService.run now dirname fs (list ProgressData) recorder
           (processEvents events) (spawned now (list ProgressData) recorder [])) in
  sent (res (snd w)) = written (res (snd w)) /\
  (exists rest, first :: emitted = (progressOf (written (res (snd w))) ++ rest)%list) /\
  (promise (fst w) = None -> progressOf (written (res (snd w))) = first :: emitted).
Proof.
  intros Hl He w first emitted.
  assert (H0 : relaying first
                 [mkProgressData "system" "Python process started, initializing..."
                    (now 0)]
                 (started now dirname fs TICKER h r t0)).
  { unfold started. rewrite Hl. unfold relaying, relays. simpl. now repeat split. }
  pose proof (run_relaying now dirname fs first events _ _ He H0) as H.
  unfold started in H at 1. rewrite Hl in H.
  change (fst (spawned now Session (Some sendProgress) (opened TICKER t0)),
          [mkProgressData "system" "Python process started, initializing..." (now 0)])
    with (spawned now (list ProgressData) recorder []) in H.
  fold emitted in H. fold w in H. unfold relaying in H.
  destruct (promise (fst w)) as [o|].
  - destruct H as [_ [_ [H3 H4]]]. repeat split; [exact H3 | exact H4 | discriminate].
  - destruct H as [_ [_ [_ [H4 H5]]]]. repeat split; [exact H4 | | now intros _].
    exists []. now rewrite app_nil_r.
Qed.

Lemma undisturbed_stream_relays_every_event_witness :
  let w := AnalysisRoute.run sampleClock sampleDirname scriptOnly pendingSession
             (started sampleClock sampleDirname scriptOnly
                "AAPL" "short" "moderate" 1700000000000%Z) in
  forallb (fun e => negb (disturbs e)) pendingSession = true /\
  promise (fst w) = None /\
  progressOf (written (res (snd w))) =
  mkProgressData "system" ("Starting analysis for " ++ "AAPL" ++ "...") 1700000000000%Z ::
  snd (PythonService.run sampleClock sampleDirname scriptOnly (list ProgressData)
         recorder (processEvents pendingSession)
         (spawned sampleClock (list ProgressData) recorder [])).
Proof.
  intros w.
  assert (H1 : forallb (fun e => negb (disturbs e)) pendingSession = true) by reflexivity.
  assert (H2 : promise (fst w) = None) by reflexivity.
  split; [exact H1|]. split; [exact H2|].
  refine (proj2 (proj2 (undisturbed_stream_relays_every_event sampleClock sampleDirname
                          scriptOnly "AAPL" "short" "moderate" 1700000000000%Z
                          pendingSession _ _ H1)) H2).
  reflexivity.
Defined.

(** ** The two routes side by side *)

Lemma validate_thrown (toUpperCase notAFunction : string -> string)
  (body : AnalyzeRequest) (m : string) :
  validate toUpperCase notAFunction body = Thrown m -> exists e, m = notAFunction e.
Proof.
  unfold validate.
  destruct (missing (ticker body) || missing (horizon body)
            || missing (risk_profile body)); [discriminate|].
  assert (T : forall e m', Thrown (notAFunction e) = Thrown m' ->
                           exists e', m' = notAFunction e').
  { intros e m' H. injection H as <-. now exists e. }
  destruct (horizon body) as [[| | |h0| |]|]; try apply T.
  destruct (negb (arrayIncludes (toLowerCase h0) validHorizons)); [discriminate|].
  destruct (risk_profile body) as [[| | |r0| |]|]; try apply T.
  destruct (negb (arrayIncludes (toLowerCase r0) validRiskProfiles)); [discriminate|].
  destruct (ticker body) as [[| | |t| |]|]; try apply T. discriminate.
Qed.

Lemma run_settled (now : nat -> Z) (dirname : string) (fs : Fs.FileSystem)
  (events : list Event) (w : System) (o : Settlement) :
  promise (fst w) = Some o ->
  promise (fst (AnalysisRoute.run now dirname fs events w)) = Some o.
Proof.
  revert w. induction events as [|e events IH]; intros w H; [exact H|].
  simpl. apply IH. now apply step_settled.
Qed.

(** X21.  Fed the same request and the same events of the process, the two
    routes report the same thing, whatever the transport of the stream
    does: a request refused by one is refused by the other with the same
    message; a failure answered with status 500 and a message is the
    [error] event with that message at the end of the stream; a result is
    the [complete] event at the end of the stream, with the same timing
    and with data that differ by the value of [progressMessages] at most
    (the same keys in the same order, the same elements for an array, the
    same value under every other key); and while one route awaits the
    job, the other has written no terminal event. *)
Theorem both_routes_report_the_same
  (now : nat -> Z) (dirname : string) (fs : Fs.FileSystem)
  (toUpperCase notAFunction : string -> string)
  (body : AnalyzeRequest) (t0 : Z) (events : list Event) :
  (forall e, truthy (notAFunction e) = true) ->
  match analyze now dirname fs toUpperCase notAFunction body (processEvents events),
        analyzeStream now dirname fs toUpperCase notAFunction body t0 events with
  | Some (Failure status m), Refused m' => status = 400 /\ m' = m
  | Some (Failure status m), Streamed response =>
      status = 500 /\ exists pre, written response = (pre ++ [ErrorFrame m])%list
  | Some (Success data timing), Streamed response =>
      exists pre data',
        written response = (pre ++ [CompleteFrame data' timing])%list /\
        sameBut "progressMessages" data data'
  | None, Streamed response => noTerminal (written response)
  | _, _ => False
  end.
Proof.
  intros Hn. unfold analyze, analyzeStream.
  destruct (validate toUpperCase notAFunction body) as [m | m | TICKER h r] eqn:V.
  - now split.
  - destruct (validate_thrown _ _ _ _ V) as [e ->].
    unfold messageOr, setupFailed. rewrite Hn. split; [reflexivity|]. now exists [].
  - set (w := AnalysisRoute.run now dirname fs events
                (started now dirname fs TICKER h r t0)).
    pose proof (run_reported now dirname fs events _
                  (started_reported now dirname fs TICKER h r t0)) as [Ho Hr].
    fold w in Ho, Hr.
    destruct (launch fs dirname TICKER h r) as [opts | error] eqn:L.
    + assert (A : alike (promise (fst (awaited now dirname fs (processEvents events))))
                        (promise (fst w))).
      { unfold w. rewrite (run_job now dirname fs events _ []).
        unfold awaited.
        apply (run_twins now dirname fs unit (list ProgressData) None recorder).
        unfold started. rewrite L. unfold twins. simpl. now repeat split. }
      destruct (promise (fst (awaited now dirname fs (processEvents events))))
        as [[data | error]|];
        destruct (promise (fst w)) as [[data' | error']|] eqn:Ep;
        simpl in A; try contradiction.
      * destruct Hr as [pre [_ [_ Hr]]]. exists pre, data'. split; [|exact A].
        rewrite Hr. unfold terminalFrame, timingOf.
        now rewrite (sameBut_get _ "timing" _ _ A) by discriminate.
      * subst error'. destruct Hr as [pre [_ [_ Hr]]].
        unfold outspoken in Ho. unfold messageOr. rewrite Ho.
        split; [reflexivity|]. now exists pre.
      * pose proof (run_consistent now dirname fs events _
                      (started_consistent now dirname fs TICKER h r t0)) as Hc.
        fold w in Hc. unfold consistent in Hc. now rewrite Ep in Hc.
    + assert (Ep : promise (fst w) = Some (Rejected error)).
      { unfold w. apply run_settled. unfold started. rewrite L.
        now rewrite afterSettling_job. }
      rewrite Ep in Ho, Hr. destruct Hr as [pre [_ [_ Hr]]].
      unfold outspoken in Ho. unfold messageOr. rewrite Ho.
      split; [reflexivity|]. now exists pre.
Qed.

Lemma both_routes_report_the_same_witness :
  (forall e, truthy (v8NotAFunction e) = true) /\
  match analyze sampleClock sampleDirname scriptOnly asciiUpper v8NotAFunction
          sampleRequest (processEvents failingSession),
        analyzeStream sampleClock sampleDirname scriptOnly asciiUpper v8NotAFunction
          sampleRequest 1700000000000%Z failingSession with
  | Some (Failure status m), Streamed response =>
      status = 500 /\ exists pre, written response = (pre ++ [ErrorFrame m])%list
  | _, _ => False
  end.
Proof.
  assert (H : forall e, truthy (v8NotAFunction e) = true) by (intros [|c e]; reflexivity).
  split; [exact H|].
  exact (both_routes_report_the_same sampleClock sampleDirname scriptOnly asciiUpper
           v8NotAFunction sampleRequest 1700000000000%Z failingSession H).
Defined.

(** ** A missing script *)

Section MissingScript.

Variable now : nat -> Z.
Variable dirname : string.
Variable fs : Fs.FileSystem.

Lemma run_finished (log : list Frame) (events : list Event) (w : System) (o : Settlement) :
  promise (fst w) = Some o -> finished log (snd w) ->
  finished log (snd (AnalysisRoute.run now dirname fs events w)).
Proof.
  revert w. induction events as [|e events IH]; intros w Hp H; [exact H|].
  simpl. apply IH.
  - now apply step_settled.
  - now apply (step_finished now dirname fs log e w o).
Qed.

End MissingScript.

(** X22.  When the script is missing, no process is spawned and the
    stream is over at once: it holds the opening event and the [error]
    event that names the path looked at, the transport takes both, and
    nothing that happens later adds a frame. *)
Theorem missing_script_ends_the_stream_at_once
  (now : nat -> Z) (dirname : string) (fs : Fs.FileSystem)
  (TICKER h r : string) (t0 : Z) (events : list Event) :
  Fs.existsSync fs (pythonScript dirname) = false ->
  let response :=
    res (snd (AnalysisRoute.run now dirname fs events
                (started now dirname fs TICKER h r t0))) in
  launch fs dirname TICKER h r
    = inr (plainError ("Python script not found at: " ++ pythonScript dirname)) /\
  written response =
    [ProgressFrame
       (mkProgressData "system" ("Starting analysis for " ++ TICKER ++ "...") t0);
     ErrorFrame ("Python script not found at: " ++ pythonScript dirname)] /\
  sent response = written response.
Proof.
  intros He response.
  assert (L : launch fs dirname TICKER h r
              = inr (plainError ("Python script not found at: " ++ pythonScript dirname))).
  { unfold launch. now rewrite He. }
  split; [exact L|].
  set (log := [ProgressFrame
                 (mkProgressData "system" ("Starting analysis for " ++ TICKER ++ "...") t0);
               ErrorFrame ("Python script not found at: " ++ pythonScript dirname)]).
  assert (S0 : started now dirname fs TICKER h r t0 =
               (settle (Rejected (plainError
                          ("Python script not found at: " ++ pythonScript dirname)))
                       newJob,
                mkSession true false false (mkResponse true false false log log))).
  { unfold started. rewrite L. reflexivity. }
  set (w0 := (settle (Rejected (plainError
                          ("Python script not found at: " ++ pythonScript dirname)))
                     newJob,
              mkSession true false false (mkResponse true false false log log))) in S0.
  assert (P : promise (fst w0)
              = Some (Rejected (plainError
                        ("Python script not found at: " ++ pythonScript dirname))))
    by reflexivity.
  assert (F : finished log (snd w0)) by (repeat split).
  assert (D : deaf log (snd w0)) by (split; reflexivity).
  destruct (run_finished now dirname fs log events w0 _ P F) as [_ [_ Hw]].
  destruct (run_deaf now dirname fs log events w0 D) as [_ Hs].
  unfold response. rewrite S0, Hw, Hs. now split.
Qed.

Lemma missing_script_ends_the_stream_at_once_witness :
  Fs.existsSync noFiles (pythonScript sampleDirname) = false /\
  written (res (snd (AnalysisRoute.run sampleClock sampleDirname noFiles lateEvents
                       (started sampleClock sampleDirname noFiles
                          "AAPL" "short" "moderate" 1700000000000%Z)))) =
    [ProgressFrame
       (mkProgressData "system" ("Starting analysis for " ++ "AAPL" ++ "...")
          1700000000000%Z);
     ErrorFrame ("Python script not found at: " ++ pythonScript sampleDirname)].
Proof.
  assert (H : Fs.existsSync noFiles (pythonScript sampleDirname) = false) by reflexivity.
  split; [exact H|].
  exact (proj1 (proj2 (missing_script_ends_the_stream_at_once sampleClock sampleDirname
                         noFiles "AAPL" "short" "moderate" 1700000000000%Z lateEvents H))).
Defined.
